(** * spacetime-panel: schema introspection, table mirror, reducer invoker
      and connection state machine, embedded from the TypeScript sources.

    Definitions
    - [Text]           string helpers the sources rely on (ASCII text)
    - [JS]             the fragment of JavaScript values and coercions used
    - [Slice]          src/store/spacetime-slice.ts
    - [Types]          the catalog records of types/spacetime.ts
                       (unnamed/part_001, from line 420)
    - [ReducerCaller]  src/hooks/spacetime/use-reducer-caller.ts and the form
                       in front of it,
                       src/components/spacetime/dynamic-reducer-testing.tsx
    - [Analyzer]       src/utils/introspection/type-analyzer.ts
    - [Introspector]   src/utils/introspection/categorization.ts,
                       description-generator.ts (which also holds the
                       SpacetimeIntrospector class, from line 88) and
                       module-discovery.ts (unnamed/part_004, from line 83)
    - [Connection]     hooks/use-spacetime-db.ts (unnamed/part_003) with
                       hooks/spacetime/use-connection-state.ts
                       (unnamed/part_002)
    - [Samples]        concrete schemas, catalogs, sessions and traces
    - [Serialization]  src/utils/serialization.ts
    - [Selectors]      the selectors of src/store/spacetime-slice.ts
    - [Hooks]          src/hooks/spacetime/use-event-callbacks.ts (which also
                       holds use-reducer-handlers.ts, from line 30) and
                       use-table-handlers.ts
    - [Slots]          the types convertValueByType leaves in a slot
    - [ExampleGen]     utils/introspection/example-generator.ts
                       (unnamed/part_005)
    - [Traces]         further runs and invariants of the connection
    - [Navigation]     the pattern grouper (unnamed/part_005, from line 178),
                       its icons (unnamed/part_007) and its config
                       (unnamed/part_008)
    - [Fixtures]       sample table handles and catalogs

    Properties
    - [SliceProofs], [ReducerCallerProofs], [AnalyzerProofs],
      [IntrospectorProofs], [ConnectionProofs]
    - [DecimalProofs], [SerializationProofs], [SerializationExtras],
      [StoreProofs], [HooksProofs], [TableHandlerProofs], [MarshalProofs],
      [CatalogProofs], [ExampleGenProofs], [TraceProofs], [SessionProofs],
      [CategoryProofs], [NavigationProofs]

    Line numbers in the comments are those of the source file named in the
    section header. *)

From Stdlib Require Import ZArith QArith List String Ascii Bool Lia Lqa.
From stdpp Require Import base gmap strings list.
Import ListNotations.

Set Warnings "-register-all".
Local Open Scope string_scope.
Local Open Scope list_scope.

(* ===================================================================== *)
(** ** Text helpers *)
(* ===================================================================== *)

Module Text.

(** Strings are modelled as ASCII text; case mapping touches [a-z]/[A-Z]
    only, which is what the engine does on that range. *)

Definition is_lower (c : ascii) : bool :=
  let n := nat_of_ascii c in (97 <=? n)%nat && (n <=? 122)%nat.

Definition is_upper (c : ascii) : bool :=
  let n := nat_of_ascii c in (65 <=? n)%nat && (n <=? 90)%nat.

Definition is_digit (c : ascii) : bool :=
  let n := nat_of_ascii c in (48 <=? n)%nat && (n <=? 57)%nat.

(** The members of the regex class [\s] that exist in ASCII. *)
Definition is_space (c : ascii) : bool :=
  let n := nat_of_ascii c in
  (n =? 32)%nat || ((9 <=? n)%nat && (n <=? 13)%nat).

Definition lower_char (c : ascii) : ascii :=
  if is_upper c then ascii_of_nat (nat_of_ascii c + 32) else c.

Definition upper_char (c : ascii) : ascii :=
  if is_lower c then ascii_of_nat (nat_of_ascii c - 32) else c.

Fixpoint map_chars (f : ascii -> ascii) (s : string) : string :=
  match s with
  | EmptyString => EmptyString
  | String c r => String (f c) (map_chars f r)
  end.

Definition toLowerCase : string -> string := map_chars lower_char.
Definition toUpperCase : string -> string := map_chars upper_char.

(** [s.startsWith(p)] *)
Definition startsWith (s p : string) : bool := String.prefix p s.

(** [s.includes(p)] *)
Fixpoint includes (s p : string) : bool :=
  String.prefix p s ||
  match s with
  | EmptyString => false
  | String _ r => includes r p
  end.

(** [s.endsWith(p)] *)
Fixpoint endsWith (s p : string) : bool :=
  String.eqb s p ||
  match s with
  | EmptyString => false
  | String _ r => endsWith r p
  end.

(** [s.charAt(0).toUpperCase() + s.slice(1)] *)
Definition capitalize (s : string) : string :=
  match s with
  | EmptyString => EmptyString
  | String c r => String (upper_char c) r
  end.

(** [str.replace(/_([a-z])/g, (_, letter) => letter.toUpperCase())];
    the source defines it twice (use-reducer-caller.ts and
    use-reducer-handlers.ts) with the same body. *)
Fixpoint toCamelCase (s : string) : string :=
  match s with
  | EmptyString => EmptyString
  | String c r =>
      if Ascii.eqb c "_"%char then
        match r with
        | String d r' =>
            if is_lower d then String (upper_char d) (toCamelCase r')
            else String c (toCamelCase r)
        | EmptyString => String c EmptyString
        end
      else String c (toCamelCase r)
  end.

End Text.

(* ===================================================================== *)
(** ** The JavaScript fragment *)
(* ===================================================================== *)

Module JS.
Import Text.

(** Numbers: the integer-valued doubles and NaN.  [NumInt z] stands for the
    double nearest to [z] (exact for |z| <= 2^53); fractions and infinities
    are not values of this fragment, and a coercion that would produce one
    ends in [OutOfFragment] below. *)
Inductive JSNumber : Type :=
| NumInt (z : Z)
| NumNaN.

(** Values.  [props] lists an object's own enumerable properties in
    [Object.keys] order.  Objects carry no address: the one operation that
    observes identity, [===] between two objects, leaves the fragment. *)
Inductive JSValue : Type :=
| VUndefined
| VNull
| VBool (b : bool)
| VNum (n : JSNumber)
| VBigInt (z : Z)
| VStr (s : string)
| VArr (elems : list JSValue)
| VObj (props : list (string * JSValue))
| VFun.

Inductive JSError : Type :=
| TypeError (msg : string)
| SyntaxError (msg : string)
| RangeError (msg : string)
| Error (msg : string).

(** How an evaluation ends: normally, by throwing, or by leaving the
    fragment of JavaScript described here (the payload says where). *)
Inductive Completion (A : Type) : Type :=
| Normal (a : A)
| Throw (e : JSError)
| OutOfFragment (why : string).
Arguments Normal {A} a.
Arguments Throw {A} e.
Arguments OutOfFragment {A} why.

Definition bind {A B} (c : Completion A) (k : A -> Completion B) : Completion B :=
  match c with
  | Normal a => k a
  | Throw e => Throw e
  | OutOfFragment w => OutOfFragment w
  end.

Notation "x <- c ;; k" := (bind c (fun x => k))
  (at level 100, c at next level, right associativity).

Fixpoint mapM {A B} (f : A -> Completion B) (l : list A) : Completion (list B) :=
  match l with
  | [] => Normal []
  | a :: r => b <- f a ;; bs <- mapM f r ;; Normal (b :: bs)
  end.

Definition typeof (v : JSValue) : string :=
  match v with
  | VUndefined => "undefined"
  | VNull => "object"
  | VBool _ => "boolean"
  | VNum _ => "number"
  | VBigInt _ => "bigint"
  | VStr _ => "string"
  | VArr _ => "object"
  | VObj _ => "object"
  | VFun => "function"
  end.

(** ToBoolean *)
Definition truthy (v : JSValue) : bool :=
  match v with
  | VUndefined | VNull => false
  | VBool b => b
  | VNum (NumInt z) => negb (z =? 0)%Z
  | VNum NumNaN => false
  | VBigInt z => negb (z =? 0)%Z
  | VStr s => negb (String.eqb s "")
  | VArr _ | VObj _ | VFun => true
  end.

Definition num_eq (a b : JSNumber) : bool :=
  match a, b with
  | NumInt x, NumInt y => (x =? y)%Z
  | _, _ => false
  end.

Definition is_reference (v : JSValue) : bool :=
  match v with VArr _ | VObj _ | VFun => true | _ => false end.

(** [a === b].  Primitives compare by value (NaN equals nothing), a
    reference never equals a primitive, and two references compare by
    identity, which this fragment does not track. *)
Definition strict_eq (a b : JSValue) : Completion bool :=
  match a, b with
  | VUndefined, VUndefined => Normal true
  | VNull, VNull => Normal true
  | VBool x, VBool y => Normal (Bool.eqb x y)
  | VNum x, VNum y => Normal (num_eq x y)
  | VBigInt x, VBigInt y => Normal (x =? y)%Z
  | VStr x, VStr y => Normal (String.eqb x y)
  | _, _ =>
      if is_reference a && is_reference b
      then OutOfFragment "=== between two object references"
      else Normal false
  end.

Definition is_nullish (v : JSValue) : bool :=
  match v with VUndefined | VNull => true | _ => false end.

(** *** Decimal text *)

Definition digit_val (c : ascii) : Z := Z.of_nat (nat_of_ascii c - 48).

Fixpoint all_chars (p : ascii -> bool) (s : string) : bool :=
  match s with
  | EmptyString => true
  | String c r => p c && all_chars p r
  end.

Fixpoint digits_val (acc : Z) (s : string) : Z :=
  match s with
  | EmptyString => acc
  | String c r => digits_val (10 * acc + digit_val c) r
  end.

Fixpoint drop_space (s : string) : string :=
  match s with
  | String c r => if is_space c then drop_space r else s
  | EmptyString => EmptyString
  end.

Fixpoint rev_string (acc s : string) : string :=
  match s with
  | EmptyString => acc
  | String c r => rev_string (String c acc) r
  end.

(** [s.trim()] on ASCII white space *)
Definition trim (s : string) : string :=
  rev_string "" (drop_space (rev_string "" (drop_space s))).

(** A non-empty run of decimal digits. *)
Definition is_digits (s : string) : bool :=
  negb (String.eqb s "") && all_chars is_digit s.

(** An optionally signed decimal integer literal. *)
Definition signed_decimal (s : string) : option Z :=
  match s with
  | String c r =>
      if Ascii.eqb c "-"%char then
        if is_digits r then Some (- digits_val 0 r)%Z else None
      else if Ascii.eqb c "+"%char then
        if is_digits r then Some (digits_val 0 r) else None
      else if is_digits s then Some (digits_val 0 s) else None
  | EmptyString => None
  end.

Definition digit_char (d : Z) : ascii := ascii_of_nat (48 + Z.to_nat d).

Fixpoint nat_digits (fuel : nat) (z : Z) (acc : string) : string :=
  match fuel with
  | O => acc
  | S f =>
      let acc' := String (digit_char (z mod 10)) acc in
      if (z <? 10)%Z then acc' else nat_digits f (z / 10)%Z acc'
  end.

(** Decimal rendering of an integer, as [String(5)] or [5n.toString()]. *)
Definition Z_to_string (z : Z) : string :=
  let a := Z.abs z in
  let body := nat_digits (S (Z.to_nat (Z.log2 a))) a "" in
  if (z <? 0)%Z then String "-"%char body else body.

Definition num_to_string (n : JSNumber) : string :=
  match n with
  | NumInt z => Z_to_string z
  | NumNaN => "NaN"
  end.

Fixpoint join (sep : string) (l : list string) : string :=
  match l with
  | [] => ""
  | [x] => x
  | x :: r => x ++ sep ++ join sep r
  end.

(** *** Coercions: [String(v)], [Number(v)], [BigInt(v)], [Boolean(v)] *)

(** [String(v)].  A plain object prints as "[object Object]"; an array joins
    its elements with ",", null and undefined elements printing as "". *)
Fixpoint String_ (v : JSValue) : Completion string :=
  match v with
  | VUndefined => Normal "undefined"
  | VNull => Normal "null"
  | VBool true => Normal "true"
  | VBool false => Normal "false"
  | VNum n => Normal (num_to_string n)
  | VBigInt z => Normal (Z_to_string z)
  | VStr s => Normal s
  | VArr elems =>
      parts <- (fix go (l : list JSValue) : Completion (list string) :=
                  match l with
                  | [] => Normal []
                  | e :: r =>
                      p <- (if is_nullish e then Normal "" else String_ e) ;;
                      ps <- go r ;; Normal (p :: ps)
                  end) elems ;;
      Normal (join "," parts)
  | VObj _ => Normal "[object Object]"
  | VFun => OutOfFragment "String(function): source text"
  end.

(** StringToNumber restricted to integer literals. *)
Definition string_to_number (s : string) : Completion JSNumber :=
  let t := trim s in
  if String.eqb t "" then Normal (NumInt 0)
  else match signed_decimal t with
       | Some z => Normal (NumInt z)
       | None => OutOfFragment "Number(text): not a decimal integer literal"
       end.

Definition Number_ (v : JSValue) : Completion JSNumber :=
  match v with
  | VUndefined => Normal NumNaN
  | VNull => Normal (NumInt 0)
  | VBool b => Normal (NumInt (if b then 1 else 0))
  | VNum n => Normal n
  | VBigInt z => Normal (NumInt z)
  | VStr s => string_to_number s
  | VArr _ | VObj _ | VFun => s <- String_ v ;; string_to_number s
  end.

(** StringToBigInt: empty text is 0n, a decimal literal its value, a
    radix-prefixed literal is left out, anything else is a SyntaxError. *)
Definition string_to_bigint (s : string) : Completion Z :=
  let t := trim s in
  if String.eqb t "" then Normal 0%Z
  else match signed_decimal t with
       | Some z => Normal z
       | None =>
           if startsWith (toLowerCase t) "0x" || startsWith (toLowerCase t) "0o"
              || startsWith (toLowerCase t) "0b"
           then OutOfFragment "BigInt(text): radix-prefixed literal"
           else Throw (SyntaxError ("Cannot convert " ++ s ++ " to a BigInt"))
       end.

Definition BigInt_ (v : JSValue) : Completion Z :=
  match v with
  | VUndefined => Throw (TypeError "Cannot convert undefined to a BigInt")
  | VNull => Throw (TypeError "Cannot convert null to a BigInt")
  | VBool b => Normal (if b then 1 else 0)%Z
  | VNum (NumInt z) => Normal z
  | VNum NumNaN => Throw (RangeError "The number NaN cannot be converted to a BigInt")
  | VBigInt z => Normal z
  | VStr s => string_to_bigint s
  | VArr _ | VObj _ | VFun => s <- String_ v ;; string_to_bigint s
  end.

Definition Boolean_ (v : JSValue) : bool := truthy v.

(** *** Property access *)

Fixpoint assoc {A} (k : string) (l : list (string * A)) : option A :=
  match l with
  | [] => None
  | (k', a) :: r => if String.eqb k' k then Some a else assoc k r
  end.

(** A canonical array index: decimal digits that print back unchanged. *)
Definition array_index (k : string) : option nat :=
  if is_digits k && String.eqb (Z_to_string (digits_val 0 k)) k
  then Some (Z.to_nat (digits_val 0 k)) else None.

Definition or_undefined (o : option JSValue) : JSValue :=
  match o with Some v => v | None => VUndefined end.

(** [v[k]] over own properties: reading from null or undefined throws,
    every other miss is [undefined].  Members inherited from a prototype
    ("toString", "constructor", ...) are not described by this function;
    [inherited] below gives them for the two plain objects that are read
    under arbitrary names, the slice state and the callback registry. *)
Definition get_prop (v : JSValue) (k : string) : Completion JSValue :=
  match v with
  | VUndefined =>
      Throw (TypeError ("Cannot read properties of undefined (reading '" ++ k ++ "')"))
  | VNull =>
      Throw (TypeError ("Cannot read properties of null (reading '" ++ k ++ "')"))
  | VObj props => Normal (or_undefined (assoc k props))
  | VArr elems =>
      if String.eqb k "length" then Normal (VNum (NumInt (Z.of_nat (length elems))))
      else match array_index k with
           | Some i => Normal (or_undefined (nth_error elems i))
           | None => Normal VUndefined
           end
  | VStr s =>
      if String.eqb k "length" then Normal (VNum (NumInt (Z.of_nat (String.length s))))
      else match array_index k with
           | Some i =>
               Normal (match String.get i s with
                       | Some c => VStr (String c "")
                       | None => VUndefined
                       end)
           | None => Normal VUndefined
           end
  | VBool _ | VNum _ | VBigInt _ | VFun => Normal VUndefined
  end.

(** The methods a plain object inherits from [Object.prototype]. *)
Definition OBJECT_PROTOTYPE : list string :=
  [ "constructor"; "hasOwnProperty"; "isPrototypeOf"; "propertyIsEnumerable";
    "toLocaleString"; "toString"; "valueOf";
    "__defineGetter__"; "__defineSetter__"; "__lookupGetter__";
    "__lookupSetter__" ].

(** What [o[k]] answers for a plain object [o] with no own property [k]:
    the inherited method, the prototype itself for "__proto__", and
    [undefined] for every other name. *)
Definition inherited (k : string) : JSValue :=
  if existsb (String.eqb k) OBJECT_PROTOTYPE then VFun
  else if String.eqb k "__proto__"
       then VObj (map (fun m => (m, VFun)) OBJECT_PROTOTYPE)
       else VUndefined.

End JS.

(* ===================================================================== *)
(** ** store/spacetime-slice.ts *)
(* ===================================================================== *)

Module Slice.
Import JS.

(** The slice state is one flat object: the four session fields and one
    entry per table name share a single key space
    ([interface SpacetimeState { ...; [key: string]: any }]).  The map
    holds the object's own properties; what it inherits is [inherited].
    The one name that is no ordinary property of an object, "__proto__"
    (assigning to it replaces the prototype), is not described as a table
    name. *)
Abbreviation State := (gmap string JSValue).

Definition initialState : State :=
  <["connectionStatus" := VStr "disconnected"]>
  (<["connection" := VNull]>
  (<["identity" := VNull]>
  (<["error" := VNull]> ∅))).

(** [state[key]]: the state is a plain object (read through its Immer
    draft inside a reducer), so a key it does not own is looked up on
    [Object.prototype]: "constructor" or "toString" read as a function,
    any ordinary name as [undefined]. *)
Definition read (st : State) (k : string) : JSValue :=
  default (inherited k) (st !! k).

(** comparePrimaryKeys (lines 23-28) *)
Definition comparePrimaryKeys (a b : JSValue) (primaryKey : string)
  : Completion bool :=
  if String.eqb (typeof a) "object" && String.eqb (typeof b) "object" then
    x <- get_prop a primaryKey ;;
    y <- get_prop b primaryKey ;;
    strict_eq x y
  else strict_eq a b.

(** [arr.findIndex(p)]: [None] is the source's -1. *)
Fixpoint findIndex (p : JSValue -> Completion bool) (l : list JSValue)
  : Completion (option nat) :=
  match l with
  | [] => Normal None
  | x :: r =>
      b <- p x ;;
      if b then Normal (Some 0%nat)
      else i <- findIndex p r ;; Normal (S <$> i)
  end.

(** What [typeof v === "object"] accepts: null, arrays and objects. *)
Definition object_shaped (v : JSValue) : bool :=
  match v with VNull | VArr _ | VObj _ => true | _ => false end.

(** The callback both updateTableRow and deleteTableRow hand to findIndex. *)
Definition locate (primaryKey : string) (primaryValue : JSValue)
  (item : JSValue) : Completion bool :=
  k <- get_prop item primaryKey ;;
  comparePrimaryKeys k primaryValue primaryKey.

(** Calling array method [m] on a truthy value that is not an array. *)
Definition no_method {A} (v : JSValue) (m : string) : Completion A :=
  match v with
  | VObj props =>
      match assoc m props with
      | Some _ => OutOfFragment ("object with its own " ++ m)
      | None => Throw (TypeError (m ++ " is not a function"))
      end
  | _ => Throw (TypeError (m ++ " is not a function"))
  end.

Definition setConnectionStatus (st : State) (status : string) : State :=
  <["connectionStatus" := VStr status]> st.

Definition setConnection (st : State) (conn : JSValue) : State :=
  <["connection" := conn]> st.

Definition setIdentity (st : State) (identity : string) : State :=
  <["identity" := VStr identity]> st.

Definition setError (st : State) (msg : string) : State :=
  <["error" := VStr msg]> st.

Definition clearError (st : State) : State :=
  <["error" := VNull]> st.

Definition session_key (k : string) : bool :=
  String.eqb k "connectionStatus" || String.eqb k "connection"
  || String.eqb k "identity" || String.eqb k "error".

Definition clearAllTables (st : State) : State :=
  filter (fun kv => session_key kv.1 = true) st.

Definition initializeTable (st : State) (tableName : string) : State :=
  if truthy (read st tableName) then st else <[tableName := VArr []]> st.

Definition setTableData (st : State) (tableName : string)
  (data : list JSValue) : State :=
  <[tableName := VArr data]> st.

Definition insertTableRow (st : State) (tableName : string) (row : JSValue)
  : Completion State :=
  let t := read st tableName in
  if truthy t then
    match t with
    | VArr rows => Normal (<[tableName := VArr (rows ++ [row])]> st)
    | _ => no_method t "push"
    end
  else Normal st.

Definition updateTableRow (st : State) (tableName primaryKey : string)
  (primaryValue row : JSValue) : Completion State :=
  let t := read st tableName in
  if truthy t then
    match t with
    | VArr rows =>
        index <- findIndex (locate primaryKey primaryValue) rows ;;
        match index with
        | Some i => Normal (<[tableName := VArr (<[i := row]> rows)]> st)
        | None => Normal st
        end
    | _ => no_method t "findIndex"
    end
  else Normal st.

Definition deleteTableRow (st : State) (tableName primaryKey : string)
  (primaryValue : JSValue) : Completion State :=
  let t := read st tableName in
  if truthy t then
    match t with
    | VArr rows =>
        index <- findIndex (locate primaryKey primaryValue) rows ;;
        match index with
        | Some i => Normal (<[tableName := VArr (delete i rows)]> st)
        | None => Normal st
        end
    | _ => no_method t "findIndex"
    end
  else Normal st.

Inductive Action : Type :=
| SetConnectionStatus (status : string)
| SetConnection (conn : JSValue)
| SetIdentity (identity : string)
| SetError (msg : string)
| ClearError
| ClearAllTables
| InitializeTable (tableName : string)
| SetTableData (tableName : string) (data : list JSValue)
| InsertTableRow (tableName : string) (row : JSValue)
| UpdateTableRow (tableName primaryKey : string) (primaryValue row : JSValue)
| DeleteTableRow (tableName primaryKey : string) (primaryValue : JSValue).

(** The slice reducer: one case per entry of [reducers]. *)
Definition reducer (st : State) (a : Action) : Completion State :=
  match a with
  | SetConnectionStatus s => Normal (setConnectionStatus st s)
  | SetConnection c => Normal (setConnection st c)
  | SetIdentity i => Normal (setIdentity st i)
  | SetError m => Normal (setError st m)
  | ClearError => Normal (clearError st)
  | ClearAllTables => Normal (clearAllTables st)
  | InitializeTable t => Normal (initializeTable st t)
  | SetTableData t d => Normal (setTableData st t d)
  | InsertTableRow t r => insertTableRow st t r
  | UpdateTableRow t pk pv r => updateTableRow st t pk pv r
  | DeleteTableRow t pk pv => deleteTableRow st t pk pv
  end.

(** Dispatching a list of actions in order; the first one that does not
    complete normally ends the run. *)
Fixpoint dispatchAll (st : State) (acts : list Action) : Completion State :=
  match acts with
  | [] => Normal st
  | a :: r => st' <- reducer st a ;; dispatchAll st' r
  end.

(** *** Table notifications and the mirror they produce *)

Inductive TableOp : Type :=
| OpInsert (row : JSValue)
| OpUpdate (primaryValue row : JSValue)
| OpDelete (primaryValue : JSValue).

Definition op_action (tableName primaryKey : string) (op : TableOp) : Action :=
  match op with
  | OpInsert r => InsertTableRow tableName r
  | OpUpdate v r => UpdateTableRow tableName primaryKey v r
  | OpDelete v => DeleteTableRow tableName primaryKey v
  end.

(** Seed the table with [setTableData], then dispatch one action per
    notification; the result is what the store holds under the table name. *)
Definition mirror (st : State) (tableName primaryKey : string)
  (seed : list JSValue) (ops : list TableOp) : Completion JSValue :=
  st' <- dispatchAll (setTableData st tableName seed)
           (map (op_action tableName primaryKey) ops) ;;
  Normal (read st' tableName).

(** The action gives the table name an entry of its own. *)
Definition initializes (tableName : string) (a : Action) : bool :=
  match a with
  | InitializeTable t | SetTableData t _ => String.eqb t tableName
  | _ => false
  end.

(** *** The reference the mirror is compared with

    A collection keyed by the primary key, written from the description of
    the mirror rather than from the reducers: insert appends, update
    replaces what is stored under the key, delete removes what is stored
    under the key. *)

(** Values that can serve as a key: primitives that [===] compares by
    value and that equal themselves. *)
Definition is_key (v : JSValue) : bool :=
  match v with
  | VBool _ | VNum (NumInt _) | VBigInt _ | VStr _ => true
  | _ => false
  end.

Definition row_key (primaryKey : string) (row : JSValue) : option JSValue :=
  match get_prop row primaryKey with
  | Normal k => if is_key k then Some k else None
  | _ => None
  end.

(** The row is stored under key [v]. *)
Definition key_is (primaryKey : string) (v row : JSValue) : bool :=
  match (k <- get_prop row primaryKey ;; strict_eq k v) with
  | Normal b => b
  | _ => false
  end.

(** A row the reducers can read the key of: anything but null and
    undefined, where [item[primaryKey]] throws, and functions, whose own
    properties ("name", "length") are not described here. *)
Definition is_row (v : JSValue) : bool :=
  match v with VUndefined | VNull | VFun => false | _ => true end.

(** A primary value that [comparePrimaryKeys] hands to [===] as it is: a
    primitive other than null. *)
Definition primitive_key (v : JSValue) : bool :=
  match v with VNull | VArr _ | VObj _ | VFun => false | _ => true end.

(** [primaryValue] is a primitive that no row of the named table is stored
    under.  The name has no entry and inherits nothing, or its entry is
    falsy (a session field holding null), or its entry is an array of rows
    none of which carries [primaryValue] in its primary-key field. *)
Definition unmatched (st : State) (tableName primaryKey : string)
  (primaryValue : JSValue) : bool :=
  primitive_key primaryValue &&
  match st !! tableName with
  | Some (VArr rows) =>
      forallb (fun item => is_row item
                           && negb (key_is primaryKey primaryValue item)) rows
  | Some v => negb (truthy v)
  | None => negb (truthy (inherited tableName))
  end.

(** The name was never initialized and reads as [undefined]: the state has
    no entry for it and a plain object inherits nothing under it. *)
Definition uninitialized (st : State) (tableName : string) : bool :=
  match st !! tableName with
  | Some _ => false
  | None => negb (truthy (inherited tableName))
  end.

Definition replay_step (primaryKey : string) (c : list JSValue) (op : TableOp)
  : list JSValue :=
  match op with
  | OpInsert r => c ++ [r]
  | OpUpdate v r => map (fun x => if key_is primaryKey v x then r else x) c
  | OpDelete v => List.filter (fun x => negb (key_is primaryKey v x)) c
  end.

Definition replay (primaryKey : string) (ops : list TableOp)
  (c : list JSValue) : list JSValue :=
  fold_left (replay_step primaryKey) ops c.

(** Streams that keep the collection keyed: every row has a key, no two
    rows share one. *)
Definition has_key (primaryKey : string) (v : JSValue) (c : list JSValue) : bool :=
  existsb (key_is primaryKey v) c.

Fixpoint distinct_keys (primaryKey : string) (c : list JSValue) : bool :=
  match c with
  | [] => true
  | r :: c' =>
      match row_key primaryKey r with
      | Some k => negb (has_key primaryKey k c') && distinct_keys primaryKey c'
      | None => false
      end
  end.

Definition op_keeps_keys (primaryKey : string) (c : list JSValue) (op : TableOp)
  : bool :=
  match op with
  | OpInsert r =>
      match row_key primaryKey r with
      | Some k => negb (has_key primaryKey k c)
      | None => false
      end
  | OpUpdate v r =>
      is_key v &&
      match row_key primaryKey r with
      | Some k => key_is primaryKey v r || negb (has_key primaryKey k c)
      | None => false
      end
  | OpDelete v => is_key v
  end.

Fixpoint stream_keeps_keys (primaryKey : string) (c : list JSValue)
  (ops : list TableOp) : bool :=
  match ops with
  | [] => true
  | op :: r =>
      op_keeps_keys primaryKey c op
      && stream_keeps_keys primaryKey (replay_step primaryKey c op) r
  end.

End Slice.

(* ===================================================================== *)
(** ** types/spacetime.ts: catalog records *)
(* ===================================================================== *)

Module Types.
Import JS.

Inductive InputType : Type :=
| text | number | boolean | select | textarea | date | email | url | password.

Record Validation : Type := mkValidation {
  required : option bool;
  min : option Z;
  max : option Z;
  pattern : option string;
}.

(** A member of an exported enum namespace: a plain value, or a factory
    with the completion of calling it without arguments. *)
Inductive Member : Type :=
| MemberValue (v : JSValue)
| MemberFactory (result : Completion JSValue).

Record EnumCtor : Type := mkEnumCtor {
  ctor_export : string;
  ctor_members : list (string * Member);
}.

(** FieldMetadataSchema.  [validation] is optional in the schema;
    [_enumConstructor] is absent ([None]), null ([Some None]) or an export of
    the generated module. *)
Record FieldMetadata : Type := mkField {
  name : string;
  type : string;
  isOptional : bool;
  isArray : bool;
  enumValues : option (list string);
  displayName : string;
  inputType : InputType;
  validation : option Validation;
  _enumConstructor : option (option EnumCtor);
}.

(** TableMetadataSchema.  [t_icon] names the lucide-react component. *)
Record TableMetadata : Type := mkTable {
  t_name : string;
  t_displayName : string;
  t_primaryKey : string;
  t_fields : list FieldMetadata;
  t_icon : string;
  t_category : string;
  t_description : string;
  t_actions : list string;
}.

(** ReducerMetadataSchema *)
Record ReducerMetadata : Type := mkReducer {
  r_name : string;
  r_displayName : string;
  r_description : string;
  r_category : string;
  r_fields : list FieldMetadata;
  r_icon : string;
  r_color : string;
  r_isDestructive : bool;
  r_exampleArgs : JSValue;
}.

End Types.

(* ===================================================================== *)
(** ** hooks/spacetime/use-reducer-caller.ts *)
(* ===================================================================== *)

Module ReducerCaller.
Import Text JS Types.

(** An open session as the caller sees it: the members of
    [connection.reducers] by name, and what invoking a callable member with
    a positional argument list does. *)
Record Connection : Type := mkConnection {
  reducers : string -> JSValue;
  invoke : string -> list JSValue -> Completion unit;
}.

(** [Object.keys(v)] *)
Definition indices (n : nat) : list string :=
  map (fun i => Z_to_string (Z.of_nat i)) (seq 0 n).

Definition Object_keys (v : JSValue) : Completion (list string) :=
  match v with
  | VUndefined | VNull =>
      Throw (TypeError "Cannot convert undefined or null to object")
  | VObj props => Normal (map fst props)
  | VArr elems => Normal (indices (length elems))
  | VStr s => Normal (indices (String.length s))
  | VBool _ | VNum _ | VBigInt _ | VFun => Normal []
  end.

(** convertArgsToObject (lines 51-60): later keys overwrite earlier ones
    that camel-case to the same name. *)
Definition convertArgsToObject (args : JSValue)
  : Completion (gmap string JSValue) :=
  keys <- Object_keys args ;;
  (fix go (ks : list string) (converted : gmap string JSValue)
     : Completion (gmap string JSValue) :=
     match ks with
     | [] => Normal converted
     | key :: r =>
         v <- get_prop args key ;;
         go r (<[toCamelCase key := v]> converted)
     end) keys ∅.

(** convertValueByType (lines 84-102) *)
Definition convertValueByType (value : JSValue) (type : string)
  : Completion JSValue :=
  if String.eqb type "string" || includes type "String" then
    s <- String_ value ;; Normal (VStr s)
  else if String.eqb type "u64" || String.eqb type "i64" then
    z <- BigInt_ value ;; Normal (VBigInt z)
  else if String.eqb type "boolean" || String.eqb type "Bool" then
    Normal (VBool (Boolean_ value))
  else if startsWith type "u" || startsWith type "i" || startsWith type "f" then
    n <- Number_ value ;; Normal (VNum n)
  else Normal value.

Definition is_empty_string (v : JSValue) : bool :=
  match v with VStr s => String.eqb s "" | _ => false end.

(** The body of the [fields.map] callback in createOrderedArgs. *)
Definition orderedArg (convertedArgs : gmap string JSValue)
  (field : FieldMetadata) : Completion JSValue :=
  let value := default VUndefined (convertedArgs !! name field) in
  value <- (if negb (is_nullish value)
            then convertValueByType value (type field)
            else Normal value) ;;
  if isOptional field && (is_nullish value || is_empty_string value)
  then Normal VUndefined
  else Normal value.

(** createOrderedArgs (lines 62-82) *)
Definition createOrderedArgs (fields : list FieldMetadata)
  (convertedArgs : gmap string JSValue) : Completion (list JSValue) :=
  mapM (orderedArg convertedArgs) fields.

(** What one call of callReducer did: how the returned promise settles and
    which remote calls were issued, in order. *)
Record CallResult : Type := mkCallResult {
  outcome : Completion unit;
  issued : list (string * list JSValue);
}.

Definition rejected (e : JSError) : CallResult := mkCallResult (Throw e) [].

(** The two statements of the [try] block that build the argument list. *)
Definition marshal (fields : list FieldMetadata) (args : JSValue)
  : Completion (list JSValue) :=
  convertedArgs <- convertArgsToObject args ;;
  createOrderedArgs fields convertedArgs.

(** [!reducerMethod || typeof reducerMethod !== "function"] *)
Definition methodMissing (conn : Connection) (camelCaseMethodName : string)
  : bool :=
  let reducerMethod := reducers conn camelCaseMethodName in
  negb (truthy reducerMethod)
  || negb (String.eqb (typeof reducerMethod) "function").

Definition findReducer (discoveredReducers : list ReducerMetadata)
  (reducerName : string) : option ReducerMetadata :=
  List.find (fun r => String.eqb (r_name r) reducerName) discoveredReducers.

(** callReducer (lines 9-43).  The [catch] logs and rethrows, so a failure
    while marshalling settles the promise the same way a throw would. *)
Definition callReducer (connection : option Connection)
  (discoveredReducers : list ReducerMetadata)
  (reducerName : string) (args : JSValue) : CallResult :=
  match connection with
  | None => rejected (Error "Not connected to SpacetimeDB")
  | Some conn =>
      match findReducer discoveredReducers reducerName with
      | None => rejected (Error ("Reducer metadata not found: " ++ reducerName))
      | Some reducerMetadata =>
          let camelCaseMethodName := toCamelCase reducerName in
          if methodMissing conn camelCaseMethodName
          then rejected (Error ("Reducer method not found: " ++ camelCaseMethodName))
          else
            match marshal (r_fields reducerMetadata) args with
            | Normal orderedArgs =>
                mkCallResult (invoke conn camelCaseMethodName orderedArgs)
                             [(camelCaseMethodName, orderedArgs)]
            | Throw e => mkCallResult (Throw e) []
            | OutOfFragment w => mkCallResult (OutOfFragment w) []
            end
      end
  end.

(** *** The form in front of it: components/spacetime/dynamic-reducer-testing.tsx *)

(** [parseFloat(text)] where the text is exactly an integer literal. *)
Definition parseFloat_ (s : string) : Completion JSNumber :=
  match signed_decimal (drop_space s) with
  | Some z => Normal (NumInt z)
  | None => OutOfFragment "parseFloat(text): not a decimal integer literal"
  end.

(** constructEnumValue (lines 551-570) *)
Definition constructEnumValue (field : FieldMetadata) (value : JSValue)
  : Completion JSValue :=
  match enumValues field with
  | None => Normal value
  | Some vs =>
      s <- String_ value ;;
      if negb (existsb (String.eqb s) vs) then
        Normal (match vs with
                | v0 :: _ => if truthy (VStr v0) then VStr v0 else value
                | [] => value
                end)
      else
        match _enumConstructor field with
        | Some (Some ctor) =>
            match assoc s (ctor_members ctor) with
            | Some (MemberFactory (Normal v)) => Normal v
            | Some (MemberFactory (Throw _)) => Normal (VStr s)
            | Some (MemberFactory (OutOfFragment w)) => OutOfFragment w
            | Some (MemberValue v) =>
                match v with
                | VUndefined => Normal (VStr s)
                | VFun => OutOfFragment "enum member that is an opaque function"
                | _ => Normal v
                end
            | None => Normal (VStr s)
            end
        | _ => Normal (VStr s)
        end
  end.

Definition type_in (t : string) (l : list string) : bool :=
  existsb (String.eqb t) l.

(** The type conversion chain of attemptCall (lines 599-615). *)
Definition convertFormValue (field : FieldMetadata) (value : JSValue)
  : Completion JSValue :=
  if String.eqb (type field) "string" then
    s <- String_ value ;; Normal (VStr s)
  else if String.eqb (type field) "boolean" then
    Normal (VBool (Boolean_ value))
  else if type_in (type field) ["u64"; "i64"] then
    n <- Number_ value ;; z <- BigInt_ (VNum n) ;; Normal (VBigInt z)
  else if type_in (type field) ["u8"; "u16"; "u32"; "i8"; "i16"; "i32"] then
    n <- Number_ value ;; Normal (VNum n)
  else if type_in (type field) ["f32"; "f64"] then
    s <- String_ value ;; n <- parseFloat_ s ;; Normal (VNum n)
  else if String.eqb (type field) "enum" || bool_decide (is_Some (enumValues field)) then
    constructEnumValue field value
  else Normal value.

(** [obj[k] = v] on a list of own properties. *)
Fixpoint set_prop (k : string) (v : JSValue) (props : list (string * JSValue))
  : list (string * JSValue) :=
  match props with
  | [] => [(k, v)]
  | (k', v') :: r =>
      if String.eqb k' k then (k, v) :: r else (k', v') :: set_prop k v r
  end.

(** The [reducer.fields.forEach] of attemptCall (lines 586-617): the
    argument bag the form hands to callReducer.  A required field left
    undefined or empty takes the entry's example value; an optional one is
    left out. *)
Fixpoint collectFormArgs (reducer : ReducerMetadata) (formData : JSValue)
  (fields : list FieldMetadata) (args : list (string * JSValue))
  : Completion (list (string * JSValue)) :=
  match fields with
  | [] => Normal args
  | field :: rest =>
      value <- get_prop formData (name field) ;;
      if (match value with VUndefined => true | _ => false end)
         || is_empty_string value then
        if negb (isOptional field) then
          value <- (if is_nullish (r_exampleArgs reducer) then Normal VUndefined
                    else get_prop (r_exampleArgs reducer) (name field)) ;;
          if negb (is_nullish value) then
            v <- convertFormValue field value ;;
            collectFormArgs reducer formData rest (set_prop (name field) v args)
          else collectFormArgs reducer formData rest args
        else collectFormArgs reducer formData rest args
      else if negb (is_nullish value) then
        v <- convertFormValue field value ;;
        collectFormArgs reducer formData rest (set_prop (name field) v args)
      else collectFormArgs reducer formData rest args
  end.

(** handleCallReducer up to the call: assemble the bag, then callReducer. *)
Definition submitForm (connection : option Connection)
  (discoveredReducers : list ReducerMetadata) (reducer : ReducerMetadata)
  (formData : JSValue) : CallResult :=
  match collectFormArgs reducer formData (r_fields reducer) [] with
  | Normal args =>
      callReducer connection discoveredReducers (r_name reducer) (VObj args)
  | Throw e => mkCallResult (Throw e) []
  | OutOfFragment w => mkCallResult (OutOfFragment w) []
  end.

End ReducerCaller.

(* ===================================================================== *)
(** ** utils/introspection/type-analyzer.ts *)
(* ===================================================================== *)

Module Analyzer.
Import Text JS Types.

Inductive PrimKind : Type :=
| Bool | U8 | U16 | U32 | U64 | I8 | I16 | I32 | I64 | F32 | F64 | String_.

Inductive SpecialKind : Type :=
| Identity | ConnectionId | Timestamp | TimeDuration | ScheduleAt.

(** Modelled from the spec: the SDK's [AlgebraicType] class (package
    @clockworklabs/spacetimedb-sdk) is not part of the sources.  The data
    model describes it as a closed tagged variant: a primitive kind, a
    product of named elements, a sum of named variants each with an optional
    payload, an array, a map, or one of five special built-ins.  With the
    element and variant lists always present, the analyzer's guards for a
    missing list ([!productType.elements], [!sumType.variants]) are never
    taken and have no counterpart below. *)
Inductive AlgebraicType : Type :=
| Primitive (k : PrimKind)
| Product (elements : list (string * AlgebraicType))
| Sum (variants : list (string * option AlgebraicType))
| Array (elem : AlgebraicType)
| Map (keyType valueType : AlgebraicType)
| Special (k : SpecialKind).

Definition isProductType (t : AlgebraicType) : bool :=
  match t with Product _ => true | _ => false end.
Definition isSumType (t : AlgebraicType) : bool :=
  match t with Sum _ => true | _ => false end.

(** [name || fallback] on strings *)
Definition or_else (s fallback : string) : string :=
  if String.eqb s "" then fallback else s.

(** [name.split(/[_\s]+/)] *)
Definition is_sep (c : ascii) : bool := Ascii.eqb c "_"%char || is_space c.

Fixpoint drop_sep (s : string) : string :=
  match s with
  | String c r => if is_sep c then drop_sep r else s
  | EmptyString => EmptyString
  end.

Fixpoint split_words (fuel : nat) (cur : string) (s : string) : list string :=
  match fuel with
  | O => [rev_string "" cur]
  | S f =>
      match s with
      | EmptyString => [rev_string "" cur]
      | String c r =>
          if is_sep c then rev_string "" cur :: split_words f "" (drop_sep r)
          else split_words f (String c cur) r
      end
  end.

(** formatDisplayName (lines 306-311) *)
Definition formatDisplayName (name : string) : string :=
  join " " (map capitalize (split_words (S (String.length name)) "" name)).

Definition primString (k : PrimKind) : string :=
  match k with
  | Bool => "boolean"
  | U8 => "u8" | U16 => "u16" | U32 => "u32" | U64 => "u64"
  | I8 => "i8" | I16 => "i16" | I32 => "i32" | I64 => "i64"
  | F32 => "f32" | F64 => "f64"
  | String_ => "string"
  end.

Definition specialString (k : SpecialKind) : string :=
  match k with
  | Identity => "Identity"
  | ConnectionId => "ConnectionId"
  | Timestamp => "Timestamp"
  | TimeDuration => "TimeDuration"
  | ScheduleAt => "ScheduleAt"
  end.

Definition lowerNames (variants : list (string * option AlgebraicType))
  : list string :=
  map (fun v => toLowerCase (fst v)) variants.

Definition names_include (names : list string) (s : string) : bool :=
  existsb (String.eqb s) names.

(** [variants.find(v => v.name?.toLowerCase() === "some")] *)
Definition findSome (variants : list (string * option AlgebraicType))
  : option (string * option AlgebraicType) :=
  List.find (fun v => String.eqb (toLowerCase (fst v)) "some") variants.

(** The optional wrapper of the data model: exactly two variants, named
    "some" and "none" in any casing. *)
Definition someNonePair (variants : list (string * option AlgebraicType))
  : bool :=
  match variants with
  | [(a, _); (b, _)] =>
      (String.eqb (toLowerCase a) "some" && String.eqb (toLowerCase b) "none")
      || (String.eqb (toLowerCase a) "none" && String.eqb (toLowerCase b) "some")
  | _ => false
  end.

(** The payload of the variant named "some", when it has one. *)
Definition somePayload (variants : list (string * option AlgebraicType))
  : option AlgebraicType :=
  match findSome variants with
  | Some (_, payload) => payload
  | None => None
  end.

(** getTypeString (lines 95-154).  The recursion follows the payload of the
    "some" variant, the array element and the two map components. *)
Fixpoint getTypeString (t : AlgebraicType) : string :=
  match t with
  | Sum variants =>
      let viaSome :=
        (fix pick (vs : list (string * option AlgebraicType)) : option string :=
           match vs with
           | [] => None
           | (n, payload) :: r =>
               if String.eqb (toLowerCase n) "some"
               then match payload with
                    | Some p => Some (getTypeString p)
                    | None => None
                    end
               else pick r
           end) variants in
      if (length variants =? 2)%nat
         && names_include (lowerNames variants) "some"
         && names_include (lowerNames variants) "none"
      then match viaSome with
           | Some s => s
           | None => "enum"
           end
      else "enum"
  | Primitive k => primString k
  | Product _ => "object"
  | Array e => "Array<" ++ getTypeString e ++ ">"
  | Map k v => "Map<" ++ getTypeString k ++ ", " ++ getTypeString v ++ ">"
  | Special k => specialString k
  end.

(** isOptionalType (lines 156-162) *)
Definition isOptionalType (t : AlgebraicType) : bool :=
  match t with
  | Sum variants =>
      names_include (lowerNames variants) "none"
      && names_include (lowerNames variants) "some"
  | _ => false
  end.

Definition isArrayType (t : AlgebraicType) : bool :=
  match t with Array _ => true | _ => false end.

(** extractEnumValues (lines 168-173) *)
Definition extractEnumValues (t : AlgebraicType) : option (list string) :=
  match t with
  | Sum variants =>
      if negb (isOptionalType t) then Some (map fst variants) else None
  | _ => None
  end.

(** The [patterns] table of inferInputType, in declaration order. *)
Definition inputPatterns : list (string * InputType) :=
  [ ("email", email); ("mail", email); ("password", password);
    ("secret", password); ("token", password); ("url", url); ("link", url);
    ("website", url); ("description", textarea); ("content", textarea);
    ("message", textarea); ("comment", textarea); ("bio", textarea);
    ("about", textarea) ].

(** [/^[ui](8|16|32|64)$|^f(32|64)$/.test(typeString)] *)
Definition isNumericTypeString (typeString : string) : bool :=
  existsb (String.eqb typeString)
    ["u8"; "u16"; "u32"; "u64"; "i8"; "i16"; "i32"; "i64"; "f32"; "f64"].

(** inferInputType (lines 175-220) *)
Definition inferInputType (typeString fieldName : string) : InputType :=
  let lowerName := toLowerCase fieldName in
  if String.eqb typeString "enum" then select
  else if String.eqb typeString "boolean" then boolean
  else
    match List.find (fun p => includes lowerName (fst p)) inputPatterns with
    | Some p => snd p
    | None =>
        if includes lowerName "date" || includes lowerName "time"
           || includes lowerName "created" || includes lowerName "updated"
           || String.eqb typeString "Timestamp"
        then date
        else if isNumericTypeString typeString then number
        else text
    end.

Definition numericLimits : list (string * (Z * Z)) :=
  [ ("u8", (0, 255)%Z); ("u16", (0, 65535)%Z); ("u32", (0, 4294967295)%Z) ].

(** generateValidation (lines 222-254) *)
Definition generateValidation (typeString fieldName : string) : Validation :=
  let lowerName := toLowerCase fieldName in
  let req :=
    if negb (includes lowerName "optional") && negb (includes typeString "Option")
    then Some true else None in
  let lim := assoc typeString numericLimits in
  let pat :=
    if String.eqb typeString "string" then
      if includes lowerName "email" then Some "^[^@]+@[^@]+\.[^@]+$"
      else if includes lowerName "url" then Some "^https?://.*"
      else None
    else None in
  mkValidation req (fst <$> lim) (snd <$> lim) pat.

(** One element of analyzeProductType (lines 41-56). *)
Definition productField (element : string * AlgebraicType) : FieldMetadata :=
  let '(ename, ty) := element in
  {| name := or_else ename "unknown";
     type := getTypeString ty;
     isOptional := isOptionalType ty;
     isArray := isArrayType ty;
     displayName := formatDisplayName (or_else ename "unknown");
     inputType := inferInputType (getTypeString ty) ename;
     validation := Some (generateValidation (getTypeString ty) ename);
     enumValues := extractEnumValues ty;
     _enumConstructor := None |}.

(** analyzeProductType (lines 38-57) *)
Definition analyzeProductType (elements : list (string * AlgebraicType))
  : list FieldMetadata :=
  map productField elements.

(** analyzeSumType (lines 59-76) *)
Definition analyzeSumType (variants : list (string * option AlgebraicType))
  (name : string) : list FieldMetadata :=
  [ {| name := or_else name "variant";
       type := "enum";
       isOptional := false;
       isArray := false;
       displayName := formatDisplayName (or_else name "variant");
       inputType := select;
       enumValues := Some (map fst variants);
       validation := Some (mkValidation (Some true) None None None);
       _enumConstructor := None |} ].

(** createFieldFromPrimitive (lines 78-93) *)
Definition createFieldFromPrimitive (t : AlgebraicType) (name : string)
  : FieldMetadata :=
  let typeString := getTypeString t in
  {| name := or_else name "value";
     type := typeString;
     isOptional := false;
     isArray := false;
     displayName := formatDisplayName (or_else name "value");
     inputType := inferInputType typeString name;
     validation := Some (generateValidation typeString name);
     enumValues := None;
     _enumConstructor := None |}.

(** An export of the generated module, as far as the introspection looks at
    it: whether [typeof] says function or object, its members, what calling
    its [getTypeScriptAlgebraicType] does when it has one, and the own
    property names of its [prototype] when it has one. *)
Inductive ExportKind : Type := KFunction | KObject | KOther.

Inductive AccessorResult : Type :=
| Returns (t : AlgebraicType)
| Raises (e : JSError).

Record Export : Type := mkExport {
  exp_kind : ExportKind;
  exp_members : list (string * Member);
  exp_accessor : option AccessorResult;
  exp_prototype : option (list (string * JSValue));
}.

Definition is_function_or_object (e : Export) : bool :=
  match exp_kind e with KFunction | KObject => true | KOther => false end.

(** [item[k] !== undefined] *)
Definition has_member (e : Export) (k : string) : bool :=
  match assoc k (exp_members e) with
  | Some (MemberValue VUndefined) | None => false
  | Some _ => true
  end.

(** [typeCache]: analysed field lists by cache key. *)
Abbreviation Cache := (gmap string (list FieldMetadata)).

Section WithModule.

(** The value of [import * as GeneratedModule from "@/generated"]: the
    exported names in [Object.keys] order.  The bindings are produced by the
    SpacetimeDB generator and are not part of the sources. *)
Variable GeneratedModule : list (string * Export).

(** The cache key.  [safeStringify] (utils/serialization.ts) delegates to
    the flatted package, so the text it produces is left open. *)
Variable safeStringify : AlgebraicType -> string.

(** findEnumConstructor (lines 267-304): the first export that has a member
    for some enum value and a member for the first one; [None] is null. *)
Definition findEnumConstructor (fieldName : string) (enumValues : list string)
  : option EnumCtor :=
  let possibleEnums :=
    List.filter (fun item =>
              is_function_or_object (snd item)
              && existsb (has_member (snd item)) enumValues)
           GeneratedModule in
  let testValue := match enumValues with v :: _ => v | [] => "undefined" end in
  match List.find (fun item => has_member (snd item) testValue) possibleEnums with
  | Some (n, e) => Some (mkEnumCtor n (exp_members e))
  | None => None
  end.

(** enhanceEnumField (lines 256-265) *)
Definition enhanceEnumField (field : FieldMetadata) : FieldMetadata :=
  match enumValues field with
  | Some vs =>
      if String.eqb (type field) "enum" then
        {| name := name field; type := type field;
           isOptional := isOptional field; isArray := isArray field;
           enumValues := enumValues field; displayName := displayName field;
           inputType := inputType field; validation := validation field;
           _enumConstructor := Some (findEnumConstructor (name field) vs) |}
      else field
  | None => field
  end.

(** The body of analyzeAlgebraicType below the cache lookup. *)
Definition analyzeFresh (t : AlgebraicType) (name : string)
  : list FieldMetadata :=
  let fields :=
    match t with
    | Product elements => analyzeProductType elements
    | Sum variants => analyzeSumType variants name
    | _ => [createFieldFromPrimitive t name]
    end in
  map enhanceEnumField fields.

(** analyzeAlgebraicType (lines 14-36), with [typeCache] passed in and out. *)
Definition analyzeAlgebraicType (typeCache : Cache) (t : AlgebraicType)
  (name : string) : list FieldMetadata * Cache :=
  let cacheKey := safeStringify t in
  match typeCache !! cacheKey with
  | Some fields => (fields, typeCache)
  | None =>
      let fields := analyzeFresh t name in
      (fields, <[cacheKey := fields]> typeCache)
  end.

(** A run of analyzer calls, each on the cache the previous one left. *)
Fixpoint analyzeEach (typeCache : Cache) (calls : list (AlgebraicType * string))
  : Cache :=
  match calls with
  | [] => typeCache
  | (t, name) :: rest =>
      analyzeEach (snd (analyzeAlgebraicType typeCache t name)) rest
  end.

End WithModule.

(** A structural signature in the style of a JSON rendering, for running
    the analyzer on concrete inputs. *)
Fixpoint signature (t : AlgebraicType) : string :=
  (match t with
   | Primitive k => "{prim:" ++ primString k ++ "}"
   | Special k => "{special:" ++ specialString k ++ "}"
   | Array e => "{array:" ++ signature e ++ "}"
   | Map k v => "{map:[" ++ signature k ++ "," ++ signature v ++ "]}"
   | Product elements =>
       "{product:[" ++
       (fix go (l : list (string * AlgebraicType)) : string :=
          match l with
          | nil => ""
          | (n, ty) :: r => "(" ++ n ++ ":" ++ signature ty ++ ")" ++ go r
          end) elements ++ "]}"
   | Sum variants =>
       "{sum:[" ++
       (fix go (l : list (string * option AlgebraicType)) : string :=
          match l with
          | nil => ""
          | (n, Some ty) :: r => "(" ++ n ++ ":" ++ signature ty ++ ")" ++ go r
          | (n, None) :: r => "(" ++ n ++ ")" ++ go r
          end) variants ++ "]}"
   end)%string.

End Analyzer.

(* ===================================================================== *)
(** ** utils/introspection: categorization.ts, description-generator.ts
       (DescriptionGenerator and SpacetimeIntrospector), module-discovery.ts *)
(* ===================================================================== *)

Module Introspector.
Import Text JS Types Analyzer.

(** *** categorization.ts *)

Definition CATEGORY_PATTERNS : list (string * list string) :=
  [ ("User Management",
     ["user"; "profile"; "account"; "identity"; "auth"; "login"; "register"; "signup"; "signin"; "credential"; "member"; "player"]);
    ("Room & Sessions",
     ["room"; "session"; "lobby"; "channel"; "group"; "party"; "match"; "game"; "instance"; "server"; "join"; "leave"; "enter"; "exit"]);
    ("Content & Media",
     ["block"; "item"; "asset"; "media"; "file"; "image"; "document"; "content"; "post"; "message"; "comment"; "data"]);
    ("Financial",
     ["currency"; "money"; "coin"; "token"; "price"; "cost"; "payment"; "transaction"; "wallet"; "balance"; "revenue"; "earning"]);
    ("Configuration",
     ["config"; "setting"; "preference"; "option"; "template"; "schema"; "rule"; "policy"; "parameter"; "default"]);
    ("Analytics",
     ["stat"; "metric"; "analytics"; "report"; "log"; "event"; "tracking"; "monitor"; "performance"; "usage"; "activity"]);
    ("System",
     ["init"; "setup"; "install"; "deploy"; "system"; "admin"; "manage"; "control"; "process"; "service"; "daemon"]);
    ("Security",
     ["permission"; "role"; "access"; "security"; "auth"; "token"; "secret"; "key"; "encrypt"; "decrypt"; "hash"]) ].

Definition ICON_MAP : list (string * string) :=
  [ ("user", "Users");
    ("profile", "Users");
    ("account", "Users");
    ("member", "Users");
    ("player", "Users");
    ("identity", "Users");
    ("auth", "Shield");
    ("login", "Shield");
    ("register", "Users");
    ("room", "Activity");
    ("session", "Activity");
    ("lobby", "Activity");
    ("channel", "MessageSquare");
    ("group", "Users");
    ("party", "Users");
    ("match", "Trophy");
    ("game", "Trophy");
    ("block", "Grid");
    ("item", "Package");
    ("asset", "Package");
    ("media", "Image");
    ("file", "File");
    ("document", "File");
    ("content", "File");
    ("post", "MessageSquare");
    ("message", "MessageSquare");
    ("comment", "MessageSquare");
    ("currency", "Coins");
    ("money", "DollarSign");
    ("coin", "Coins");
    ("token", "Coins");
    ("price", "DollarSign");
    ("cost", "DollarSign");
    ("payment", "DollarSign");
    ("wallet", "Wallet");
    ("balance", "Wallet");
    ("revenue", "BarChart3");
    ("config", "Settings");
    ("setting", "Settings");
    ("template", "Package");
    ("rule", "Settings");
    ("policy", "Shield");
    ("parameter", "Settings");
    ("stat", "BarChart3");
    ("metric", "BarChart3");
    ("analytics", "BarChart3");
    ("report", "BarChart3");
    ("log", "File");
    ("event", "Zap");
    ("tracking", "BarChart3");
    ("init", "Settings");
    ("setup", "Settings");
    ("system", "Database");
    ("admin", "Shield");
    ("process", "Zap");
    ("service", "Database");
    ("time", "Clock");
    ("date", "Calendar");
    ("created", "Calendar");
    ("updated", "Calendar");
    ("email", "Mail");
    ("mail", "Mail");
    ("notification", "Bell");
    ("alert", "Bell");
    ("online", "Globe");
    ("active", "Zap");
    ("status", "Flag");
    ("state", "Flag");
    ("default", "Database") ].

(** categorizeItem (lines 232-242) *)
Definition categorizeItem (name : string) : string :=
  let lowerName := toLowerCase name in
  match List.find (fun cp => existsb (includes lowerName) (snd cp))
          CATEGORY_PATTERNS with
  | Some cp => fst cp
  | None => "Other"
  end.

(** getIconForItem (lines 244-254); the fallback is [ICON_MAP.default]. *)
Definition getIconForItem (name : string) : string :=
  let lowerName := toLowerCase name in
  match List.find (fun kv => includes lowerName (fst kv)) ICON_MAP with
  | Some kv => snd kv
  | None => "Database"
  end.

(** *** description-generator.ts *)

Definition first_matching (table : list (string * list string))
  (name fallback : string) : string :=
  match List.find (fun e => existsb (includes name) (snd e)) table with
  | Some e => fst e
  | None => fallback
  end.

Definition actionPatterns : list (string * list string) :=
  [ ("Create", ["create"; "add"; "register"]);
    ("Update", ["update"; "modify"; "edit"]);
    ("Delete", ["delete"; "remove"; "destroy"]);
    ("Retrieve", ["get"; "fetch"; "retrieve"]);
    ("Join", ["join"; "connect"; "attach"]);
    ("Leave", ["leave"; "disconnect"; "detach"]);
    ("Open", ["open"; "unlock"; "activate"]);
    ("Close", ["close"; "lock"; "deactivate"]);
    ("Start", ["start"; "begin"; "init"]);
    ("Stop", ["stop"; "end"; "finish"]);
    ("Send", ["send"; "post"; "publish"]);
    ("Generate", ["generate"; "produce"; "build"]) ].

(** inferAction (lines 39-64) *)
Definition inferAction (reducerName : string) : string :=
  first_matching actionPatterns (toLowerCase reducerName) "Execute".

Definition targetPatterns : list (string * list string) :=
  [ ("user", ["user"; "player"; "member"]);
    ("room", ["room"; "session"; "lobby"]);
    ("block", ["block"; "item"; "asset"]);
    ("message", ["message"; "post"; "comment"]);
    ("configuration", ["config"; "setting"; "preference"]);
    ("statistics", ["stat"; "metric"; "analytics"]) ].

(** [s.split(sep)] for a one-character separator *)
Fixpoint split_char (sep : ascii) (cur : string) (s : string) : list string :=
  match s with
  | EmptyString => [rev_string "" cur]
  | String c r =>
      if Ascii.eqb c sep then rev_string "" cur :: split_char sep "" r
      else split_char sep (String c cur) r
  end.

(** inferTarget (lines 66-86) *)
Definition inferTarget (reducerName : string) : string :=
  let name := toLowerCase reducerName in
  match List.find (fun e => existsb (includes name) (snd e)) targetPatterns with
  | Some e => fst e
  | None =>
      let parts := split_char "_"%char "" name in
      if (1 <? length parts)%nat then List.last parts "" else "operation"
  end.

Definition nat_to_string (n : nat) : string := Z_to_string (Z.of_nat n).

(** generateTableDescription (lines 5-12) *)
Definition generateTableDescription (tableName : string)
  (fields : list FieldMetadata) : string :=
  let category := categorizeItem tableName in
  let fieldCount := length fields in
  let fieldText := if (fieldCount =? 1)%nat then "field" else "fields" in
  let cleanName :=
    map_chars (fun c => if Ascii.eqb c "_"%char then " "%char else c) tableName in
  (category ++ " table with " ++ nat_to_string fieldCount ++ " " ++ fieldText
   ++ ". Stores " ++ cleanName ++ " related data.")%string.

(** generateReducerDescription (lines 14-37) *)
Definition generateReducerDescription (reducerName : string)
  (fields : list FieldMetadata) : string :=
  let action := inferAction reducerName in
  let target := inferTarget reducerName in
  match fields with
  | [] => (action ++ " " ++ target ++ " operation with no parameters.")%string
  | f0 :: _ =>
      let primaryField :=
        match List.find (fun f => includes (name f) "id" || includes (name f) "name")
                fields with
        | Some f => f
        | None => f0
        end in
      let additionalParams :=
        (if (1 <? length fields)%nat
         then " and " ++ nat_to_string (length fields - 1) ++ " other parameter"
              ++ (if (2 <? length fields)%nat then "s" else "")
         else "")%string in
      (action ++ " " ++ target ++ " operation. Requires "
       ++ toLowerCase (displayName primaryField) ++ additionalParams ++ ".")%string
  end.

(** *** SpacetimeIntrospector: the private helpers *)

(** inferPrimaryKey (lines 184-189) *)
Definition inferPrimaryKey (fields : list FieldMetadata) : string :=
  match List.find (fun f => String.eqb (name f) "id" || endsWith (name f) "_id"
                            || String.eqb (name f) "identity") fields with
  | Some idField => name idField
  | None => match fields with f0 :: _ => name f0 | [] => "id" end
  end.

Definition actionsByType : list (string * list string) :=
  [ ("user", ["ban"; "promote"]); ("player", ["ban"; "promote"]);
    ("room", ["close"; "moderate"]); ("session", ["close"; "moderate"]);
    ("config", ["edit"; "reset"]); ("setting", ["edit"; "reset"]) ].

(** inferTableActions (lines 191-215) *)
Definition inferTableActions (tableName : string) (fields : list FieldMetadata)
  : list string :=
  let actions :=
    (["view"; "export"]
     ++ (if existsb (fun f => includes (name f) "id") fields
         then ["search"; "filter"] else []))%list in
  match List.find (fun e => includes tableName (fst e)) actionsByType with
  | Some e => (actions ++ snd e)%list
  | None => actions
  end.

Definition destructivePatterns : list string :=
  [ "delete"; "remove"; "destroy"; "clear"; "reset"; "purge"; "ban"; "kick";
    "terminate"; "cancel"; "abort" ].

(** isDestructiveReducer (lines 217-235) *)
Definition isDestructiveReducer (reducerName : string) : bool :=
  existsb (includes (toLowerCase reducerName)) destructivePatterns.

Definition colorPatterns : list (string * list string) :=
  [ ("green", ["create"; "add"; "register"]);
    ("blue", ["update"; "modify"; "edit"]);
    ("emerald", ["join"; "connect"]);
    ("orange", ["leave"; "disconnect"]);
    ("purple", ["open"; "unlock"]);
    ("indigo", ["generate"; "produce"]) ].

(** getReducerColor (lines 237-258) *)
Definition getReducerColor (reducerName : string) (isDestructive : bool) : string :=
  if isDestructive then "red"
  else first_matching colorPatterns (toLowerCase reducerName) "gray".

(** toSnakeCase (lines 260-265):
    [str.replace(/([A-Z])/g, "_$1").toLowerCase().replace(/^_/, "")] *)
Fixpoint underscore_capitals (s : string) : string :=
  match s with
  | EmptyString => EmptyString
  | String c r =>
      if is_upper c then String "_"%char (String c (underscore_capitals r))
      else String c (underscore_capitals r)
  end.

Definition toSnakeCase (str : string) : string :=
  match toLowerCase (underscore_capitals str) with
  | String c r => if Ascii.eqb c "_"%char then r else String c r
  | EmptyString => EmptyString
  end.

(** [arr.sort(cmp)].  The engine's sort is stable; it is written here as
    the stable insertion sort, with which every stable sort agrees when
    [cmp] is a total preorder. *)
Fixpoint insert_by {A} (cmp : A -> A -> Z) (x : A) (l : list A) : list A :=
  match l with
  | [] => [x]
  | y :: r => if (cmp x y <? 0)%Z then x :: l else y :: insert_by cmp x r
  end.

Definition sort_by {A} (cmp : A -> A -> Z) (l : list A) : list A :=
  fold_left (fun acc x => insert_by cmp x acc) l [].

(** *** module-discovery.ts *)

Fixpoint drop_chars (n : nat) (s : string) : string :=
  match n, s with
  | S k, String _ r => drop_chars k r
  | _, _ => s
  end.

(** [s.replace(pat, "")] with a string pattern: the first occurrence goes. *)
Fixpoint remove_first (s pat : string) : string :=
  if String.prefix pat s then drop_chars (String.length pat) s
  else match s with
       | EmptyString => EmptyString
       | String c r => String c (remove_first r pat)
       end.

Section WithModule.

Variable GeneratedModule : list (string * Export).
Variable safeStringify : AlgebraicType -> string.

(** [String.prototype.localeCompare] of the host locale. *)
Variable localeCompare : string -> string -> Z.

(** ExampleGenerator.generateExampleArgs draws from Math.random and faker;
    [Draws] stands for the random draws one call consumes. *)
Variable Draws : Type.
Variable generateExampleArgs : Draws -> list FieldMetadata -> JSValue.

Definition lookupExport (n : string) : option Export := assoc n GeneratedModule.

(** [type && typeof type.getTypeScriptAlgebraicType === "function"] *)
Definition hasTypeAccessor (typeName : string) : bool :=
  match lookupExport typeName with
  | Some e => bool_decide (is_Some (exp_accessor e))
  | None => false
  end.

(** findTableHandles (unnamed/part_004, lines 107-113) *)
Definition findTableHandles : list string :=
  map fst
    (List.filter (fun kv => endsWith (fst kv) "TableHandle"
                       && match exp_kind (snd kv) with KFunction => true | _ => false end)
       GeneratedModule).

(** findTableTypes (lines 115-122) *)
Definition findTableTypes : list string :=
  List.filter hasTypeAccessor
    (map (fun handle => remove_first handle "TableHandle") findTableHandles).

Definition methodNameToTypeName (methodName : string) : string :=
  capitalize methodName.

(** findReducerTypes (lines 124-145) *)
Definition findReducerTypes : list string :=
  match lookupExport "RemoteReducers" with
  | Some remoteReducers =>
      match exp_prototype remoteReducers with
      | Some proto =>
          let methodNames :=
            map fst
              (List.filter (fun nv =>
                         negb (String.eqb (fst nv) "constructor")
                         && String.eqb (typeof (snd nv)) "function"
                         && negb (startsWith (fst nv) "on")
                         && negb (startsWith (fst nv) "removeOn"))
                 proto) in
          List.filter hasTypeAccessor (map methodNameToTypeName methodNames)
      | None => []
      end
  | None => []
  end.

(** *** SpacetimeIntrospector *)

(** One turn of the [for] loop of discoverTables: [None] when the symbol is
    passed over ([continue], or the [catch] after the accessor raised). *)
Definition introspectTable (typeCache : Cache) (tableName : string)
  : option TableMetadata * Cache :=
  match lookupExport tableName with
  | Some tableType =>
      match exp_accessor tableType with
      | Some (Returns algebraicType) =>
          let '(fields, typeCache') :=
            analyzeAlgebraicType GeneratedModule safeStringify typeCache
              algebraicType tableName in
          (Some {| t_name := toSnakeCase tableName;
                   t_displayName := formatDisplayName tableName;
                   t_primaryKey := inferPrimaryKey fields;
                   t_fields := fields;
                   t_icon := getIconForItem tableName;
                   t_category := categorizeItem tableName;
                   t_description := generateTableDescription tableName fields;
                   t_actions := inferTableActions tableName fields |},
           typeCache')
      | Some (Raises _) => (None, typeCache)
      | None => (None, typeCache)
      end
  | None => (None, typeCache)
  end.

Fixpoint collectTables (typeCache : Cache) (tableTypes : list string)
  (tables : list TableMetadata) : list TableMetadata * Cache :=
  match tableTypes with
  | [] => (tables, typeCache)
  | tableName :: rest =>
      let '(entry, typeCache') := introspectTable typeCache tableName in
      collectTables typeCache' rest
        (match entry with Some e => tables ++ [e] | None => tables end)
  end.

Definition compareTables (a b : TableMetadata) : Z :=
  localeCompare (t_displayName a) (t_displayName b).

(** discoverTables (lines 101-137) *)
Definition discoverTables (typeCache : Cache) : list TableMetadata * Cache :=
  let '(tables, typeCache') := collectTables typeCache findTableTypes [] in
  (sort_by compareTables tables, typeCache').

Definition introspectReducer (typeCache : Cache) (draws : Draws)
  (reducerName : string) : option ReducerMetadata * Cache :=
  match lookupExport reducerName with
  | Some reducerType =>
      match exp_accessor reducerType with
      | Some (Returns algebraicType) =>
          let '(fields, typeCache') :=
            analyzeAlgebraicType GeneratedModule safeStringify typeCache
              algebraicType reducerName in
          let isDestructive := isDestructiveReducer reducerName in
          (Some {| r_name := toSnakeCase reducerName;
                   r_displayName := formatDisplayName reducerName;
                   r_description := generateReducerDescription reducerName fields;
                   r_category := categorizeItem reducerName;
                   r_fields := fields;
                   r_icon := getIconForItem reducerName;
                   r_color := getReducerColor reducerName isDestructive;
                   r_isDestructive := isDestructive;
                   r_exampleArgs := generateExampleArgs draws fields |},
           typeCache')
      | Some (Raises _) => (None, typeCache)
      | None => (None, typeCache)
      end
  | None => (None, typeCache)
  end.

(** The loop of discoverReducers; [draws i] is what the example generator
    draws for the [i]-th symbol. *)
Fixpoint collectReducers (typeCache : Cache) (draws : nat -> Draws) (i : nat)
  (reducerTypes : list string) (reducers : list ReducerMetadata)
  : list ReducerMetadata * Cache :=
  match reducerTypes with
  | [] => (reducers, typeCache)
  | reducerName :: rest =>
      let '(entry, typeCache') := introspectReducer typeCache (draws i) reducerName in
      collectReducers typeCache' draws (S i) rest
        (match entry with Some e => reducers ++ [e] | None => reducers end)
  end.

Definition compareReducers (a b : ReducerMetadata) : Z :=
  if negb (String.eqb (r_category a) (r_category b))
  then localeCompare (r_category a) (r_category b)
  else localeCompare (r_displayName a) (r_displayName b).

(** discoverReducers (lines 139-182) *)
Definition discoverReducers (typeCache : Cache) (draws : nat -> Draws)
  : list ReducerMetadata * Cache :=
  let '(reducers, typeCache') :=
    collectReducers typeCache draws 0 findReducerTypes [] in
  (sort_by compareReducers reducers, typeCache').

End WithModule.

(** What of a catalog entry is fixed by the symbol it was made from: the
    name and the two sort keys. *)
Definition sameTable (a b : TableMetadata) : Prop :=
  t_name a = t_name b /\ t_displayName a = t_displayName b
  /\ t_category a = t_category b.

Definition sameReducer (a b : ReducerMetadata) : Prop :=
  r_name a = r_name b /\ r_displayName a = r_displayName b
  /\ r_category a = r_category b.

End Introspector.

(* ===================================================================== *)
(** ** hooks/use-spacetime-db.ts: connect / disconnect *)
(* ===================================================================== *)

Module Connection.
Import JS.

(** config/spacetime.ts.  The schema bounds [maxRetries] to a number
    between 1 and 10 without asking for an integer; this record describes
    the integer budgets only, and a fractional one (2.5 lets attempt 3 be
    built) is not a value of it.  The multiplier and the settle delay are
    rationals, with the rounding of doubles left aside. *)
Record Config : Type := mkConfig {
  maxRetries : Z;
  subscriptionDelay : Q;
  retryBackoffMultiplier : Q;
}.

Definition defaultConfig : Config := mkConfig 3 500 2.

(** What a pending [setTimeout] callback will do.  A retry calls the
    [connect] of the render it was created in, so it carries that closure's
    [isConnected]. *)
Inductive Task : Type :=
| RetryConnect (retryCount : Z) (isConnected : bool)
| ClearIntentional
| SetupSubscriptions (sid : nat).

Record Timer : Type := mkTimer {
  due : Q;
  task : Task;
}.

(** One [DbConnection.builder()...build()]: the callbacks registered on it
    close over the [retryCount] of the call that built it and over that
    call's [connect]. *)
Record Session : Type := mkSession {
  s_retryCount : Z;
  s_isConnected : bool;
  s_token : option string;   (* what [builder.withToken] was given, if called *)
}.

Record State : Type := mkState {
  (* useConnectionState: connectionStateRef.current *)
  isConnecting : bool;
  isIntentionalDisconnect : bool;
  (* the redux slice *)
  store : gmap string JSValue;
  (* localStorage["spacetimedb_token"] *)
  token : option string;
  (* the event loop *)
  now : Q;
  timers : list Timer;
  (* every session built so far, oldest first *)
  sessions : list Session;
  (* sessions closed through connection.disconnect() *)
  closed : list nat;
  (* sessions handed to setupSubscriptions *)
  subscribed : list nat;
}.

Definition initial : State :=
  mkState false false Slice.initialState None 0 [] [] [] [].

Definition set_flags (st : State) (connecting intentional : bool) : State :=
  mkState connecting intentional (store st) (token st) (now st) (timers st)
          (sessions st) (closed st) (subscribed st).

Definition set_store (st : State) (s : gmap string JSValue) : State :=
  mkState (isConnecting st) (isIntentionalDisconnect st) s (token st) (now st)
          (timers st) (sessions st) (closed st) (subscribed st).

Definition set_token (st : State) (t : option string) : State :=
  mkState (isConnecting st) (isIntentionalDisconnect st) (store st) t (now st)
          (timers st) (sessions st) (closed st) (subscribed st).

Definition set_now (st : State) (t : Q) : State :=
  mkState (isConnecting st) (isIntentionalDisconnect st) (store st) (token st) t
          (timers st) (sessions st) (closed st) (subscribed st).

Definition set_timers (st : State) (ts : list Timer) : State :=
  mkState (isConnecting st) (isIntentionalDisconnect st) (store st) (token st)
          (now st) ts (sessions st) (closed st) (subscribed st).

Definition add_session (st : State) (s : Session) : State :=
  mkState (isConnecting st) (isIntentionalDisconnect st) (store st) (token st)
          (now st) (timers st) (sessions st ++ [s]) (closed st) (subscribed st).

Definition add_closed (st : State) (sid : nat) : State :=
  mkState (isConnecting st) (isIntentionalDisconnect st) (store st) (token st)
          (now st) (timers st) (sessions st) (closed st ++ [sid]) (subscribed st).

Definition add_subscribed (st : State) (sid : nat) : State :=
  mkState (isConnecting st) (isIntentionalDisconnect st) (store st) (token st)
          (now st) (timers st) (sessions st) (closed st) (subscribed st ++ [sid]).

(** [setTimeout(task, delay)] *)
Definition setTimeout (st : State) (t : Task) (delay : Q) : State :=
  set_timers st (timers st ++ [mkTimer (now st + delay)%Q t]).

Definition dispatch (st : State) (f : gmap string JSValue -> gmap string JSValue)
  : State :=
  set_store st (f (store st)).

Definition status (st : State) : JSValue := Slice.read (store st) "connectionStatus".

(** [isConnected] as a render computes it: [connectionStatus === "connected"]. *)
Definition isConnectedNow (st : State) : bool :=
  match status st with
  | VStr s => String.eqb s "connected"
  | _ => false
  end.

(** The connection object kept in the store for session [sid]. *)
Definition connObject (sid : nat) : JSValue :=
  VObj [("session", VNum (NumInt (Z.of_nat sid)))].

Definition connSession (v : JSValue) : option nat :=
  match v with
  | VObj [("session", VNum (NumInt z))] => Some (Z.to_nat z)
  | _ => None
  end.

(** [spacetimeConfig.retryBackoffMultiplier * 1000 * (retryCount + 1)] *)
Definition retryDelay (cfg : Config) (retryCount : Z) : Q :=
  (retryBackoffMultiplier cfg * 1000 * inject_Z (retryCount + 1))%Q.

Definition failedAfter (cfg : Config) (msg : string) : string :=
  ("Connection failed after " ++ Z_to_string (maxRetries cfg) ++ " attempts: "
   ++ msg)%string.

(** connect (lines 167-269), up to the [await]: the entry guard, the flag
    reset and the build of a new session.  [isConnected] is the value the
    calling closure captured. *)
Definition connect (st : State) (retryCount : Z) (isConnected : bool) : State :=
  if isConnecting st || isConnected then st
  else
    let st := set_flags st true false in
    let st := dispatch st (fun s => Slice.setConnectionStatus s "connecting") in
    let st := dispatch st Slice.clearError in
    let stored := match token st with
                  | Some t => if truthy (VStr t) then Some t else None
                  | None => None
                  end in
    add_session st (mkSession retryCount isConnected stored).

(** The [onConnect] callback of a session (lines 189-204). *)
Definition onConnect (cfg : Config) (st : State) (sid : nat)
  (identityHex receivedToken : string) : State :=
  let st := if truthy (VStr receivedToken)
            then set_token st (Some receivedToken) else st in
  let st := dispatch st (fun s => Slice.setIdentity s identityHex) in
  let st := dispatch st (fun s => Slice.setConnectionStatus s "connected") in
  let st := dispatch st (fun s => Slice.setConnection s (connObject sid)) in
  let st := set_flags st false (isIntentionalDisconnect st) in
  setTimeout st (SetupSubscriptions sid) (subscriptionDelay cfg).

(** The [onDisconnect] callback (lines 205-210). *)
Definition onDisconnect (st : State) : State :=
  let st := set_flags st false (isIntentionalDisconnect st) in
  let st := dispatch st (fun s => Slice.setConnectionStatus s "disconnected") in
  let st := dispatch st (fun s => Slice.setConnection s VNull) in
  dispatch st Slice.clearAllTables.

(** The [onConnectError] callback of the session built by
    [connect(retryCount)] (lines 211-237). *)
Definition onConnectError (cfg : Config) (st : State) (s : Session)
  (message : string) : State :=
  if negb (isIntentionalDisconnect st) then
    let st := set_flags st false (isIntentionalDisconnect st) in
    let st := dispatch st (fun x => Slice.setError x message) in
    let st := dispatch st (fun x => Slice.setConnectionStatus x "error") in
    if (s_retryCount s <? maxRetries cfg)%Z then
      setTimeout st (RetryConnect (s_retryCount s + 1) (s_isConnected s))
        (retryDelay cfg (s_retryCount s))
    else
      dispatch st (fun x => Slice.setError x (failedAfter cfg message))
  else
    let st := set_flags st false false in
    dispatch st (fun x => Slice.setConnectionStatus x "disconnected").

(** The [catch] around the build (lines 239-266); [message] is [None] when
    what was thrown is not an [Error]. *)
Definition onBuildFailure (cfg : Config) (st : State) (s : Session)
  (message : option string) : State :=
  if negb (isIntentionalDisconnect st) then
    let st := set_flags st false (isIntentionalDisconnect st) in
    if (s_retryCount s <? maxRetries cfg)%Z then
      setTimeout st (RetryConnect (s_retryCount s + 1) (s_isConnected s))
        (retryDelay cfg (s_retryCount s))
    else
      let errorMessage := default "Unknown connection error" message in
      let st := dispatch st (fun x => Slice.setError x (failedAfter cfg errorMessage)) in
      dispatch st (fun x => Slice.setConnectionStatus x "error")
  else
    let st := set_flags st false false in
    dispatch st (fun x => Slice.setConnectionStatus x "disconnected").

(** disconnect (lines 271-285); [connection] is the one in the store. *)
Definition disconnect (st : State) : State :=
  let connection := Slice.read (store st) "connection" in
  if truthy connection then
    let st := set_flags st false true in
    let st := match connSession connection with
              | Some sid => add_closed st sid
              | None => st
              end in
    let st := dispatch st (fun s => Slice.setConnectionStatus s "disconnected") in
    let st := dispatch st (fun s => Slice.setConnection s VNull) in
    let st := dispatch st Slice.clearAllTables in
    setTimeout st ClearIntentional 1000
  else st.

(** Running the callback of a timer to its end.  For [SetupSubscriptions]
    that is the [try] block of setupSubscriptions (lines 136-155) when
    nothing in it throws: the subscription is requested with its two
    callbacks and the reducer handlers are attached. *)
Definition runTask (st : State) (t : Task) : State :=
  match t with
  | RetryConnect n captured => connect st n captured
  | ClearIntentional => set_flags st (isConnecting st) false
  | SetupSubscriptions sid => add_subscribed st sid
  end.

(** The [catch] of setupSubscriptions (lines 156-162), entered when the
    subscription builder or setupReducerHandlers throws; [message] is
    [None] when what was thrown is not an [Error].  The connecting flag of
    the ref is not touched. *)
Definition onSetupFailure (st : State) (message : option string) : State :=
  let errorMessage :=
    ("Failed to setup subscriptions: " ++ default "Unknown error" message)%string in
  let st := dispatch st (fun x => Slice.setError x errorMessage) in
  dispatch st (fun x => Slice.setConnectionStatus x "error").

(** The [onError] callback of the subscription (lines 146-152); [message]
    is [error?.message].  The connecting flag of the ref is not touched. *)
Definition onSubscriptionError (st : State) (message : option string) : State :=
  let errorMessage :=
    ("Subscription failed: " ++
     match message with
     | Some m => if truthy (VStr m) then m else "Unknown error"
     | None => "Unknown error"
     end)%string in
  let st := dispatch st (fun x => Slice.setError x errorMessage) in
  dispatch st (fun x => Slice.setConnectionStatus x "error").

(** *** The event loop *)

Inductive Event : Type :=
| CallConnect               (* the UI calls connect() of the current render *)
| CallDisconnect                                    (* the UI calls disconnect() *)
| HandshakeOk (sid : nat) (identityHex receivedToken : string)
| HandshakeError (sid : nat) (message : string)
| BuildFailure (sid : nat) (message : option string)
| SessionClosed (sid : nat)
| Elapse (dt : Q)                                   (* time passes *)
| Fire                                              (* the next due timer runs *)
| SetupThrows (message : option string)
    (* the next due timer is a subscription setup, and its body throws *)
| SubscriptionError (sid : nat) (message : option string).
    (* the subscription of a session reports an error *)

(** The first timer with the least due time, and the others in order. *)
Fixpoint next_timer (ts : list Timer) : option (Timer * list Timer) :=
  match ts with
  | [] => None
  | t :: r =>
      match next_timer r with
      | Some (m, r') =>
          if Qle_bool (due t) (due m) then Some (t, r) else Some (m, t :: r')
      | None => Some (t, [])
      end
  end.

(** One event; [None] when the event cannot happen in this state: a
    callback of a session that was never built or of a subscription that
    was never requested, time running past a due timer, or a timer
    running early. *)
Definition exec (cfg : Config) (st : State) (e : Event) : option State :=
  match e with
  | CallConnect => Some (connect st 0 (isConnectedNow st))
  | CallDisconnect => Some (disconnect st)
  | HandshakeOk sid i t =>
      match nth_error (sessions st) sid with
      | Some _ => Some (onConnect cfg st sid i t)
      | None => None
      end
  | HandshakeError sid m =>
      match nth_error (sessions st) sid with
      | Some s => Some (onConnectError cfg st s m)
      | None => None
      end
  | BuildFailure sid m =>
      match nth_error (sessions st) sid with
      | Some s => Some (onBuildFailure cfg st s m)
      | None => None
      end
  | SessionClosed sid =>
      match nth_error (sessions st) sid with
      | Some _ => Some (onDisconnect st)
      | None => None
      end
  | Elapse dt =>
      if Qle_bool 0 dt
         && forallb (fun t => Qle_bool (now st + dt) (due t)) (timers st)
      then Some (set_now st (now st + dt)%Q)
      else None
  | Fire =>
      match next_timer (timers st) with
      | Some (t, rest) =>
          if Qle_bool (due t) (now st)
          then Some (runTask (set_timers st rest) (task t))
          else None
      | None => None
      end
  | SetupThrows m =>
      match next_timer (timers st) with
      | Some (t, rest) =>
          if Qle_bool (due t) (now st) then
            match task t with
            | SetupSubscriptions sid =>
                Some (onSetupFailure (add_subscribed (set_timers st rest) sid) m)
            | _ => None
            end
          else None
      | None => None
      end
  | SubscriptionError sid m =>
      if existsb (Nat.eqb sid) (subscribed st)
      then Some (onSubscriptionError st m)
      else None
  end.

Fixpoint run (cfg : Config) (st : State) (es : list Event) : option State :=
  match es with
  | [] => Some st
  | e :: r =>
      match exec cfg st e with
      | Some st' => run cfg st' r
      | None => None
      end
  end.

(** *** Invariants of the event loop *)

(** The documented ranges give non-negative delays. *)
Definition sound_config (cfg : Config) : Prop :=
  (0 <= subscriptionDelay cfg)%Q /\ (0 <= retryBackoffMultiplier cfg)%Q.

Definition task_count_ok (t : Task) : Prop :=
  match t with
  | RetryConnect n _ => (0 <= n)%Z
  | _ => True
  end.

(** No pending timer is overdue, and attempt numbers are never negative. *)
(** What the traces below are judged by. *)
Definition observe (st : State) :=
  (isConnecting st, isIntentionalDisconnect st, status st, sessions st, closed st).

Definition punctual (st : State) : Prop :=
  Forall (fun t => (now st <= due t)%Q /\ task_count_ok (task t)) (timers st)
  /\ Forall (fun s => (0 <= s_retryCount s)%Z) (sessions st).

End Connection.

(* ===================================================================== *)
(** ** Sample schemas, catalogs, sessions and traces *)
(* ===================================================================== *)

Module Samples.
Import JS Types Analyzer ReducerCaller Slice Connection.

Definition optionOf (t : AlgebraicType) : AlgebraicType :=
  Sum [("some", Some t); ("none", Some (Product []))].

Definition colour : AlgebraicType := Sum [("Red", None); ("Green", None)].

Definition playerRow : AlgebraicType :=
  Product [("id", Primitive U32); ("nick_name", optionOf (Primitive String_));
           ("colour", optionOf colour)].

(** The catalog fields [a: u32, b: string (optional)] as the analyzer
    derives them. *)
Definition fieldsAB : list FieldMetadata :=
  analyzeProductType [("a", Primitive U32); ("b", optionOf (Primitive String_))].

Definition setAB : ReducerMetadata :=
  {| r_name := "set_ab"; r_displayName := "Set Ab";
     r_description := ""; r_category := "Other"; r_fields := fieldsAB;
     r_icon := "Database"; r_color := "gray"; r_isDestructive := false;
     r_exampleArgs := VObj [("a", VNum (NumInt 7)); ("b", VStr "x")] |}.

Definition setScore : ReducerMetadata :=
  {| r_name := "set_score"; r_displayName := "Set Score";
     r_description := ""; r_category := "Other";
     r_fields := analyzeProductType [("score", Primitive U64)];
     r_icon := "Database"; r_color := "gray"; r_isDestructive := false;
     r_exampleArgs := VObj [("score", VNum (NumInt 1))] |}.

(** A session whose reducer namespace has both methods, each accepting
    whatever it is given. *)
Definition openSession : ReducerCaller.Connection :=
  {| reducers := fun m =>
       if String.eqb m "setAb" || String.eqb m "setScore" then VFun else VUndefined;
     invoke := fun _ _ => Normal tt |}.

(** A session whose reducer namespace has no callable member. *)
Definition closedNamespace : ReducerCaller.Connection :=
  {| reducers := fun _ => VUndefined; invoke := fun _ _ => Normal tt |}.

(** A session whose reducer methods all throw when they are called. *)
Definition refusingSession : ReducerCaller.Connection :=
  {| reducers := fun _ => VFun; invoke := fun _ _ => Throw (Error "refused") |}.

Definition row (id : Z) (v : string) : JSValue :=
  VObj [("id", VNum (NumInt id)); ("v", VStr v)].

Definition userTable : gmap string JSValue :=
  setTableData initialState "user" [row 1 "a"; row 2 "b"].

Definition duplicateInsertThenDelete : list TableOp :=
  [OpInsert (row 1 "a"); OpInsert (row 1 "b"); OpDelete (VNum (NumInt 1))].

Definition keyedStream : list TableOp :=
  [OpInsert (row 2 "b"); OpUpdate (VNum (NumInt 1)) (row 1 "c");
   OpDelete (VNum (NumInt 2)); OpInsert (row 3 "d")].

(** A first attempt fails, the user connects by hand and succeeds,
    disconnects and connects again at once; the retry of the first attempt
    is still pending and comes due at 2010 ms. *)
Definition staleRetryTrace : list Event :=
  [ CallConnect; Elapse 10; HandshakeError 0 "refused";
    Elapse 100; CallConnect; Elapse 50; HandshakeOk 1 "c0ffee" "tok";
    Elapse 40; CallDisconnect; CallConnect;
    Elapse 50; HandshakeOk 2 "c0ffee" "tok";
    Elapse 410; Fire;            (* 660: subscriptions of session 1 *)
    Elapse 90; Fire;             (* 750: subscriptions of session 2 *)
    Elapse 450; Fire;            (* 1200: the flag's grace window ends *)
    Elapse 810; Fire ].          (* 2010: the retry of attempt 0 *)

(** The same without the second connect: the user stays disconnected. *)
Definition retryAfterDisconnectTrace : list Event :=
  [ CallConnect; Elapse 10; HandshakeError 0 "refused";
    Elapse 100; CallConnect; Elapse 50; HandshakeOk 1 "c0ffee" "tok";
    Elapse 40; CallDisconnect;
    Elapse 460; Fire; Elapse 540; Fire; Elapse 810; Fire ].

(** A generated module with two tables, one export whose type accessor
    raises, and a reducer namespace with two procedures among its event
    subscription methods. *)
Definition plainExport (accessor : option AccessorResult) : Export :=
  mkExport KFunction [] accessor None.

Definition sampleModule : list (string * Export) :=
  [ ("Player", plainExport (Some (Returns playerRow)));
    ("PlayerTableHandle", plainExport None);
    ("AuditLog", plainExport (Some (Returns (Product [("entry_id", Primitive U64)]))));
    ("AuditLogTableHandle", plainExport None);
    ("Broken", plainExport (Some (Raises (TypeError "no type"))));
    ("BrokenTableHandle", plainExport None);
    ("RemoteReducers",
     mkExport KFunction [] None
       (Some [("constructor", VFun); ("setAb", VFun); ("onSetAb", VFun);
              ("removeOnSetAb", VFun); ("deletePlayer", VFun)]));
    ("SetAb",
     plainExport (Some (Returns (Product [("a", Primitive U32);
                                          ("b", optionOf (Primitive String_))]))));
    ("DeletePlayer", plainExport (Some (Returns (Product [("id", Primitive U32)])))) ].

(** Code-unit order, standing in for the locale's collation. *)
Definition byteCompare (a b : string) : Z :=
  match String.compare a b with
  | Lt => (-1)%Z
  | Eq => 0%Z
  | Gt => 1%Z
  end.

Definition noExample (_ : unit) (_ : list FieldMetadata) : JSValue := VObj [].

Definition afterFirstError : Connection.State :=
  default initial
    (run defaultConfig initial [CallConnect; Elapse 10; HandshakeError 0 "refused"]).

End Samples.

(* ===================================================================== *)
(** ** utils/serialization.ts *)
(* ===================================================================== *)

Module Serialization.
Import Text JS.

Definition TIMESTAMP_KEY : string := "__timestamp_micros_since_unix_epoch__".

Definition is_undefined (v : JSValue) : bool :=
  match v with VUndefined => true | _ => false end.

(** [data[k]] on the own properties of an object. *)
Definition own (k : string) (props : list (string * JSValue)) : JSValue :=
  or_undefined (assoc k props).

(** An object with its own [toString] or [constructor] is not a plain
    record: what [data.toString()] and [data.constructor.name] give for it
    is not described. *)
Definition overrides_object_members (props : list (string * JSValue)) : bool :=
  negb (is_undefined (own "toString" props))
  || negb (is_undefined (own "constructor" props)).

(** [String(v)] and [v.toString()] agree on primitives other than null and
    undefined; what they give for a reference depends on members this
    fragment does not track. *)
Definition primitive_text (v : JSValue) : Completion string :=
  match v with
  | VArr _ | VObj _ | VFun => OutOfFragment "text of a reference"
  | _ => String_ v
  end.

(** [value.toString()] on a property value *)
Definition toString_method (v : JSValue) : Completion string :=
  match v with
  | VUndefined =>
      Throw (TypeError "Cannot read properties of undefined (reading 'toString')")
  | VNull =>
      Throw (TypeError "Cannot read properties of null (reading 'toString')")
  | _ => primitive_text v
  end.

(** *** [new Date(millis).toISOString()] *)

(** The civil date (year, month, day) of a day count from 1970-01-01 in
    the proleptic Gregorian calendar; years are counted from March in eras
    of 400 years. *)
Definition civil_from_days (days : Z) : Z * Z * Z :=
  let z := (days + 719468)%Z in
  let era := (z / 146097)%Z in
  let doe := (z - era * 146097)%Z in
  let yoe := ((doe - doe / 1460 + doe / 36524 - doe / 146096) / 365)%Z in
  let doy := (doe - (365 * yoe + yoe / 4 - yoe / 100))%Z in
  let mp := ((5 * doy + 2) / 153)%Z in
  let d := (doy - (153 * mp + 2) / 5 + 1)%Z in
  let m := (if mp <? 10 then mp + 3 else mp - 9)%Z in
  let y := (yoe + era * 400)%Z in
  ((if m <=? 2 then y + 1 else y)%Z, m, d).

Fixpoint zeros (n : nat) : string :=
  match n with
  | O => ""
  | S k => String "0"%char (zeros k)
  end.

(** A non-negative number in at least [width] digits. *)
Definition pad (width : nat) (z : Z) : string :=
  let s := Z_to_string z in
  (zeros (width - String.length s) ++ s)%string.

(** [new Date(millis).toISOString()] for a time value whose year has four
    digits; years before 0 and after 9999 print with a sign and six digits
    and are not described. *)
Definition toISOString (millis : Z) : string :=
  let days := (millis / 86400000)%Z in
  let ms := (millis mod 86400000)%Z in
  let '(y, m, d) := civil_from_days days in
  (pad 4 y ++ "-" ++ pad 2 m ++ "-" ++ pad 2 d ++ "T"
   ++ pad 2 (ms / 3600000) ++ ":" ++ pad 2 (ms / 60000 mod 60) ++ ":"
   ++ pad 2 (ms / 1000 mod 60) ++ "." ++ pad 3 (ms mod 1000) ++ "Z")%string.

(** Lines 22-28, for the value of the timestamp field: its text, the number
    the text reads as, the milliseconds, the ISO rendering.  A null
    field has no [toString].  [Number(micros)] is the integer itself up to
    2^53, and there [Math.floor(n / 1000)] is the floor of the exact
    quotient (the quotient stays below 2^44, where doubles are less than
    0.001 apart from one another) and the year has four digits.  From
    8.65 * 10^18 on the milliseconds exceed the 8.64 * 10^15 a [Date] can
    hold, and [toISOString] raises; in between, the rounding of doubles
    decides and the outcome is not described. *)
Definition timestampToISO (field : JSValue) : Completion JSValue :=
  micros <- toString_method field ;;
  n <- string_to_number micros ;;
  match n with
  | NumNaN => Throw (RangeError "Invalid time value")
  | NumInt z =>
      if (Z.abs z <=? 2 ^ 53)%Z
      then Normal (VStr (toISOString (z / 1000)))
      else if (8650000000000000000 <=? Z.abs z)%Z
      then Throw (RangeError "Invalid time value")
      else OutOfFragment "Math.floor(Number(micros) / 1000) beyond 2^53"
  end.

(** serializeForRedux (lines 5-53).  The values are primitives, arrays and
    objects given by their own properties: there is no [Date] among them,
    so [data instanceof Date] fails, and for a plain object [data.toString]
    is the inherited function and [data.constructor.name] is "Object", so
    the third test fails and the entries are mapped.  An object with a
    timestamp field is rendered as a date.  A function value carries no
    behaviour here: the call of a [toHexString] the object owns, and what
    an object with its own [toString] or [constructor] answers, leave the
    fragment, and so do instances of classes such as the SDK's Identity,
    whose methods are not own properties. *)
Fixpoint serializeForRedux (data : JSValue) : Completion JSValue :=
  match data with
  | VUndefined | VNull => Normal data
  | VBigInt z => Normal (VStr (Z_to_string z))
  | VArr elems =>
      l <- (fix go (l : list JSValue) : Completion (list JSValue) :=
              match l with
              | [] => Normal []
              | e :: r =>
                  e' <- serializeForRedux e ;;
                  r' <- go r ;; Normal (e' :: r')
              end) elems ;;
      Normal (VArr l)
  | VObj props =>
      if negb (is_undefined (own TIMESTAMP_KEY props))
      then timestampToISO (own TIMESTAMP_KEY props)
      else if String.eqb (typeof (own "toHexString" props)) "function"
      then OutOfFragment "data.toHexString()"
      else if overrides_object_members props
      then OutOfFragment "object with its own toString or constructor"
      else
        ps <- (fix go (l : list (string * JSValue))
                 : Completion (list (string * JSValue)) :=
                 match l with
                 | [] => Normal []
                 | (k, v) :: r =>
                     v' <- serializeForRedux v ;;
                     r' <- go r ;; Normal ((k, v') :: r')
                 end) props ;;
        Normal (VObj ps)
  | VBool _ | VNum _ | VStr _ | VFun => Normal data
  end.

(** The two loops of serializeForRedux by themselves: [data.map] over the
    elements of an array and the [for ... of Object.entries] over an
    object. *)
Definition serializeElements : list JSValue -> Completion (list JSValue) :=
  fix go (l : list JSValue) : Completion (list JSValue) :=
    match l with
    | [] => Normal []
    | e :: r =>
        e' <- serializeForRedux e ;;
        r' <- go r ;; Normal (e' :: r')
    end.

Definition serializeEntries
  : list (string * JSValue) -> Completion (list (string * JSValue)) :=
  fix go (l : list (string * JSValue)) : Completion (list (string * JSValue)) :=
    match l with
    | [] => Normal []
    | (k, v) :: r =>
        v' <- serializeForRedux v ;;
        r' <- go r ;; Normal ((k, v') :: r')
    end.

(** The record needs none of the special branches of serializeForRedux. *)
Definition plain_record (props : list (string * JSValue)) : bool :=
  is_undefined (own TIMESTAMP_KEY props)
  && negb (String.eqb (typeof (own "toHexString" props)) "function")
  && negb (overrides_object_members props).

(** processTableDataForRedux (lines 55-57) *)
Definition processTableDataForRedux (tableData : list JSValue)
  : Completion (list JSValue) :=
  mapM serializeForRedux tableData.

(** A BigInt occurs somewhere in the value. *)
Fixpoint has_bigint (v : JSValue) : bool :=
  match v with
  | VBigInt _ => true
  | VArr elems => existsb has_bigint elems
  | VObj props => existsb (fun kv => has_bigint (snd kv)) props
  | _ => false
  end.







End Serialization.

(* ===================================================================== *)
(** ** store/spacetime-slice.ts: the selectors, and what each action writes *)
(* ===================================================================== *)

Module Selectors.
Import JS Slice.

(** The keys of the state an action can write. *)
Definition writes (a : Action) (k : string) : bool :=
  match a with
  | SetConnectionStatus _ => String.eqb k "connectionStatus"
  | SetConnection _ => String.eqb k "connection"
  | SetIdentity _ => String.eqb k "identity"
  | SetError _ | ClearError => String.eqb k "error"
  | ClearAllTables => negb (session_key k)
  | InitializeTable t | SetTableData t _ | InsertTableRow t _
  | UpdateTableRow t _ _ _ | DeleteTableRow t _ _ => String.eqb k t
  end.

(** selectTableData (spacetime-slice.ts, lines 157-159) and getTableData
    (use-spacetime-db, lines 63-68): [state[tableName] || []] *)
Definition selectTableData (tableName : string) (st : gmap string JSValue)
  : JSValue :=
  if truthy (read st tableName) then read st tableName else VArr [].

(** selectIsConnected (lines 145-146) *)
Definition selectIsConnected (st : gmap string JSValue) : bool :=
  match read st "connectionStatus" with
  | VStr s => String.eqb s "connected"
  | _ => false
  end.

End Selectors.

(* ===================================================================== *)
(** ** hooks/spacetime: use-event-callbacks.ts, use-reducer-handlers.ts,
       use-table-handlers.ts *)
(* ===================================================================== *)

Module Hooks.
Import Text JS Types Slice Serialization.

(** *** use-event-callbacks.ts *)

(** registerEventCallbacks (lines 10-12):
    [{ ...eventCallbacksRef.current, ...callbacks }] *)
Definition registerEventCallbacks (current : gmap string JSValue)
  (callbacks : list (string * JSValue)) : gmap string JSValue :=
  fold_left (fun m kv => <[fst kv := snd kv]> m) callbacks current.

(** unregisterEventCallbacks (lines 14-18) *)
Definition unregisterEventCallbacks (current : gmap string JSValue)
  (callbackKeys : list string) : gmap string JSValue :=
  fold_left (fun m key => delete key m) callbackKeys current.

(** getCallback (lines 20-22).  The registry is an object literal, so a
    name it does not own is looked up on [Object.prototype]. *)
Definition getCallback (current : gmap string JSValue) (callbackName : string)
  : JSValue :=
  default (inherited callbackName) (current !! callbackName).

(** *** use-reducer-handlers.ts (the second half of use-event-callbacks.ts) *)

(** [`on${capitalize(toCamelCase(reducerName))}`] (lines 45-46) *)
Definition eventHandlerName (reducerName : string) : string :=
  "on" ++ capitalize (toCamelCase reducerName).


(** The session as this hook sees it: the members of [conn.reducers], and
    what calling a subscription method with a callback does. *)
Record ReducerNamespace : Type := mkReducerNamespace {
  members : string -> JSValue;
  subscribe : string -> Completion unit;
}.

(** One turn of the [forEach] of setupReducerHandlers (lines 41-70): the
    handler names subscribed so far, with this reducer's added when a
    callback is registered for it and the namespace has the method.  The
    [catch] swallows what the subscription raises. *)
Definition setupReducerHandler (registry : gmap string JSValue)
  (conn : ReducerNamespace) (subscribed : list string)
  (reducer : ReducerMetadata) : Completion (list string) :=
  let name := eventHandlerName (r_name reducer) in
  let callback := getCallback registry name in
  if negb (truthy callback) then Normal subscribed
  else
    let reducerHandler := members conn name in
    if negb (truthy reducerHandler)
       || negb (String.eqb (typeof reducerHandler) "function")
    then Normal subscribed
    else match subscribe conn name with
         | Normal _ => Normal (subscribed ++ [name])
         | Throw _ => Normal subscribed
         | OutOfFragment w => OutOfFragment w
         end.

(** The reducers a run of setupReducerHandlers subscribes for: a callback
    is registered under the handler name, the namespace has a function of
    that name, and calling it completes. *)
Definition subscribable (registry : gmap string JSValue)
  (conn : ReducerNamespace) (reducer : ReducerMetadata) : bool :=
  let name := eventHandlerName (r_name reducer) in
  truthy (getCallback registry name)
  && truthy (members conn name)
  && String.eqb (typeof (members conn name)) "function"
  && match subscribe conn name with Normal _ => true | _ => false end.

Fixpoint setupReducerHandlers (registry : gmap string JSValue)
  (conn : ReducerNamespace) (discoveredReducers : list ReducerMetadata)
  (subscribed : list string) : Completion (list string) :=
  match discoveredReducers with
  | [] => Normal subscribed
  | reducer :: rest =>
      subscribed' <- setupReducerHandler registry conn subscribed reducer ;;
      setupReducerHandlers registry conn rest subscribed'
  end.

(** *** use-table-handlers.ts *)

(** A table handle of the SDK's client cache: what [iter()] yields and
    what registering a callback with each of the three methods does. *)
Record TableHandle : Type := mkTableHandle {
  iter : Completion (list JSValue);
  onInsert : Completion unit;
  onUpdate : Completion unit;
  onDelete : Completion unit;
}.

Inductive Notification : Type := Insert | Update | Delete.

(** [displayName.replace(/\s+/g, "")] *)
Fixpoint stripSpaces (s : string) : string :=
  match s with
  | EmptyString => EmptyString
  | String c r => if is_space c then stripSpaces r else String c (stripSpaces r)
  end.

Definition notificationSuffix (n : Notification) : string :=
  match n with Insert => "Insert" | Update => "Update" | Delete => "Delete" end.

(** [`on${displayName.replace(/\s+/g, "")}Insert`] and its two siblings
    (lines 64, 73, 82) *)
Definition callbackName (displayName : string) (n : Notification) : string :=
  "on" ++ stripSpaces displayName ++ notificationSuffix n.

Section WithLodash.

(** lodash's [camelCase] *)
Variable camelCase : string -> string.

(** [ctx.db]: the table handles by camel-cased name. *)
Variable db : string -> option TableHandle.

(** The store and the notification callbacks registered so far. *)
Definition Setup : Type := gmap string JSValue * list (string * Notification).

(** setupTableEventHandlers (lines 51-88): the three registrations in
    order, with the callbacks registered when the function returns or
    raises; the first registration that raises ends it. *)
Definition setupTableEventHandlers (tableHandle : TableHandle)
  (tableName : string) (registered : list (string * Notification))
  : list (string * Notification) * Completion unit :=
  match onInsert tableHandle with
  | Normal _ =>
      let r1 := registered ++ [(tableName, Insert)] in
      match onUpdate tableHandle with
      | Normal _ =>
          let r2 := r1 ++ [(tableName, Update)] in
          match onDelete tableHandle with
          | Normal _ => (r2 ++ [(tableName, Delete)], Normal tt)
          | c => (r2, c)
          end
      | c => (r1, c)
      end
  | c => (registered, c)
  end.

(** One turn of the [forEach] of setupTableHandlers (lines 18-44); every
    exception ends the turn in the [catch], after what was dispatched and
    registered before it. *)
Definition setupTable (s : Setup) (table : TableMetadata) : Completion Setup :=
  let '(st, registered) := s in
  let tableName := t_name table in
  match db (camelCase tableName) with
  | None => Normal s
  | Some tableHandle =>
      match iter tableHandle with
      | Normal initialData =>
          match processTableDataForRedux initialData with
          | Normal serializedData =>
              let st' := setTableData st tableName serializedData in
              let '(registered', outcome) :=
                setupTableEventHandlers tableHandle tableName registered in
              match outcome with
              | Normal _ | Throw _ => Normal (st', registered')
              | OutOfFragment w => OutOfFragment w
              end
          | Throw _ => Normal s
          | OutOfFragment w => OutOfFragment w
          end
      | Throw _ => Normal s
      | OutOfFragment w => OutOfFragment w
      end
  end.

(** What a turn of setupTableHandlers, and a row notification, leave
    under the table name: the serialized snapshot of the handle's rows, or
    the entry as it was when the session has no such handle, the iterator
    raises, or a row cannot be serialized. *)
Definition snapshot (tableName : string) (previous : option JSValue)
  : option JSValue :=
  match db (camelCase tableName) with
  | Some tableHandle =>
      match iter tableHandle with
      | Normal rows =>
          match processTableDataForRedux rows with
          | Normal serialized => Some (VArr serialized)
          | _ => previous
          end
      | _ => previous
      end
  | None => previous
  end.

(** setupTableHandlers (lines 16-46) *)
Fixpoint setupTableHandlers (discoveredTables : list TableMetadata) (s : Setup)
  : Completion Setup :=
  match discoveredTables with
  | [] => Normal s
  | table :: rest => s' <- setupTable s table ;; setupTableHandlers rest s'
  end.

(** updateTableData (lines 90-104): what each of the three notification
    callbacks does to the store.  A missing handle makes [.iter] raise,
    which the [catch] logs. *)
Definition updateTableData (tableName : string) (st : gmap string JSValue)
  : Completion (gmap string JSValue) :=
  match db (camelCase tableName) with
  | None => Normal st
  | Some tableHandle =>
      match iter tableHandle with
      | Normal allRows =>
          match processTableDataForRedux allRows with
          | Normal serializedRows => Normal (setTableData st tableName serializedRows)
          | Throw _ => Normal st
          | OutOfFragment w => OutOfFragment w
          end
      | Throw _ => Normal st
      | OutOfFragment w => OutOfFragment w
      end
  end.

End WithLodash.

End Hooks.

(* ===================================================================== *)
(** ** hooks/spacetime/use-reducer-caller.ts: what a slot can hold *)
(* ===================================================================== *)

Module Slots.
Import Text JS.

(** The [typeof] convertValueByType (lines 84-102) gives a value of the
    declared type, branch by branch; a type none of the branches takes puts
    no constraint on the value. *)
Definition coerced (type : string) (v : JSValue) : bool :=
  if String.eqb type "string" || includes type "String" then
    String.eqb (typeof v) "string"
  else if String.eqb type "u64" || String.eqb type "i64" then
    String.eqb (typeof v) "bigint"
  else if String.eqb type "boolean" || String.eqb type "Bool" then
    String.eqb (typeof v) "boolean"
  else if startsWith type "u" || startsWith type "i" || startsWith type "f" then
    String.eqb (typeof v) "number"
  else true.

End Slots.

(* ===================================================================== *)
(** ** utils/introspection/example-generator.ts (unnamed/part_005) *)
(* ===================================================================== *)

Module ExampleGen.
Import JS Types ReducerCaller.

Section WithRandomness.

(** [skip i]: the [i]-th evaluation of [Math.random() > 0.8]. *)
Variable skip : nat -> bool.

(** [generateExampleValue i field]: what the [i]-th call of
    generateExampleValue returns, [None] when it raises.  Its body is a
    cascade of faker calls. *)
Variable generateExampleValue : nat -> FieldMetadata -> option JSValue.

(** The object under construction and the number of draws and of generator
    calls made so far. *)
Record Progress : Type := mkProgress {
  example : list (string * JSValue);
  randoms : nat;
  calls : nat;
}.

(** [try { example[field.name] = generateExampleValue(field) }
     catch { example[field.name] = prefix + field.name }] *)
Definition assignExample (prefix : string) (p : Progress) (field : FieldMetadata)
  : Progress :=
  let v := match generateExampleValue (calls p) field with
           | Some v => v
           | None => VStr (prefix ++ name field)
           end in
  mkProgress (set_prop (name field) v (example p)) (randoms p) (S (calls p)).

(** The callback of the first [fields.forEach] (lines 8-16): the random
    draw is made for optional fields only. *)
Definition firstPass (p : Progress) (field : FieldMetadata) : Progress :=
  if isOptional field then
    let p' := mkProgress (example p) (S (randoms p)) (calls p) in
    if skip (randoms p) then p' else assignExample "fallback_" p' field
  else assignExample "fallback_" p field.

(** generateExampleArgs (lines 5-30) *)
Definition generateExampleArgs (fields : list FieldMetadata)
  : list (string * JSValue) :=
  let p := fold_left firstPass fields (mkProgress [] 0 0) in
  if (length (example p) =? 0)%nat && (0 <? length fields)%nat then
    example (fold_left (assignExample "forced_")
               (firstn (Nat.min 3 (length fields)) fields) p)
  else example p.

End WithRandomness.

End ExampleGen.

(* ===================================================================== *)
(** ** Further traces of the connection state machine *)
(* ===================================================================== *)

Module Traces.
Import Connection.

(** One failed attempt followed by its retry: the handshake of session [i]
    fails, the backoff of attempt [i] elapses, the retry timer runs. *)
Definition failedRound (cfg : Config) (message : string) (i : nat) : list Event :=
  [ HandshakeError i message; Elapse (retryDelay cfg (Z.of_nat i)); Fire ].

(** connect(), then [rounds] failed attempts each followed by its retry,
    then one more failure. *)
Definition failingRun (cfg : Config) (message : string) (rounds : nat)
  : list Event :=
  CallConnect
  :: concat (map (failedRound cfg message) (seq 0 rounds))
  ++ [HandshakeError rounds message].

(** The sessions built by attempts 0 .. n-1 of an anonymous user. *)
Definition attempts (n : nat) : list Session :=
  map (fun k => mkSession (Z.of_nat k) false None) (seq 0 n).

(** Attempt [k] of an anonymous user is under way and nothing else is
    pending. *)
Definition awaiting (st : State) (k : nat) : Prop :=
  isConnecting st = true /\ isIntentionalDisconnect st = false
  /\ timers st = [] /\ sessions st = attempts (S k)
  /\ token st = None /\ status st = JS.VStr "connecting".

(** While the store says "connected" it holds the connection object of a
    session that was built. *)
Definition connected_has_session (st : State) : Prop :=
  status st = JS.VStr "connected" ->
  exists sid, (sid < length (sessions st))%nat
              /\ Slice.read (store st) "connection" = connObject sid.

(** Attempt numbers stay within the retry budget. *)
Definition within_budget (cfg : Config) (st : State) : Prop :=
  Forall (fun s => (s_retryCount s <= maxRetries cfg)%Z) (sessions st)
  /\ Forall (fun t => match task t with
                      | RetryConnect n _ => (n <= maxRetries cfg)%Z
                      | _ => True
                      end) (timers st).




End Traces.

(* ===================================================================== *)
(** ** Navigation: PatternGrouper (unnamed/part_005), getPatternIcon
       (unnamed/part_007), the navigation config (unnamed/part_008) *)
(* ===================================================================== *)

Module Navigation.
Import Text JS Introspector.

Inductive GroupSortBy : Type := Alphabetical | BySize | ByDepth.

(** NavigationConfigSchema.  The three numbers are read as integers. *)
Record NavigationConfig : Type := mkNavigationConfig {
  patternDepth : Z;
  minGroupSize : Z;
  enablePatternGrouping : bool;
  patternSeparator : string;
  maxGroups : Z;
  showUngroupedInBase : bool;
  collapseSingleGroups : bool;
  groupSortBy : GroupSortBy;
  showGroupCounts : bool;
  usePatternIcons : bool;
}.

(** GroupableItem, as far as the grouper reads it. *)
Record GroupableItem : Type := mkItem {
  item_id : string;
  item_name : string;
}.

(** PatternGroup; [g_icon] names the lucide-react component. *)
Record PatternGroup : Type := mkGroup {
  g_pattern : string;
  g_displayName : string;
  g_items : list GroupableItem;
  g_depth : nat;
  g_icon : option string;
}.

(** [s.split(sep)] for a non-empty separator: [skip] counts the characters
    of a separator occurrence still to pass over. *)
Fixpoint split_at (sep : string) (skip : nat) (cur : string) (s : string)
  : list string :=
  match s with
  | EmptyString => [rev_string "" cur]
  | String c r =>
      match skip with
      | S k => split_at sep k cur r
      | O =>
          if String.prefix sep s
          then rev_string "" cur :: split_at sep (String.length sep - 1) "" r
          else split_at sep 0 (String c cur) r
      end
  end.

Fixpoint chars (s : string) : list string :=
  match s with
  | EmptyString => []
  | String c r => String c "" :: chars r
  end.

(** [s.split(sep)] *)
Definition split (s sep : string) : list string :=
  match sep with
  | EmptyString => chars s
  | _ => split_at sep 0 "" s
  end.

(** The ICON_MAP of unnamed/part_007, in declaration order *)
Definition PATTERN_ICONS : list (string * string) :=
  [ ("room", "Activity"); ("user", "Users"); ("update", "Settings");
    ("create", "Plus"); ("delete", "Trash"); ("get", "Eye");
    ("set", "Settings"); ("config", "Settings"); ("block", "Grid");
    ("message", "MessageSquare") ].

(** getPatternIcon (unnamed/part_007, lines 26-31) *)
Definition getPatternIcon (pattern : string) : option string :=
  let lowerPattern := toLowerCase pattern in
  snd <$> List.find (fun kv => includes lowerPattern (fst kv)) PATTERN_ICONS.

(** [arr.slice(0, n)] *)
Definition slice0 {A} (n : Z) (l : list A) : list A :=
  if (n <? 0)%Z then firstn (length l - Z.to_nat (- n)) l
  else firstn (Z.to_nat n) l.

(** [patternMap.get(pattern).push(item)], with the entry created first
    when the map has none; the list keeps the insertion order of the
    Map. *)
Fixpoint push_pattern (patternMap : list (string * list GroupableItem))
  (pattern : string) (item : GroupableItem)
  : list (string * list GroupableItem) :=
  match patternMap with
  | [] => [(pattern, [item])]
  | (k, l) :: r =>
      if String.eqb k pattern then (k, l ++ [item]) :: r
      else (k, l) :: push_pattern r pattern item
  end.

Section WithConfig.

Variable config : NavigationConfig.

(** [String.prototype.localeCompare] of the host locale. *)
Variable localeCompare : string -> string -> Z.

(** getItemPatterns (lines 227-240) *)
Definition getItemPatterns (name : string) : list string :=
  let parts := split name (patternSeparator config) in
  let last :=
    Z.min (patternDepth config) (Z.of_nat (length parts) - 1) in
  map (fun depth => join (patternSeparator config) (firstn depth parts))
      (seq 1 (Z.to_nat last)).

(** extractPatterns (lines 210-225) *)
Definition extractPatterns (items : list GroupableItem)
  : list (string * list GroupableItem) :=
  fold_left
    (fun patternMap item =>
       fold_left (fun m pattern => push_pattern m pattern item)
                 (getItemPatterns (item_name item)) patternMap)
    items [].

(** formatPatternDisplayName (lines 322-328) *)
Definition formatPatternDisplayName (pattern : string) : string :=
  join " "
    (map capitalize
       (List.filter (fun part => truthy (VStr (trim part)))
          (split pattern (patternSeparator config)))).

Definition patternParts (pattern : string) : nat :=
  length (split pattern (patternSeparator config)).

(** [some group holds an item with this id] *)
Definition grouped (groups : list PatternGroup) (item : GroupableItem) : bool :=
  existsb (fun group =>
             existsb (fun groupItem => String.eqb (item_id groupItem) (item_id item))
                     (g_items group))
          groups.

(** The callback of [sortedPatterns.forEach] in createGroups
    (lines 255-283), on the groups made so far and the set of processed
    patterns. *)
Definition createGroup (acc : list PatternGroup * list string)
  (entry : string * list GroupableItem) : list PatternGroup * list string :=
  let '(groups, processedPatterns) := acc in
  let '(pattern, items) := entry in
  if (Z.of_nat (length items) <? minGroupSize config)%Z
     || existsb (String.eqb pattern) processedPatterns
  then acc
  else
    let availableItems := List.filter (fun item => negb (grouped groups item)) items in
    if (minGroupSize config <=? Z.of_nat (length availableItems))%Z
    then (groups ++ [ {| g_pattern := pattern;
                         g_displayName := formatPatternDisplayName pattern;
                         g_items := availableItems;
                         g_depth := patternParts pattern;
                         g_icon := if usePatternIcons config
                                   then getPatternIcon pattern else None |} ],
          pattern :: processedPatterns)
    else acc.

(** createGroups (lines 242-286): the deepest patterns come first. *)
Definition createGroups (patternMap : list (string * list GroupableItem))
  : list PatternGroup :=
  let sortedPatterns :=
    sort_by (fun a b => (Z.of_nat (patternParts (fst b))
                         - Z.of_nat (patternParts (fst a)))%Z)
            patternMap in
  fst (fold_left createGroup sortedPatterns ([], [])).

Definition bySize (a b : PatternGroup) : Z :=
  (Z.of_nat (length (g_items b)) - Z.of_nat (length (g_items a)))%Z.

(** filterAndLimitGroups (lines 288-304) *)
Definition filterAndLimitGroups (groups : list PatternGroup)
  : list PatternGroup :=
  let filtered :=
    List.filter (fun group =>
                   (minGroupSize config <=? Z.of_nat (length (g_items group)))%Z)
                groups in
  let filtered :=
    if collapseSingleGroups config
    then List.filter (fun group => (1 <? length (g_items group))%nat) filtered
    else filtered in
  if (maxGroups config <? Z.of_nat (length filtered))%Z
  then slice0 (maxGroups config) (sort_by bySize filtered)
  else filtered.

(** sortGroups (lines 306-320) *)
Definition sortGroups (groups : list PatternGroup) : list PatternGroup :=
  match groupSortBy config with
  | BySize => sort_by bySize groups
  | ByDepth =>
      sort_by (fun a b =>
                 if negb (g_depth a =? g_depth b)%nat
                 then (Z.of_nat (g_depth a) - Z.of_nat (g_depth b))%Z
                 else localeCompare (g_displayName a) (g_displayName b))
              groups
  | Alphabetical =>
      sort_by (fun a b => localeCompare (g_displayName a) (g_displayName b))
              groups
  end.

(** groupByPatterns (lines 185-195) *)
Definition groupByPatterns (items : list GroupableItem) : list PatternGroup :=
  if negb (enablePatternGrouping config) || (patternDepth config =? 0)%Z
  then []
  else sortGroups (filterAndLimitGroups (createGroups (extractPatterns items))).

(** getUngroupedItems (lines 197-208) *)
Definition getUngroupedItems (items : list GroupableItem)
  (groups : list PatternGroup) : list GroupableItem :=
  if negb (showUngroupedInBase config) then []
  else
    let groupedItemIds := flat_map (fun group => map item_id (g_items group)) groups in
    List.filter (fun item => negb (existsb (String.eqb (item_id item)) groupedItemIds))
                items.

(** Every item filed under a pattern is one of the items and has the
    pattern among its own. *)
Definition filed (items : list GroupableItem)
  (patternMap : list (string * list GroupableItem)) : Prop :=
  forall k l x, In (k, l) patternMap -> In x l ->
    In x items /\ In k (getItemPatterns (item_name x)).

(** What createGroups keeps true of the groups made so far: each is large
    enough and holds items filed under its pattern, and two different
    groups share no item id. *)
Definition well_grouped (items : list GroupableItem) (groups : list PatternGroup)
  : Prop :=
  (forall g, In g groups ->
     (minGroupSize config <= Z.of_nat (length (g_items g)))%Z
     /\ forall x, In x (g_items g) ->
          In x items /\ In (g_pattern g) (getItemPatterns (item_name x)))
  /\ (forall g1 g2 x1 x2, In g1 groups -> In g2 groups -> g1 <> g2 ->
        In x1 (g_items g1) -> In x2 (g_items g2) -> item_id x1 <> item_id x2).

End WithConfig.

(** The defaults of NavigationConfigSchema. *)
Definition defaultNavigation : NavigationConfig :=
  mkNavigationConfig 1 2 true "_" 10 true false Alphabetical true true.

End Navigation.

(* ===================================================================== *)
(** ** Sample table handles and catalogs *)
(* ===================================================================== *)

Module Fixtures.
Import Text JS Types Hooks.

Definition tableNamed (n : string) : TableMetadata :=
  {| t_name := n; t_displayName := n; t_primaryKey := "id"; t_fields := [];
     t_icon := "Database"; t_category := "Other"; t_description := "";
     t_actions := [] |}.

(** A handle with one row keyed by a 64-bit integer; registering an
    update callback raises on it. *)
Definition userHandle : TableHandle :=
  {| iter := Normal [VObj [("id", VBigInt 7)]];
     onInsert := Normal tt;
     onUpdate := Throw (Error "no update events");
     onDelete := Normal tt |}.

(** A handle whose second row has a timestamp field holding null, which
    serializeForRedux cannot render. *)
Definition eventHandle : TableHandle :=
  {| iter := Normal [VObj [("at", VObj [(Serialization.TIMESTAMP_KEY,
                                          VBigInt 1700000000123456)])];
                     VObj [("at", VObj [(Serialization.TIMESTAMP_KEY, VNull)])]];
     onInsert := Normal tt; onUpdate := Normal tt; onDelete := Normal tt |}.

(** A session that has an event method for both sample reducers; calling
    the one for set_score raises. *)
Definition listeningSession : ReducerNamespace :=
  {| members := fun n =>
       if String.eqb n "onSetAb" || String.eqb n "onSetScore"
       then VFun else VUndefined;
     subscribe := fun n =>
       if String.eqb n "onSetScore" then Throw (Error "no such event")
       else Normal tt |}.

(** A handle whose iterator raises. *)
Definition brokenHandle : TableHandle :=
  {| iter := Throw (TypeError "tableHandle.iter is not a function");
     onInsert := Normal tt; onUpdate := Normal tt; onDelete := Normal tt |}.

Definition sampleDb (n : string) : option TableHandle :=
  if String.eqb n "user" then Some userHandle
  else if String.eqb n "auditLog" then Some brokenHandle
  else if String.eqb n "event" then Some eventHandle
  else None.

(** A catalog with a table whose iterator raises, a good table, a table
    the session has no handle for, and a table whose rows cannot be
    serialized. *)
Definition sampleCatalog : list TableMetadata :=
  [tableNamed "audit_log"; tableNamed "user"; tableNamed "ghost";
   tableNamed "event"].

End Fixtures.

(* ===================================================================== *)
(** * Properties *)
(* ===================================================================== *)

Module SliceProofs.
Import JS Slice Samples.

Lemma read_insert (st : gmap string JSValue) t v : read (<[t := v]> st) t = v.
Proof. unfold read. by rewrite lookup_insert_eq. Qed.

Lemma string_eqb_true a b : String.eqb a b = true -> a = b.
Proof. apply String.eqb_eq. Qed.

(** On keys, [===] completes and decides equality. *)
Lemma strict_eq_keys k v :
  is_key k = true -> is_key v = true ->
  exists b, strict_eq k v = Normal b /\ (b = true <-> k = v).
Proof.
  intros Hk Hv.
  destruct k as [| |x|[x|]|x|x|?|?|]; try discriminate;
  destruct v as [| |y|[y|]|y|y|?|?|]; try discriminate; simpl;
    eexists; (split; [reflexivity|]).
  all: try (split; [discriminate | intros H; discriminate H]).
  - rewrite Bool.eqb_true_iff. split; [congruence | intros H; by inversion H].
  - rewrite Z.eqb_eq. split; [congruence | intros H; by inversion H].
  - rewrite Z.eqb_eq. split; [congruence | intros H; by inversion H].
  - rewrite String.eqb_eq. split; [congruence | intros H; by inversion H].
Qed.

Lemma key_not_object k : is_key k = true -> String.eqb (typeof k) "object" = false.
Proof. destruct k as [| |x|[x|]|x|x|?|?|]; try discriminate; reflexivity. Qed.

Lemma row_key_get pk row k :
  row_key pk row = Some k -> get_prop row pk = Normal k /\ is_key k = true.
Proof.
  unfold row_key. destruct (get_prop row pk) as [a| |]; try discriminate.
  destruct (is_key a) eqn:E; try discriminate. intros [= ->]. done.
Qed.

(** On a row that has a key, the located test of the reducers is the
    reference test. *)
Lemma locate_key_is pk v row k :
  row_key pk row = Some k -> is_key v = true ->
  locate pk v row = Normal (key_is pk v row)
  /\ (key_is pk v row = true <-> k = v).
Proof.
  intros Hr Hv. destruct (row_key_get _ _ _ Hr) as [Hg Hk].
  destruct (strict_eq_keys k v Hk Hv) as (b & Hb & Hiff).
  unfold locate, key_is, comparePrimaryKeys. rewrite Hg. simpl.
  rewrite (key_not_object k Hk). simpl. rewrite Hb. done.
Qed.


Lemma has_key_false_in pk v c x :
  has_key pk v c = false -> In x c -> key_is pk v x = false.
Proof.
  unfold has_key. intros H Hin.
  destruct (key_is pk v x) eqn:E; [|done].
  assert (existsb (key_is pk v) c = true) by (apply existsb_exists; eauto).
  congruence.
Qed.

Lemma distinct_keys_in pk c x :
  distinct_keys pk c = true -> In x c -> exists k, row_key pk x = Some k.
Proof.
  induction c as [|y c IH]; simpl; [done|].
  destruct (row_key pk y) as [k|] eqn:E; [|discriminate].
  intros [_ Hd]%andb_prop [->|Hin]; eauto.
Qed.

(** No row stored under [v]: update and delete of the reference leave the
    collection alone. *)
Lemma map_no_match pk v r c :
  (forall x, In x c -> key_is pk v x = false) ->
  map (fun x => if key_is pk v x then r else x) c = c.
Proof.
  induction c as [|y c IH]; simpl; [done|]. intros H.
  rewrite (H y) by auto. f_equal. apply IH. auto.
Qed.

Lemma filter_no_match pk v c :
  (forall x, In x c -> key_is pk v x = false) ->
  List.filter (fun x => negb (key_is pk v x)) c = c.
Proof.
  induction c as [|y c IH]; simpl; [done|]. intros H.
  rewrite (H y) by auto. simpl. f_equal. apply IH. auto.
Qed.

(** With distinct keys, the first match found by the reducers is the only
    one, so replacing or removing it is what the reference does. *)
Lemma findIndex_keyed pk v r c :
  distinct_keys pk c = true -> is_key v = true ->
  exists i,
    findIndex (locate pk v) c = Normal i
    /\ match i with
       | Some n =>
           <[n := r]> c = map (fun x => if key_is pk v x then r else x) c
           /\ delete n c = List.filter (fun x => negb (key_is pk v x)) c
           /\ has_key pk v c = true
       | None =>
           map (fun x => if key_is pk v x then r else x) c = c
           /\ List.filter (fun x => negb (key_is pk v x)) c = c
           /\ has_key pk v c = false
       end.
Proof.
  intros Hd Hv. induction c as [|y c IH]; simpl in *.
  - exists None. done.
  - destruct (row_key pk y) as [k|] eqn:Hy; [|discriminate].
    apply andb_prop in Hd as [Hfresh Hd]. apply negb_true_iff in Hfresh.
    destruct (locate_key_is pk v y k Hy Hv) as [Hloc Hiff].
    rewrite Hloc. simpl. destruct (key_is pk v y) eqn:E.
    + exists (Some 0%nat). split; [done|]. simpl.
      assert (k = v) as -> by (by apply Hiff).
      rewrite map_no_match, filter_no_match
        by (intros; eapply has_key_false_in; eauto). done.
    + destruct (IH Hd) as (i & Hi & Hspec). rewrite Hi. simpl.
      exists (S <$> i). split; [done|].
      destruct i as [n|]; simpl.
      * destruct Hspec as (-> & -> & ->). done.
      * destruct Hspec as (-> & -> & ->). done.
Qed.


Lemma has_key_iff pk w c :
  has_key pk w c = true <-> exists x, In x c /\ key_is pk w x = true.
Proof. unfold has_key. apply existsb_exists. Qed.

Lemma has_key_cons pk w y c :
  has_key pk w (y :: c) = key_is pk w y || has_key pk w c.
Proof. reflexivity. Qed.

(** Two rows with keys: one is stored under the key of the other exactly
    when the keys are equal. *)
Lemma key_is_row_key pk x kx w :
  row_key pk x = Some kx -> is_key w = true ->
  (key_is pk w x = true <-> kx = w).
Proof. intros Hx Hw. by destruct (locate_key_is pk w x kx Hx Hw). Qed.

Lemma distinct_insert pk c r k :
  distinct_keys pk c = true -> row_key pk r = Some k ->
  has_key pk k c = false -> distinct_keys pk (c ++ [r]) = true.
Proof.
  intros Hd Hr Hf. destruct (row_key_get _ _ _ Hr) as [_ Hk].
  induction c as [|y c IH]; simpl in *.
  - by rewrite Hr.
  - destruct (row_key pk y) as [ky|] eqn:Hy; [|discriminate].
    destruct (row_key_get _ _ _ Hy) as [_ Hky].
    apply andb_prop in Hd as [Hfresh Hd]. apply negb_true_iff in Hfresh.
    apply orb_false_elim in Hf as [Hky' Hf].
    rewrite IH by done. rewrite andb_true_r. apply negb_true_iff.
    unfold has_key in *. rewrite existsb_app, Hfresh. simpl.
    rewrite orb_false_r. destruct (key_is pk ky r) eqn:E; [|done].
    apply (key_is_row_key pk r k ky Hr Hky) in E. subst ky.
    assert (key_is pk k y = true) by (by apply (key_is_row_key pk y k k)).
    congruence.
Qed.

Lemma distinct_delete pk c v :
  distinct_keys pk c = true ->
  distinct_keys pk (List.filter (fun x => negb (key_is pk v x)) c) = true.
Proof.
  induction c as [|y c IH]; simpl; [done|].
  destruct (row_key pk y) as [ky|] eqn:Hy; [|discriminate].
  intros [Hfresh Hd]%andb_prop. apply negb_true_iff in Hfresh.
  destruct (negb (key_is pk v y)); simpl; [|by apply IH].
  rewrite Hy, IH by done. rewrite andb_true_r. apply negb_true_iff.
  destruct (has_key pk ky (List.filter _ c)) eqn:E; [|done].
  apply has_key_iff in E as (x & [Hin _]%filter_In & Hx).
  assert (has_key pk ky c = true) by (apply has_key_iff; eauto). congruence.
Qed.

Lemma distinct_update pk c v r k :
  distinct_keys pk c = true -> is_key v = true -> row_key pk r = Some k ->
  key_is pk v r = true \/ has_key pk k c = false ->
  distinct_keys pk (map (fun x => if key_is pk v x then r else x) c) = true.
Proof.
  intros Hd Hv Hr. destruct (row_key_get _ _ _ Hr) as [_ Hk].
  induction c as [|y c IH]; [done|]. intros Hcase.
  cbn [distinct_keys] in Hd. cbn [map].
  destruct (row_key pk y) as [ky|] eqn:Hy; [|discriminate].
  destruct (row_key_get _ _ _ Hy) as [_ Hky].
  apply andb_prop in Hd as [Hfresh Hd]. apply negb_true_iff in Hfresh.
  assert (Htail : key_is pk v r = true \/ has_key pk k c = false).
  { destruct Hcase as [?|H]; [by left|right].
    rewrite has_key_cons in H. by apply orb_false_elim in H as [_ ?]. }
  destruct (key_is pk v y) eqn:E; cbn [distinct_keys].
  - apply (key_is_row_key pk y ky v Hy Hv) in E. subst ky.
    rewrite map_no_match by (intros; eapply has_key_false_in; eauto).
    rewrite Hr, Hd, andb_true_r. apply negb_true_iff.
    destruct Hcase as [H|H].
    + apply (key_is_row_key pk r k v Hr Hv) in H. by subst k.
    + rewrite has_key_cons in H. by apply orb_false_elim in H as [_ ?].
  - rewrite Hy, (IH Hd Htail), andb_true_r. apply negb_true_iff.
    destruct (has_key pk ky (map _ c)) eqn:F; [|done]. exfalso.
    apply has_key_iff in F as (x' & (x & <- & Hin)%in_map_iff & Hx').
    destruct (key_is pk v x) eqn:G.
    + apply (key_is_row_key pk r k ky Hr Hky) in Hx'. subst ky.
      destruct Hcase as [H|H].
      * apply (key_is_row_key pk r k v Hr Hv) in H. subst k.
        assert (key_is pk v y = true) by (by apply (key_is_row_key pk y v v)).
        congruence.
      * rewrite has_key_cons in H. apply orb_false_elim in H as [H _].
        assert (key_is pk k y = true) by (by apply (key_is_row_key pk y k k)).
        congruence.
    + assert (has_key pk ky c = true) by (apply has_key_iff; eauto). congruence.
Qed.

(** One notification: the reducer does to the stored table what the
    reference step does to the collection, and keys stay distinct. *)
Lemma reducer_replay_step (st : gmap string JSValue) t pk c op :
  distinct_keys pk c = true -> op_keeps_keys pk c op = true ->
  reducer (<[t := VArr c]> st) (op_action t pk op)
    = Normal (<[t := VArr (replay_step pk c op)]> st)
  /\ distinct_keys pk (replay_step pk c op) = true.
Proof.
  intros Hd Hop. destruct op as [r|v r|v]; simpl in *.
  - destruct (row_key pk r) as [k|] eqn:Hr; [|discriminate].
    apply negb_true_iff in Hop. split; [|by eapply distinct_insert].
    unfold insertTableRow. rewrite read_insert. simpl.
    by rewrite insert_insert_eq.
  - apply andb_prop in Hop as [Hv Hop].
    destruct (row_key pk r) as [k|] eqn:Hr; [|discriminate].
    split.
    + unfold updateTableRow. rewrite read_insert. simpl.
      destruct (findIndex_keyed pk v r c Hd Hv) as (i & -> & Hi). simpl.
      destruct i as [n|].
      * destruct Hi as (-> & _ & _). by rewrite insert_insert_eq.
      * destruct Hi as (-> & _ & _). done.
    + eapply distinct_update; eauto.
      apply orb_prop in Hop as [?|?%negb_true_iff]; auto.
  - split; [|by apply distinct_delete].
    unfold deleteTableRow. rewrite read_insert. simpl.
    destruct (findIndex_keyed pk v VNull c Hd Hop) as (i & -> & Hi). simpl.
    destruct i as [n|].
    + destruct Hi as (_ & -> & _). by rewrite insert_insert_eq.
    + destruct Hi as (_ & -> & _). done.
Qed.

Lemma dispatchAll_replay (st : gmap string JSValue) t pk ops : forall c,
  distinct_keys pk c = true -> stream_keeps_keys pk c ops = true ->
  dispatchAll (<[t := VArr c]> st) (map (op_action t pk) ops)
    = Normal (<[t := VArr (replay pk ops c)]> st).
Proof.
  induction ops as [|op ops IH]; intros c Hd Hs; simpl in *; [done|].
  apply andb_prop in Hs as [Hop Hs].
  destruct (reducer_replay_step st t pk c op Hd Hop) as [-> Hd'].
  simpl. by apply IH.
Qed.

Lemma replay_inserts pk seed : forall c,
  replay pk (map OpInsert seed) c = c ++ seed.
Proof.
  induction seed as [|r seed IH]; intros c.
  - simpl. by rewrite app_nil_r.
  - change (replay pk (map OpInsert (r :: seed)) c)
      with (replay pk (map OpInsert seed) (c ++ [r])).
    rewrite IH. by rewrite <- app_assoc.
Qed.

(** C3, as amended.  Seed a table and dispatch any finite sequence of
    insert / update / delete notifications.  If the seed has pairwise
    distinct primitive primary-key values and the sequence keeps them
    distinct (an insert brings a key that is not present, the new row of an
    update keeps the located key or brings one that is not present, keys are
    primitive), then what the store holds under the table name is the left
    fold of the sequence, the seed rows taken as inserts, over the empty
    collection keyed by the primary key: insert appends, update replaces the
    row under the key, delete removes the row under the key. *)
Theorem mirror_is_replay_of_keyed_stream (st : gmap string JSValue)
  (tableName primaryKey : string) (seed : list JSValue) (ops : list TableOp) :
  distinct_keys primaryKey seed = true ->
  stream_keeps_keys primaryKey seed ops = true ->
  mirror st tableName primaryKey seed ops
  = Normal (VArr (replay primaryKey (map OpInsert seed ++ ops) [])).
Proof.
  intros Hd Hs. unfold mirror, setTableData.
  rewrite (dispatchAll_replay st tableName primaryKey ops seed Hd Hs). simpl.
  rewrite read_insert. unfold replay. rewrite fold_left_app.
  fold (replay primaryKey (map OpInsert seed) []).
  by rewrite replay_inserts.
Qed.



Lemma typeof_object v : String.eqb (typeof v) "object" = object_shaped v.
Proof. by destruct v. Qed.

Lemma findIndex_first p : forall rows n,
  findIndex p rows = Normal (Some n) ->
  (exists x, rows !! n = Some x /\ p x = Normal true)
  /\ (forall j, (j < n)%nat -> exists y, rows !! j = Some y /\ p y = Normal false).
Proof.
  induction rows as [|x rows IH]; intros n; simpl; [discriminate|].
  destruct (p x) as [[|]| |] eqn:E; simpl; try discriminate.
  - intros [= <-]. split; [eauto|]. intros j Hj. lia.
  - destruct (findIndex p rows) as [[m|]| |] eqn:F; simpl; try discriminate.
    intros [= <-]. destruct (IH m eq_refl) as [Hx Hlt]. split; [done|].
    intros [|j] Hj; simpl; [eauto|]. apply Hlt. lia.
Qed.

Lemma findIndex_none p : forall rows,
  Forall (fun x => p x = Normal false) rows -> findIndex p rows = Normal None.
Proof.
  induction 1 as [|x rows Hx _ IH]; simpl; [done|]. by rewrite Hx, IH.
Qed.

(** C9.  comparePrimaryKeys compares the primary-key property of its two
    arguments when both are object-shaped (what [typeof] calls "object") and
    is [===] on the arguments themselves as soon as one of them is not;
    updateTableRow and deleteTableRow act on the first index at which this
    comparison, applied to the row's primary-key property and the given
    primary value, holds, and leave the state alone when there is none. *)
Theorem comparePrimaryKeys_by_shape (a b : JSValue) (primaryKey : string)
  (st : gmap string JSValue) (tableName : string) (primaryValue row : JSValue)
  (rows : list JSValue) (Ht : st !! tableName = Some (VArr rows)) :
  comparePrimaryKeys a b primaryKey
  = (if object_shaped a && object_shaped b
     then x <- get_prop a primaryKey ;; y <- get_prop b primaryKey ;; strict_eq x y
     else strict_eq a b)
  /\ updateTableRow st tableName primaryKey primaryValue row
    = (i <- findIndex (fun item => k <- get_prop item primaryKey ;;
                                  comparePrimaryKeys k primaryValue primaryKey) rows ;;
       Normal (match i with
               | Some n => <[tableName := VArr (<[n := row]> rows)]> st
               | None => st
               end))
  /\ deleteTableRow st tableName primaryKey primaryValue
    = (i <- findIndex (fun item => k <- get_prop item primaryKey ;;
                                  comparePrimaryKeys k primaryValue primaryKey) rows ;;
       Normal (match i with
               | Some n => <[tableName := VArr (delete n rows)]> st
               | None => st
               end))
  /\ (forall n,
      findIndex (fun item => k <- get_prop item primaryKey ;;
                             comparePrimaryKeys k primaryValue primaryKey) rows
      = Normal (Some n) ->
      (exists item k,
         rows !! n = Some item /\ get_prop item primaryKey = Normal k
         /\ comparePrimaryKeys k primaryValue primaryKey = Normal true)
      /\ (forall j, (j < n)%nat ->
          exists item, rows !! j = Some item
            /\ (k <- get_prop item primaryKey ;;
                comparePrimaryKeys k primaryValue primaryKey) = Normal false)).
Proof.
  split; [|split; [|split]].
  - unfold comparePrimaryKeys. by rewrite !typeof_object.
  - unfold updateTableRow, read. rewrite Ht. simpl. unfold locate.
    by destruct (findIndex _ rows) as [[n|]| |].
  - unfold deleteTableRow, read. rewrite Ht. simpl. unfold locate.
    by destruct (findIndex _ rows) as [[n|]| |].
  - intros n Hn. destruct (findIndex_first _ _ _ Hn) as [(item & Hi & Hp) Hlt].
    split; [|done]. exists item.
    destruct (get_prop item primaryKey) as [k| |] eqn:Hk; try discriminate.
    by exists k.
Qed.

(** C9, witness: two objects compared through their "id" property, a string
    against an object compared as they are, and an update that locates the
    row with id 2. *)
Lemma comparePrimaryKeys_by_shape_witness :
  comparePrimaryKeys (VObj [("id", VStr "a")]) (VObj [("id", VStr "a")]) "id"
    = Normal true
  /\ comparePrimaryKeys (VStr "a") (VObj [("id", VStr "a")]) "id" = Normal false
  /\ updateTableRow (setTableData initialState "user" [row 1 "a"; row 2 "b"])
       "user" "id" (VNum (NumInt 2)) (row 2 "c")
     = Normal (setTableData initialState "user" [row 1 "a"; row 2 "c"]).
Proof.
  pose proof (comparePrimaryKeys_by_shape
                (VObj [("id", VStr "a")]) (VObj [("id", VStr "a")]) "id"
                (setTableData initialState "user" [row 1 "a"; row 2 "b"])
                "user" (VNum (NumInt 2)) (row 2 "c") [row 1 "a"; row 2 "b"]
                (lookup_insert_eq _ _ _)) as (H1 & H2 & _ & _).
  pose proof (comparePrimaryKeys_by_shape
                (VStr "a") (VObj [("id", VStr "a")]) "id"
                (setTableData initialState "user" [row 1 "a"; row 2 "b"])
                "user" (VNum (NumInt 2)) (row 2 "c") [row 1 "a"; row 2 "b"]
                (lookup_insert_eq _ _ _)) as (H3 & _ & _ & _).
  split; [|split].
  - rewrite H1. reflexivity.
  - rewrite H3. reflexivity.
  - rewrite H2. simpl. unfold setTableData. by rewrite insert_insert_eq.
Defined.

(** What a plain object inherits under a name is a function, the
    prototype object, or nothing. *)
Lemma inherited_cases k :
  inherited k = VFun
  \/ inherited k = VObj (map (fun m => (m, VFun)) OBJECT_PROTOTYPE)
  \/ inherited k = VUndefined.
Proof.
  unfold inherited. destruct (existsb _ _); [by left|].
  destruct (String.eqb _ _); [right; by left|right; by right].
Qed.

Lemma inherited_falsy k : truthy (inherited k) = false -> inherited k = VUndefined.
Proof. by destruct (inherited_cases k) as [H|[H|H]]; rewrite H. Qed.

(** On a readable row and a primitive primary value the callback of
    findIndex completes, and answers what the keyed reference answers. *)
Lemma locate_primitive pk v item :
  is_row item = true -> primitive_key v = true ->
  locate pk v item = Normal (key_is pk v item).
Proof.
  intros Hr Hv. unfold locate, key_is, comparePrimaryKeys.
  assert (Hg : exists k, get_prop item pk = Normal k).
  { destruct item as [| |?|?|?|s|elems|props|]; try discriminate; simpl; eauto.
    - destruct (String.eqb pk "length"); [eauto|].
      destruct (array_index pk); eauto.
    - destruct (String.eqb pk "length"); [eauto|].
      destruct (array_index pk); eauto. }
  destruct Hg as [k ->]. simpl.
  assert (Ho : String.eqb (typeof v) "object" = false)
    by (destruct v; try discriminate; reflexivity).
  rewrite Ho, Bool.andb_false_r.
  destruct v as [| |?|?|?|?|?|?|]; try discriminate;
    destruct k as [| |?|?|?|?|?|?|]; reflexivity.
Qed.

Lemma findIndex_unmatched pk v : forall rows,
  primitive_key v = true ->
  forallb (fun item => is_row item && negb (key_is pk v item)) rows = true ->
  findIndex (locate pk v) rows = Normal None.
Proof.
  intros rows Hv Hall. apply findIndex_none.
  apply List.Forall_forall. intros item Hin.
  apply (proj1 (forallb_forall _ _) Hall) in Hin.
  apply andb_prop in Hin as [Hr Hk%negb_true_iff].
  by rewrite (locate_primitive _ _ _ Hr Hv), Hk.
Qed.

(** C10, as amended.  Let the primary value be a primitive other than null, and
    let the table name have no entry and inherit nothing, or hold a falsy
    value, or hold an array whose rows are neither null, undefined nor
    functions and none of which carries the primary value in its
    primary-key field.  Then updateTableRow and deleteTableRow complete
    normally and return the state unchanged.  And insertTableRow for a name
    that has no entry in the state and inherits nothing completes normally
    and returns the state unchanged, the row being dropped. *)
Theorem unmatched_actions_leave_state (st : gmap string JSValue)
  (tableName primaryKey : string) (primaryValue row : JSValue)
  (fresh : string) (dropped : JSValue) :
  unmatched st tableName primaryKey primaryValue = true ->
  uninitialized st fresh = true ->
  updateTableRow st tableName primaryKey primaryValue row = Normal st
  /\ deleteTableRow st tableName primaryKey primaryValue = Normal st
  /\ insertTableRow st fresh dropped = Normal st.
Proof.
  unfold unmatched, uninitialized. intros [Hv Hu]%andb_prop Hf.
  split; [|split].
  - unfold updateTableRow, read.
    destruct (st !! tableName) as [t|]; simpl.
    + destruct t as [| |?|?|?|?|rows|props|];
        try (apply negb_true_iff in Hu; by rewrite Hu).
      simpl. by rewrite (findIndex_unmatched _ _ _ Hv Hu).
    + apply negb_true_iff in Hu. by rewrite Hu.
  - unfold deleteTableRow, read.
    destruct (st !! tableName) as [t|]; simpl.
    + destruct t as [| |?|?|?|?|rows|props|];
        try (apply negb_true_iff in Hu; by rewrite Hu).
      simpl. by rewrite (findIndex_unmatched _ _ _ Hv Hu).
    + apply negb_true_iff in Hu. by rewrite Hu.
  - unfold insertTableRow, read.
    destruct (st !! fresh); [discriminate|]. simpl.
    apply negb_true_iff in Hf. by rewrite Hf.
Qed.

(** C10, witness: a table of two users, a primary value 9 that none of them
    has, and an insert into a table "pet" that was never initialized. *)
Lemma unmatched_actions_witness :
  unmatched userTable "user" "id" (VNum (NumInt 9)) = true
  /\ uninitialized userTable "pet" = true
  /\ updateTableRow userTable "user" "id" (VNum (NumInt 9)) (row 9 "z")
     = Normal userTable
  /\ deleteTableRow userTable "user" "id" (VNum (NumInt 9)) = Normal userTable
  /\ insertTableRow userTable "pet" (row 1 "rex") = Normal userTable.
Proof.
  assert (Hu : unmatched userTable "user" "id" (VNum (NumInt 9)) = true)
    by (vm_compute; reflexivity).
  assert (Hf : uninitialized userTable "pet" = true)
    by (vm_compute; reflexivity).
  split; [exact Hu|]. split; [exact Hf|].
  exact (unmatched_actions_leave_state userTable "user" "id" (VNum (NumInt 9))
           (row 9 "z") "pet" (row 1 "rex") Hu Hf).
Defined.

(** C10, counterexample: three states in which no row is matched, or the
    name was never initialized, and the reducer throws all the same.  After
    setError the name "error" holds a text, which has no findIndex; a table
    seeded with a null row makes the callback read a property of null; and
    the name "constructor", which no action has initialized, reads as the
    inherited function, which has no push. *)
Lemma unmatched_actions_counterexample :
  deleteTableRow (setError initialState "boom") "error" "id" (VNum (NumInt 1))
    = Throw (TypeError "findIndex is not a function")
  /\ updateTableRow (setTableData initialState "user" [VNull]) "user" "id"
       (VNum (NumInt 1)) (row 1 "a")
     = Throw (TypeError "Cannot read properties of null (reading 'id')")
  /\ initialState !! "constructor" = None
  /\ insertTableRow initialState "constructor" (row 1 "a")
     = Throw (TypeError "push is not a function").
Proof.
  split; [by vm_compute|]. split; [by vm_compute|].
  split; by vm_compute.
Qed.

(** A name that is not a session field and that no dispatched action has
    initialized or seeded has no entry in the state. *)
Lemma reducer_keeps_absent (st st' : gmap string JSValue) a t :
  session_key t = false -> initializes t a = false ->
  st !! t = None -> reducer st a = Normal st' -> st' !! t = None.
Proof.
  intros Hk Hi Ht.
  assert (Hne : forall k, session_key k = true -> k <> t).
  { intros k Hk' ->. congruence. }
  destruct a as [s|c|i|m| | |t'|t' d|t' r|t' pk pv r|t' pk pv]; simpl in *.
  - intros [= <-]. unfold setConnectionStatus. by rewrite lookup_insert_ne by by apply Hne.
  - intros [= <-]. unfold setConnection. by rewrite lookup_insert_ne by by apply Hne.
  - intros [= <-]. unfold setIdentity. by rewrite lookup_insert_ne by by apply Hne.
  - intros [= <-]. unfold setError. by rewrite lookup_insert_ne by by apply Hne.
  - intros [= <-]. unfold clearError. by rewrite lookup_insert_ne by by apply Hne.
  - intros [= <-]. unfold clearAllTables. apply map_lookup_filter_None. by left.
  - intros [= <-]. unfold initializeTable. destruct (truthy _); [done|].
    rewrite lookup_insert_ne; [done|]. intros ->. by rewrite String.eqb_refl in Hi.
  - intros [= <-]. unfold setTableData.
    rewrite lookup_insert_ne; [done|]. intros ->. by rewrite String.eqb_refl in Hi.
  - unfold insertTableRow, read. destruct (decide (t' = t)) as [->|Hn].
    + rewrite Ht. simpl.
      destruct (inherited_cases t) as [H|[H|H]]; rewrite H; simpl;
        [discriminate|discriminate|by intros [= <-]].
    + destruct (truthy _); [|by intros [= <-]].
      destruct (default _ (st !! t')) as [| |?|?|?|?|rows|props|];
        simpl; try discriminate.
      * intros [= <-]. by rewrite lookup_insert_ne.
      * by destruct (assoc "push" props).
  - unfold updateTableRow, read. destruct (decide (t' = t)) as [->|Hn].
    + rewrite Ht. simpl.
      destruct (inherited_cases t) as [H|[H|H]]; rewrite H; simpl;
        [discriminate|discriminate|by intros [= <-]].
    + destruct (truthy _); [|by intros [= <-]].
      destruct (default _ (st !! t')) as [| |?|?|?|?|rows|props|];
        simpl; try discriminate.
      * destruct (findIndex _ rows) as [[n|]| |]; simpl; try discriminate;
          intros [= <-]; [by rewrite lookup_insert_ne|done].
      * by destruct (assoc "findIndex" props).
  - unfold deleteTableRow, read. destruct (decide (t' = t)) as [->|Hn].
    + rewrite Ht. simpl.
      destruct (inherited_cases t) as [H|[H|H]]; rewrite H; simpl;
        [discriminate|discriminate|by intros [= <-]].
    + destruct (truthy _); [|by intros [= <-]].
      destruct (default _ (st !! t')) as [| |?|?|?|?|rows|props|];
        simpl; try discriminate.
      * destruct (findIndex _ rows) as [[n|]| |]; simpl; try discriminate;
          intros [= <-]; [by rewrite lookup_insert_ne|done].
      * by destruct (assoc "findIndex" props).
Qed.

Lemma never_initialized_absent t acts : forall (st st' : gmap string JSValue),
  session_key t = false ->
  forallb (fun a => negb (initializes t a)) acts = true ->
  st !! t = None -> dispatchAll st acts = Normal st' -> st' !! t = None.
Proof.
  induction acts as [|a acts IH]; intros st st' Hk Hall Ht; simpl in *.
  - by intros [= <-].
  - apply andb_prop in Hall as [Ha%negb_true_iff Hall].
    destruct (reducer st a) as [st1| |] eqn:E; simpl; try discriminate.
    apply IH; [done|done|]. by eapply reducer_keeps_absent.
Qed.

(** C3, counterexample: two inserts under key 1 followed by a delete of key
    1.  The reducers remove the first located row only, so the mirror still
    holds a row under the deleted key, while the keyed collection is empty. *)
Lemma mirror_duplicate_insert_counterexample :
  mirror initialState "user" "id" [] duplicateInsertThenDelete
    = Normal (VArr [row 1 "b"])
  /\ replay "id" (map OpInsert [] ++ duplicateInsertThenDelete) [] = [].
Proof.
  split; [|reflexivity].
  unfold mirror, setTableData, duplicateInsertThenDelete. simpl.
  unfold insertTableRow. rewrite read_insert. simpl. rewrite insert_insert_eq.
  unfold insertTableRow. rewrite read_insert. simpl. rewrite insert_insert_eq.
  unfold deleteTableRow. rewrite read_insert. simpl. rewrite insert_insert_eq.
  by rewrite read_insert.
Qed.

(** C3, witness: a seed of one row followed by insert, update, delete and
    insert with distinct keys. *)
Lemma mirror_is_replay_witness :
  distinct_keys "id" [row 1 "a"] = true
  /\ stream_keeps_keys "id" [row 1 "a"] keyedStream = true
  /\ mirror initialState "user" "id" [row 1 "a"] keyedStream
     = Normal (VArr [row 1 "c"; row 3 "d"]).
Proof.
  split; [reflexivity|]. split; [reflexivity|].
  rewrite (mirror_is_replay_of_keyed_stream initialState "user" "id"
             [row 1 "a"] keyedStream); reflexivity.
Defined.

End SliceProofs.

Module ReducerCallerProofs.
Import Text JS Types ReducerCaller Samples.


(** C2, counterexample: given the empty bag, callReducer issues the call
    (undefined, undefined) although the entry's example value for [a] is 7. *)
Lemma empty_bag_counterexample :
  marshal fieldsAB (VObj []) = Normal [VUndefined; VUndefined]
  /\ issued (callReducer (Some openSession) [setAB] "set_ab" (VObj []))
     = [("setAb", [VUndefined; VUndefined])]
  /\ get_prop (r_exampleArgs setAB) "a" = Normal (VNum (NumInt 7)).
Proof. vm_compute. done. Qed.

(** C2, as amended.  For catalog fields [a: u32] (required) and
    [b: string] (optional), in that order, the marshalling of callReducer
    turns the bag {a: "5"} into (5, undefined) and the bag {a: "5", b: ""}
    into (5, undefined) as well; it turns the empty bag into
    (undefined, undefined) without raising, with no use of the catalog's
    example value.  The example value for [a] is substituted by the reducer
    form, which fills the bag before it calls callReducer: submitted empty,
    the form makes the call (example value of a, undefined). *)
Theorem ordered_args_u32_optional_string (fa fb : FieldMetadata)
  (reducer : ReducerMetadata) (ex : list (string * JSValue)) (z : Z) :
  name fa = "a" -> type fa = "u32" -> isOptional fa = false ->
  name fb = "b" -> type fb = "string" -> isOptional fb = true ->
  r_exampleArgs reducer = VObj ex -> assoc "a" ex = Some (VNum (NumInt z)) ->
  marshal [fa; fb] (VObj [("a", VStr "5")]) = Normal [VNum (NumInt 5); VUndefined]
  /\ marshal [fa; fb] (VObj [("a", VStr "5"); ("b", VStr "")])
     = Normal [VNum (NumInt 5); VUndefined]
  /\ marshal [fa; fb] (VObj []) = Normal [VUndefined; VUndefined]
  /\ (args <- collectFormArgs reducer (VObj []) [fa; fb] [] ;;
      marshal [fa; fb] (VObj args)) = Normal [VNum (NumInt z); VUndefined].
Proof.
  intros Ha Hta Hoa Hb Htb Hob Hex Hz.
  unfold marshal, createOrderedArgs, orderedArg. simpl.
  rewrite Ha, Hb, Hta, Htb, Hoa, Hob, Hex. simpl. rewrite Hz. simpl.
  repeat split.
  unfold convertFormValue. rewrite Hta. reflexivity.
Qed.

(** C2, witness: the two fields as the analyzer derives them and an entry
    whose example value for [a] is 7. *)
Lemma ordered_args_witness :
  marshal fieldsAB (VObj [("a", VStr "5")]) = Normal [VNum (NumInt 5); VUndefined]
  /\ marshal fieldsAB (VObj [("a", VStr "5"); ("b", VStr "")])
     = Normal [VNum (NumInt 5); VUndefined]
  /\ marshal fieldsAB (VObj []) = Normal [VUndefined; VUndefined]
  /\ (args <- collectFormArgs setAB (VObj []) fieldsAB [] ;;
      marshal fieldsAB (VObj args)) = Normal [VNum (NumInt 7); VUndefined].
Proof.
  apply (ordered_args_u32_optional_string
           (Analyzer.productField ("a", Analyzer.Primitive Analyzer.U32))
           (Analyzer.productField ("b", optionOf (Analyzer.Primitive Analyzer.String_)))
           setAB [("a", VNum (NumInt 7)); ("b", VStr "x")] 7);
    reflexivity.
Defined.

(** *** callReducer: when it rejects *)

(** C6, counterexample: with a session, the reducer in the catalog and its
    method callable, the bag {score: "abc"} for a u64 field makes [BigInt]
    raise, and callReducer rejects with that SyntaxError. *)
Lemma bigint_failure_counterexample :
  let res := callReducer (Some openSession) [setScore] "set_score"
               (VObj [("score", VStr "abc")]) in
  outcome res = Throw (SyntaxError "Cannot convert abc to a BigInt")
  /\ issued res = []
  /\ findReducer [setScore] "set_score" = Some setScore
  /\ methodMissing openSession (toCamelCase "set_score") = false.
Proof. vm_compute. done. Qed.

(** C6, as amended.  callReducer rejects with "Not connected to SpacetimeDB"
    when there is no session, with "Reducer metadata not found" when the
    name is absent from the catalog, and with "Reducer method not found"
    when the reducer namespace has no callable member of the camel-cased
    name; in each of these cases no remote call is issued.  These are not the
    only rejections.  With a session, a catalog entry and a callable method,
    callReducer also rejects when the marshalling of the arguments raises,
    with what it raised and no remote call issued, and when the remote
    method itself raises, with what it raised and after that one call was
    issued.  And these five are all: whenever callReducer rejects, one of
    them is the case. *)
Theorem callReducer_rejections (connection : option Connection)
  (discoveredReducers : list ReducerMetadata) (reducerName : string)
  (args : JSValue) :
  let res := callReducer connection discoveredReducers reducerName args in
  let method := toCamelCase reducerName in
  (connection = None ->
   res = rejected (Error "Not connected to SpacetimeDB"))
  /\ (forall conn, connection = Some conn ->
      findReducer discoveredReducers reducerName = None ->
      res = rejected (Error ("Reducer metadata not found: " ++ reducerName)))
  /\ (forall conn entry, connection = Some conn ->
      findReducer discoveredReducers reducerName = Some entry ->
      methodMissing conn method = true ->
      res = rejected (Error ("Reducer method not found: " ++ method)))
  /\ (forall conn entry e, connection = Some conn ->
      findReducer discoveredReducers reducerName = Some entry ->
      methodMissing conn method = false ->
      marshal (r_fields entry) args = Throw e ->
      res = mkCallResult (Throw e) [])
  /\ (forall conn entry orderedArgs e, connection = Some conn ->
      findReducer discoveredReducers reducerName = Some entry ->
      methodMissing conn method = false ->
      marshal (r_fields entry) args = Normal orderedArgs ->
      invoke conn method orderedArgs = Throw e ->
      res = mkCallResult (Throw e) [(method, orderedArgs)])
  /\ (forall e, outcome res = Throw e ->
      connection = None
      \/ exists conn, connection = Some conn /\
         (findReducer discoveredReducers reducerName = None
          \/ methodMissing conn method = true
          \/ exists entry,
               findReducer discoveredReducers reducerName = Some entry /\
               ((marshal (r_fields entry) args = Throw e /\ issued res = [])
                \/ exists orderedArgs,
                     marshal (r_fields entry) args = Normal orderedArgs
                     /\ invoke conn method orderedArgs = Throw e
                     /\ issued res = [(method, orderedArgs)]))).
Proof.
  cbv zeta. unfold callReducer. split; [|split; [|split; [|split; [|split]]]].
  - by intros ->.
  - by intros conn -> ->.
  - by intros conn entry -> -> ->.
  - by intros conn entry e -> -> -> ->.
  - by intros conn entry orderedArgs e -> -> -> -> ->.
  - intros e. destruct connection as [conn|]; [|by left].
    destruct (findReducer discoveredReducers reducerName) as [entry|];
      [|intros _; right; exists conn; auto].
    destruct (methodMissing conn (toCamelCase reducerName)) eqn:Hm;
      [intros _; right; exists conn; auto|].
    destruct (marshal (r_fields entry) args) as [oa|e'|w] eqn:Hmar; simpl;
      intros Hout;
      [| |discriminate]; right; exists conn; (split; [done|]);
      right; right; exists entry; (split; [done|]).
    + right. by exists oa.
    + left. inversion Hout; subst. by split.
Qed.

(** C6, witness: no session; a name outside the catalog; a namespace without
    the method; a score that BigInt cannot read; and a server that refuses
    the call. *)
Lemma callReducer_rejections_witness :
  callReducer None [setAB] "set_ab" (VObj [])
    = rejected (Error "Not connected to SpacetimeDB")
  /\ callReducer (Some openSession) [setAB] "drop_all" (VObj [])
     = rejected (Error "Reducer metadata not found: drop_all")
  /\ callReducer (Some closedNamespace) [setAB] "set_ab" (VObj [])
     = rejected (Error "Reducer method not found: setAb")
  /\ callReducer (Some openSession) [setScore] "set_score"
       (VObj [("score", VStr "12abc")])
     = mkCallResult (Throw (SyntaxError "Cannot convert 12abc to a BigInt")) []
  /\ callReducer (Some refusingSession) [setAB] "set_ab"
       (VObj [("a", VNum (NumInt 1)); ("b", VStr "x")])
     = mkCallResult (Throw (Error "refused"))
         [("setAb", [VNum (NumInt 1); VStr "x"])].
Proof.
  split; [|split; [|split; [|split]]].
  - pose proof (callReducer_rejections None [setAB] "set_ab" (VObj [])) as H.
    cbv zeta in H. destruct H as (H & _). exact (H eq_refl).
  - pose proof (callReducer_rejections (Some openSession) [setAB] "drop_all"
                  (VObj [])) as H.
    cbv zeta in H. destruct H as (_ & H & _).
    exact (H openSession eq_refl eq_refl).
  - pose proof (callReducer_rejections (Some closedNamespace) [setAB] "set_ab"
                  (VObj [])) as H.
    cbv zeta in H. destruct H as (_ & _ & H & _).
    exact (H closedNamespace setAB eq_refl eq_refl eq_refl).
  - pose proof (callReducer_rejections (Some openSession) [setScore] "set_score"
                  (VObj [("score", VStr "12abc")])) as H.
    cbv zeta in H. destruct H as (_ & _ & _ & H & _).
    exact (H openSession setScore _ eq_refl eq_refl eq_refl eq_refl).
  - pose proof (callReducer_rejections (Some refusingSession) [setAB] "set_ab"
                  (VObj [("a", VNum (NumInt 1)); ("b", VStr "x")])) as H.
    cbv zeta in H. destruct H as (_ & _ & _ & _ & H & _).
    exact (H refusingSession setAB _ _ eq_refl eq_refl eq_refl eq_refl eq_refl).
Defined.

End ReducerCallerProofs.

Module AnalyzerProofs.
Import Text JS Types Analyzer Samples.

Lemma someNonePair_shape variants :
  someNonePair variants = true ->
  isOptionalType (Sum variants) = true
  /\ getTypeString (Sum variants)
     = match somePayload variants with
       | Some p => getTypeString p
       | None => "enum"
       end.
Proof.
  destruct variants as [|[a pa] [|[b pb] [|]]]; try discriminate.
  unfold someNonePair, somePayload, findSome, isOptionalType, lowerNames,
    names_include.
  cbn [getTypeString length Nat.eqb map fst List.find existsb lowerNames names_include].
  unfold lowerNames, names_include. cbn [map fst existsb].
  intros [[Ha Hb]%andb_prop|[Ha Hb]%andb_prop]%orb_prop;
    apply String.eqb_eq in Ha, Hb; rewrite Ha, Hb; cbn.
  - split; [done|]. by destruct pa.
  - split; [done|]. by destruct pb.
Qed.

(** Every entry of a cache that a run of analyzer calls has filled from the
    empty one is the fresh analysis of one of those calls, stored under the
    signature of its type. *)
Lemma analyzeEach_entries GeneratedModule safeStringify calls :
  forall (typeCache : gmap string (list FieldMetadata)) k fields,
  analyzeEach GeneratedModule safeStringify typeCache calls !! k = Some fields ->
  typeCache !! k = Some fields
  \/ exists t n, In (t, n) calls /\ safeStringify t = k
                 /\ fields = analyzeFresh GeneratedModule t n.
Proof.
  induction calls as [|[t n] calls IH]; intros typeCache k fields; simpl;
    [by left|].
  intros [H|(t' & n' & Hin & Hk & Hf)]%IH.
  - unfold analyzeAlgebraicType in H.
    destruct (typeCache !! safeStringify t) as [fs|] eqn:E; cbn [snd] in H;
      [by left|].
    destruct (decide (safeStringify t = k)) as [<-|Hne].
    + rewrite lookup_insert_eq in H. inversion H; subst.
      right. exists t, n. auto.
    + rewrite lookup_insert_ne in H by done. by left.
  - right. exists t', n'. auto.
Qed.

(** C1, as amended.  For every Sum whose variants are exactly two, named
    "some" and "none" in any casing, that is an element of a Product: analyze
    produces for that element a descriptor named after the element, with
    isOptional = true and with the type tag of the payload of the "some"
    variant; the tag is "enum" when that payload's own tag is "enum" or the
    variant carries no payload.  This holds on every cache the analyzer can
    hold, that is after any run of earlier calls starting from the empty
    cache, whether the Product is then found in the cache or not, as long
    as no earlier call was on a different type with the same structural
    signature. *)
Theorem optional_element_descriptor
  (GeneratedModule : list (string * Export))
  (safeStringify : AlgebraicType -> string)
  (calls : list (AlgebraicType * string))
  (elements : list (string * AlgebraicType)) (i : nat) (ename contextName : string)
  (variants : list (string * option AlgebraicType)) :
  (forall t n, In (t, n) calls ->
     safeStringify t = safeStringify (Product elements) -> t = Product elements) ->
  someNonePair variants = true ->
  elements !! i = Some (ename, Sum variants) ->
  exists f,
    (analyzeAlgebraicType GeneratedModule safeStringify
       (analyzeEach GeneratedModule safeStringify ∅ calls)
       (Product elements) contextName).1 !! i = Some f
    /\ name f = or_else ename "unknown"
    /\ isOptional f = true
    /\ type f = match somePayload variants with
                | Some p => getTypeString p
                | None => "enum"
                end.
Proof.
  intros Hsig Hpair Hi.
  destruct (someNonePair_shape variants Hpair) as [Hopt Hty].
  assert (Hfields :
    (analyzeAlgebraicType GeneratedModule safeStringify
       (analyzeEach GeneratedModule safeStringify ∅ calls)
       (Product elements) contextName).1
    = map (enhanceEnumField GeneratedModule) (analyzeProductType elements)).
  { unfold analyzeAlgebraicType.
    destruct (analyzeEach GeneratedModule safeStringify ∅ calls
                !! safeStringify (Product elements)) as [fields|] eqn:E;
      cbn [fst]; [|reflexivity].
    apply analyzeEach_entries in E as [E|(t & n & Hin & Hk & ->)];
      [by rewrite lookup_empty in E|].
    by rewrite (Hsig t n Hin Hk). }
  rewrite Hfields. eexists. split.
  - unfold analyzeProductType.
    rewrite !list_lookup_fmap, Hi. cbn [fmap option_fmap option_map]. reflexivity.
  - unfold enhanceEnumField, productField. cbn [enumValues].
    unfold extractEnumValues. rewrite Hopt. cbn. done.
Qed.

(** C1, witness: the optional string column of a player row, asked for
    after the analyzer has already cached a number and the player row
    itself. *)
Lemma optional_element_witness :
  someNonePair [("some", Some (Primitive String_)); ("none", Some (Product []))] = true
  /\ analyzeEach [] signature ∅ [(Primitive U32, "n"); (playerRow, "Player")]
       !! signature playerRow
     = Some (analyzeFresh [] playerRow "Player")
  /\ exists f,
       (analyzeAlgebraicType [] signature
          (analyzeEach [] signature ∅ [(Primitive U32, "n"); (playerRow, "Player")])
          playerRow "Other").1 !! 1%nat = Some f
       /\ name f = "nick_name" /\ isOptional f = true /\ type f = "string".
Proof.
  split; [reflexivity|]. split; [by vm_compute|].
  apply (optional_element_descriptor [] signature
           [(Primitive U32, "n"); (playerRow, "Player")]
           [("id", Primitive U32); ("nick_name", optionOf (Primitive String_));
            ("colour", optionOf colour)] 1 "nick_name" "Other"
           [("some", Some (Primitive String_)); ("none", Some (Product []))]);
    [|reflexivity|reflexivity].
  intros t n [[= <- <-]|[[= <- <-]|[]]] Hk; [|reflexivity].
  vm_compute in Hk. discriminate Hk.
Defined.

(** C1, counterexample: an optional wrapper around a two-colour enum, as a
    Product element, is described with the tag "enum"; and an optional
    wrapper passed to the analyzer as the top-level type is described with
    the tag "enum" and isOptional = false. *)
Lemma optional_enum_counterexample :
  someNonePair [("some", Some colour); ("none", Some (Product []))] = true
  /\ map (fun f => (name f, type f, isOptional f))
       (analyzeFresh [] playerRow "Player")
     = [("id", "u32", false); ("nick_name", "string", true);
        ("colour", "enum", true)]
  /\ map (fun f => (name f, type f, isOptional f))
       (analyzeFresh [] (optionOf (Primitive U32)) "maybe_count")
     = [("maybe_count", "enum", false)].
Proof. vm_compute. done. Qed.

(** *** Memoization *)

(** C8.  Two calls of analyze on inputs with equal structural signatures.
    The first call answers from the cache when the signature is there, and
    otherwise analyses its input and stores the field list under the
    signature; either way the cache it leaves holds the list it returned
    under that signature.  The second call returns the field list of the
    first, in the same order and with the same content, and leaves the
    cache as the first call left it: it is answered from the cache. *)
Theorem analyze_memoized
  (GeneratedModule : list (string * Export))
  (safeStringify : AlgebraicType -> string)
  (typeCache : gmap string (list FieldMetadata))
  (t1 t2 : AlgebraicType) (name1 name2 : string) :
  safeStringify t1 = safeStringify t2 ->
  let first := analyzeAlgebraicType GeneratedModule safeStringify typeCache t1 name1 in
  match typeCache !! safeStringify t1 with
  | Some fields => first = (fields, typeCache)
  | None =>
      first = (analyzeFresh GeneratedModule t1 name1,
               <[safeStringify t1 := analyzeFresh GeneratedModule t1 name1]> typeCache)
  end
  /\ first.2 !! safeStringify t1 = Some first.1
  /\ analyzeAlgebraicType GeneratedModule safeStringify first.2 t2 name2
     = (first.1, first.2).
Proof.
  intros Hkey. cbv zeta. unfold analyzeAlgebraicType. rewrite <- Hkey.
  destruct (typeCache !! safeStringify t1) as [fields|] eqn:E; cbn [fst snd].
  - by rewrite E.
  - by rewrite lookup_insert_eq.
Qed.

(** C8, witness: the player row analysed twice, under two context names;
    the first call fills the empty cache, the second is answered from it. *)
Lemma analyze_memoized_witness :
  signature playerRow = signature playerRow
  /\ analyzeAlgebraicType [] signature ∅ playerRow "Player"
     = (analyzeFresh [] playerRow "Player",
        <[signature playerRow := analyzeFresh [] playerRow "Player"]> ∅)
  /\ analyzeAlgebraicType [] signature
       (analyzeAlgebraicType [] signature ∅ playerRow "Player").2 playerRow "Other"
     = analyzeAlgebraicType [] signature ∅ playerRow "Player".
Proof.
  split; [reflexivity|].
  destruct (analyze_memoized [] signature ∅ playerRow playerRow "Player" "Other"
              eq_refl) as (Hfirst & _ & Hsecond).
  split; [exact Hfirst|].
  rewrite Hsecond.
  by destruct (analyzeAlgebraicType [] signature ∅ playerRow "Player").
Defined.

(** An entry of the cache is never replaced. *)
Lemma cache_entry_persists GeneratedModule safeStringify
  (typeCache : gmap string (list FieldMetadata)) t name k fields :
  typeCache !! k = Some fields ->
  (analyzeAlgebraicType GeneratedModule safeStringify typeCache t name).2 !! k
  = Some fields.
Proof.
  intros Hk. unfold analyzeAlgebraicType.
  destruct (typeCache !! safeStringify t) as [fs|] eqn:E; cbn [snd]; [done|].
  rewrite lookup_insert_ne; [done|]. intros <-. congruence.
Qed.

(** Calls made in between do not disturb the answer. *)
Lemma analyze_memoized_across_calls GeneratedModule safeStringify
  (typeCache : gmap string (list FieldMetadata)) t1 t2 name1 name2 calls :
  safeStringify t1 = safeStringify t2 ->
  let first := analyzeAlgebraicType GeneratedModule safeStringify typeCache t1 name1 in
  let later := analyzeEach GeneratedModule safeStringify first.2 calls in
  analyzeAlgebraicType GeneratedModule safeStringify later t2 name2
  = (first.1, later).
Proof.
  intros Hkey. cbv zeta.
  set (first := analyzeAlgebraicType GeneratedModule safeStringify typeCache t1 name1).
  assert (Hfirst : first.2 !! safeStringify t1 = Some first.1).
  { unfold first, analyzeAlgebraicType.
    destruct (typeCache !! safeStringify t1) as [fs|] eqn:E; cbn [fst snd];
      [done|by rewrite lookup_insert_eq]. }
  generalize dependent (first.2). intros c Hc.
  revert c Hc. induction calls as [|[t n] calls IH]; intros c Hc; simpl.
  - unfold analyzeAlgebraicType. by rewrite <- Hkey, Hc.
  - apply IH. by apply cache_entry_persists.
Qed.

End AnalyzerProofs.

Module IntrospectorProofs.
Import Text JS Types Analyzer Introspector Samples.

Section Sorting.
Context {A : Type} (R : A -> A -> Prop) (cmp : A -> A -> Z).
Hypothesis cmp_respects :
  forall a a' b b', R a a' -> R b b' -> cmp a b = cmp a' b'.

Lemma insert_by_related x x' l l' :
  R x x' -> Forall2 R l l' ->
  Forall2 R (insert_by cmp x l) (insert_by cmp x' l').
Proof.
  intros Hx Hl. induction Hl as [|y y' l l' Hy Hl IH]; simpl.
  - by constructor.
  - rewrite (cmp_respects x x' y y' Hx Hy).
    destruct (cmp x' y' <? 0)%Z; repeat constructor; done.
Qed.

Lemma sort_by_related l l' :
  Forall2 R l l' -> Forall2 R (sort_by cmp l) (sort_by cmp l').
Proof.
  unfold sort_by. intros Hl.
  assert (Hacc : Forall2 R (@nil A) (@nil A)) by constructor.
  revert Hacc. generalize (@nil A) at 1 3. generalize (@nil A).
  induction Hl as [|x x' l l' Hx Hl IH]; intros acc' acc Hacc; simpl; [done|].
  apply IH. by apply insert_by_related.
Qed.

End Sorting.

Section Discovery.
Variable GeneratedModule : list (string * Export).
Variable safeStringify : AlgebraicType -> string.
Variable localeCompare : string -> string -> Z.
Variable Draws : Type.
Variable generateExampleArgs : Draws -> list FieldMetadata -> JSValue.



Lemma introspectTable_related c1 c2 n :
  option_Forall2 sameTable
    (introspectTable GeneratedModule safeStringify c1 n).1
    (introspectTable GeneratedModule safeStringify c2 n).1.
Proof.
  unfold introspectTable.
  destruct (lookupExport GeneratedModule n) as [e|]; [|constructor].
  destruct (exp_accessor e) as [[ty|err]|]; try constructor.
  destruct (analyzeAlgebraicType _ _ c1 ty n), (analyzeAlgebraicType _ _ c2 ty n).
  constructor. done.
Qed.

Lemma collectTables_related names : forall c1 c2 acc1 acc2,
  Forall2 sameTable acc1 acc2 ->
  Forall2 sameTable
    (collectTables GeneratedModule safeStringify c1 names acc1).1
    (collectTables GeneratedModule safeStringify c2 names acc2).1.
Proof.
  induction names as [|n names IH]; intros c1 c2 acc1 acc2 Hacc; simpl; [done|].
  pose proof (introspectTable_related c1 c2 n) as Hn.
  destruct (introspectTable _ _ c1 n) as [e1 c1'],
           (introspectTable _ _ c2 n) as [e2 c2']. simpl in Hn.
  apply IH. destruct Hn; [|done]. apply Forall2_app; [done|]. by constructor.
Qed.

Lemma introspectReducer_related c1 c2 d1 d2 n :
  option_Forall2 sameReducer
    (introspectReducer GeneratedModule safeStringify Draws generateExampleArgs c1 d1 n).1
    (introspectReducer GeneratedModule safeStringify Draws generateExampleArgs c2 d2 n).1.
Proof.
  unfold introspectReducer.
  destruct (lookupExport GeneratedModule n) as [e|]; [|constructor].
  destruct (exp_accessor e) as [[ty|err]|]; try constructor.
  destruct (analyzeAlgebraicType _ _ c1 ty n), (analyzeAlgebraicType _ _ c2 ty n).
  constructor. done.
Qed.

Lemma collectReducers_related names : forall c1 c2 d1 d2 i1 i2 acc1 acc2,
  Forall2 sameReducer acc1 acc2 ->
  Forall2 sameReducer
    (collectReducers GeneratedModule safeStringify Draws generateExampleArgs
       c1 d1 i1 names acc1).1
    (collectReducers GeneratedModule safeStringify Draws generateExampleArgs
       c2 d2 i2 names acc2).1.
Proof.
  induction names as [|n names IH]; intros c1 c2 d1 d2 i1 i2 acc1 acc2 Hacc;
    simpl; [done|].
  pose proof (introspectReducer_related c1 c2 (d1 i1) (d2 i2) n) as Hn.
  destruct (introspectReducer _ _ _ _ c1 (d1 i1) n) as [e1 c1'],
           (introspectReducer _ _ _ _ c2 (d2 i2) n) as [e2 c2']. simpl in Hn.
  apply IH. destruct Hn; [|done]. apply Forall2_app; [done|]. by constructor.
Qed.

Lemma compareTables_respects a a' b b' :
  sameTable a a' -> sameTable b b' ->
  compareTables localeCompare a b = compareTables localeCompare a' b'.
Proof. intros (_ & Ha & _) (_ & Hb & _). unfold compareTables. by rewrite Ha, Hb. Qed.

Lemma compareReducers_respects a a' b b' :
  sameReducer a a' -> sameReducer b b' ->
  compareReducers localeCompare a b = compareReducers localeCompare a' b'.
Proof.
  intros (_ & Ha & Hca) (_ & Hb & Hcb). unfold compareReducers.
  by rewrite Ha, Hb, Hca, Hcb.
Qed.

Lemma discoverTables_related c1 c2 :
  Forall2 sameTable
    (discoverTables GeneratedModule safeStringify localeCompare c1).1
    (discoverTables GeneratedModule safeStringify localeCompare c2).1.
Proof.
  unfold discoverTables.
  pose proof (collectTables_related (findTableTypes GeneratedModule) c1 c2 [] []
                ltac:(constructor)) as H.
  destruct (collectTables _ _ c1 _ []) as [l1 c1'],
           (collectTables _ _ c2 _ []) as [l2 c2']. simpl in *.
  eapply sort_by_related; [|done]. apply compareTables_respects.
Qed.

Lemma discoverReducers_related c1 c2 d1 d2 :
  Forall2 sameReducer
    (discoverReducers GeneratedModule safeStringify localeCompare Draws
       generateExampleArgs c1 d1).1
    (discoverReducers GeneratedModule safeStringify localeCompare Draws
       generateExampleArgs c2 d2).1.
Proof.
  unfold discoverReducers.
  pose proof (collectReducers_related (findReducerTypes GeneratedModule)
                c1 c2 d1 d2 0 0 [] [] ltac:(constructor)) as H.
  destruct (collectReducers _ _ _ _ c1 d1 0 _ []) as [l1 c1'],
           (collectReducers _ _ _ _ c2 d2 0 _ []) as [l2 c2']. simpl in *.
  eapply sort_by_related; [|done]. apply compareReducers_respects.
Qed.

Lemma related_names {A} (R : A -> A -> Prop) {B} (f : A -> B) l l' :
  (forall a b, R a b -> f a = f b) -> Forall2 R l l' -> map f l = map f l'.
Proof. intros Hf. induction 1; simpl; [done|]. f_equal; auto. Qed.

(** C7.  With the generated module unchanged, discoverTables called twice
    (the second call starting from the cache the first one left) yields
    catalogs of equal length whose names agree position by position, hence
    as sets, and whose sort keys agree position by position; likewise
    discoverReducers, whatever the example generator draws in the two
    calls.  No two entries change places, equal sort keys or not. *)
Theorem discovery_twice_same_catalog
  (typeCache : gmap string (list FieldMetadata)) (draws1 draws2 : nat -> Draws) :
  let tables1 := discoverTables GeneratedModule safeStringify localeCompare typeCache in
  let tables2 := discoverTables GeneratedModule safeStringify localeCompare tables1.2 in
  let reducers1 :=
    discoverReducers GeneratedModule safeStringify localeCompare Draws
      generateExampleArgs typeCache draws1 in
  let reducers2 :=
    discoverReducers GeneratedModule safeStringify localeCompare Draws
      generateExampleArgs reducers1.2 draws2 in
  (length tables1.1 = length tables2.1
   /\ map t_name tables1.1 = map t_name tables2.1
   /\ map t_displayName tables1.1 = map t_displayName tables2.1)
  /\ (length reducers1.1 = length reducers2.1
      /\ map r_name reducers1.1 = map r_name reducers2.1
      /\ map (fun r => (r_category r, r_displayName r)) reducers1.1
         = map (fun r => (r_category r, r_displayName r)) reducers2.1).
Proof.
  cbv zeta. split.
  - pose proof (discoverTables_related typeCache
        (discoverTables GeneratedModule safeStringify localeCompare typeCache).2) as H.
    split; [by eapply Forall2_length|].
    split; (eapply related_names; [|exact H]); by intros a b (? & ? & ?).
  - pose proof (discoverReducers_related typeCache
        (discoverReducers GeneratedModule safeStringify localeCompare Draws
           generateExampleArgs typeCache draws1).2 draws1 draws2) as H.
    split; [by eapply Forall2_length|].
    split; (eapply related_names; [|exact H]); intros a b (? & ? & ?);
      [done|congruence].
Qed.

End Discovery.

(** The sample module: the export whose accessor raises is skipped, the
    event subscription methods are not reducers, and both catalogs come
    out sorted. *)
Example sample_catalogs :
  map t_name (discoverTables sampleModule signature byteCompare ∅).1
    = ["audit_log"; "player"]
  /\ map (fun r => (r_category r, r_name r, r_isDestructive r))
       (discoverReducers sampleModule signature byteCompare unit noExample ∅
          (fun _ => tt)).1
     = [("Other", "set_ab", false); ("User Management", "delete_player", true)].
Proof. vm_compute. done. Qed.

End IntrospectorProofs.

Module ConnectionProofs.
Import JS Connection Samples.


(** *** The retry schedule *)

Lemma next_timer_in ts : forall t rest,
  next_timer ts = Some (t, rest) ->
  In t ts /\ (forall u, In u rest -> In u ts).
Proof.
  induction ts as [|x ts IH]; intros t rest; simpl; [discriminate|].
  destruct (next_timer ts) as [[m r']|] eqn:E.
  - destruct (IH m r' eq_refl) as [Hm Hr].
    destruct (Qle_bool (due x) (due m)); intros [= <- <-].
    + split; auto.
    + split; [auto|]. intros u [->|Hu]; auto.
  - intros [= <- <-]. split; [auto|]. intros u [].
Qed.

Lemma punctual_flags st a b : punctual st -> punctual (set_flags st a b).
Proof. done. Qed.

Lemma punctual_dispatch st f : punctual st -> punctual (dispatch st f).
Proof. done. Qed.

Lemma punctual_setTimeout st t d :
  (0 <= d)%Q -> task_count_ok t -> punctual st -> punctual (setTimeout st t d).
Proof.
  intros Hd Ht [Hts Hss]. split; [|done]. simpl.
  apply Forall_app. split; [done|]. repeat constructor; [simpl; lra|done].
Qed.

Lemma retryDelay_nonneg cfg n :
  sound_config cfg -> (0 <= n)%Z -> (0 <= retryDelay cfg n)%Q.
Proof.
  intros [_ Hm] Hn. unfold retryDelay.
  apply Qmult_le_0_compat; [apply Qmult_le_0_compat; [done|lra]|].
  change 0%Q with (inject_Z 0). rewrite <- Zle_Qle. lia.
Qed.

Lemma punctual_connect st n captured :
  (0 <= n)%Z -> punctual st -> punctual (connect st n captured).
Proof.
  intros Hn [Hts Hss]. unfold connect.
  destruct (isConnecting st || captured); [done|]. split; [done|]. simpl.
  apply Forall_app. split; [done|]. by repeat constructor.
Qed.

Lemma exec_punctual cfg st e st' :
  sound_config cfg -> punctual st -> exec cfg st e = Some st' -> punctual st'.
Proof.
  intros Hcfg Hp. destruct e as [| |sid i t|sid m|sid m|sid|dt| |m|sid m]; simpl.
  - intros [= <-]. by apply punctual_connect.
  - intros [= <-]. unfold disconnect.
    destruct (truthy _); [|done]. apply punctual_setTimeout; [lra|done|].
    destruct (connSession _); apply Hp.
  - destruct (nth_error _ sid); [|done]. intros [= <-]. unfold onConnect.
    apply punctual_setTimeout; [apply Hcfg|done|].
    destruct (truthy _); apply Hp.
  - destruct (nth_error _ sid) as [s|] eqn:E; [|done]. intros [= <-].
    assert (0 <= s_retryCount s)%Z as Hs.
    { destruct Hp as [_ Hss]. rewrite List.Forall_forall in Hss.
      apply Hss. by eapply nth_error_In. }
    unfold onConnectError. destruct (negb _); [|apply Hp].
    destruct (_ <? _)%Z; [|apply Hp].
    apply punctual_setTimeout; [by apply retryDelay_nonneg|simpl; lia|apply Hp].
  - destruct (nth_error _ sid) as [s|] eqn:E; [|done]. intros [= <-].
    assert (0 <= s_retryCount s)%Z as Hs.
    { destruct Hp as [_ Hss]. rewrite List.Forall_forall in Hss.
      apply Hss. by eapply nth_error_In. }
    unfold onBuildFailure. destruct (negb _); [|apply Hp].
    destruct (_ <? _)%Z; [|apply Hp].
    apply punctual_setTimeout; [by apply retryDelay_nonneg|simpl; lia|apply Hp].
  - destruct (nth_error _ sid); [|done]. intros [= <-]. apply Hp.
  - destruct (Qle_bool 0 dt) eqn:Hdt; [|done]. simpl.
    destruct (forallb _ _) eqn:Hall; [|done]. intros [= <-].
    destruct Hp as [Hts Hss]. split; [|done]. simpl.
    rewrite forallb_forall in Hall. rewrite List.Forall_forall in Hts |- *.
    intros t Ht. destruct (Hts t Ht) as [_ Hok]. split; [|done].
    apply Qle_bool_iff. auto.
  - destruct (next_timer _) as [[t rest]|] eqn:E; [|done].
    destruct (Qle_bool _ _); [|done]. intros [= <-].
    destruct (next_timer_in _ _ _ E) as [Hin Hrest].
    destruct Hp as [Hts Hss]. rewrite List.Forall_forall in Hts.
    assert (punctual (set_timers st rest)) as Hp'.
    { split; [|done]. simpl. apply List.Forall_forall. auto. }
    destruct (Hts t Hin) as [_ Hok].
    destruct (task t); simpl; [by apply punctual_connect|done|done].
  - destruct (next_timer _) as [[t rest]|] eqn:E; [|done].
    destruct (Qle_bool _ _); [|done].
    destruct (task t) as [| |sid]; try done. intros [= <-].
    destruct (next_timer_in _ _ _ E) as [Hin Hrest].
    destruct Hp as [Hts Hss]. rewrite List.Forall_forall in Hts.
    split; [|done]. simpl. apply List.Forall_forall. auto.
  - destruct (existsb _ _); [|done]. intros [= <-]. apply Hp.
Qed.

Lemma run_punctual cfg es : forall st st',
  sound_config cfg -> punctual st -> run cfg st es = Some st' -> punctual st'.
Proof.
  induction es as [|e es IH]; intros st st' Hcfg Hp; simpl.
  - by intros [= <-].
  - destruct (exec cfg st e) as [st1|] eqn:E; [|done].
    apply IH; [done|]. by eapply exec_punctual.
Qed.

Lemma initial_punctual : punctual initial.
Proof. split; constructor. Qed.

(** C4.  When a connection failure of the session built by attempt [n] is
    handled, in the onConnectError callback or in the catch around the
    build: if the intentional flag is not set and [n < maxRetries], exactly
    one timer is added, due [retryBackoffMultiplier * 1000 * (n + 1)]
    milliseconds after the present and calling connect(n + 1); if
    [n >= maxRetries] or the flag is set, no timer is added.  A timer runs
    only at its due time. *)
Theorem retry_after_backoff (cfg : Config) (st : State) (s : Session)
  (message : string) (thrown : option string) :
  let n := s_retryCount s in
  let retry :=
    mkTimer (now st + retryBackoffMultiplier cfg * 1000 * inject_Z (n + 1))%Q
            (RetryConnect (n + 1) (s_isConnected s)) in
  let expected :=
    if negb (isIntentionalDisconnect st) && (n <? maxRetries cfg)%Z
    then timers st ++ [retry] else timers st in
  timers (onConnectError cfg st s message) = expected
  /\ timers (onBuildFailure cfg st s thrown) = expected
  /\ (forall st0 st1, punctual st0 -> exec cfg st0 Fire = Some st1 ->
      exists t rest,
        next_timer (timers st0) = Some (t, rest)
        /\ (due t == now st0)%Q
        /\ st1 = runTask (set_timers st0 rest) (task t)).
Proof.
  cbv zeta. split; [|split].
  - unfold onConnectError.
    destruct (isIntentionalDisconnect st); simpl; [done|].
    by destruct (s_retryCount s <? maxRetries cfg)%Z.
  - unfold onBuildFailure.
    destruct (isIntentionalDisconnect st); simpl; [done|].
    by destruct (s_retryCount s <? maxRetries cfg)%Z.
  - intros st0 st1 [Hts _]. simpl.
    destruct (next_timer (timers st0)) as [[t rest]|] eqn:E; [|done].
    destruct (Qle_bool (due t) (now st0)) eqn:Hle; [|done]. intros [= <-].
    exists t, rest. split; [done|]. split; [|done].
    apply Qle_bool_iff in Hle. destruct (next_timer_in _ _ _ E) as [Hin _].
    rewrite List.Forall_forall in Hts. destruct (Hts t Hin) as [Hge _].
    by apply Qle_antisym.
Qed.


(** C4, witness: with the default configuration the failure of attempt 0 at
    10 ms schedules the retry for 2010 ms; it cannot run before, and at
    2010 ms it builds the session of attempt 1. *)
Lemma retry_after_backoff_witness :
  punctual afterFirstError
  /\ timers afterFirstError = [mkTimer (10 + 2 * 1000 * inject_Z (0 + 1))%Q (RetryConnect 1 false)]
  /\ exec defaultConfig afterFirstError Fire = None
  /\ exists st1,
       exec defaultConfig (set_now afterFirstError 2010) Fire = Some st1
       /\ sessions st1 = [mkSession 0 false None; mkSession 1 false None].
Proof.
  assert (Hp : punctual afterFirstError).
  { apply (run_punctual defaultConfig
             [CallConnect; Elapse 10; HandshakeError 0 "refused"] initial);
      [split; simpl; lra|apply initial_punctual|reflexivity]. }
  split; [exact Hp|]. split; [reflexivity|]. split; [reflexivity|].
  assert (Hp' : punctual (set_now afterFirstError 2010)).
  { split; [|apply Hp]. repeat constructor; vm_compute; discriminate. }
  destruct (retry_after_backoff defaultConfig initial (mkSession 0 false None)
              "refused" None) as (_ & _ & Hfire).
  destruct (Hfire (set_now afterFirstError 2010)
              (connect (set_timers (set_now afterFirstError 2010) []) 1 false)
              Hp' eq_refl) as (t & rest & Hnext & Hdue & Hst).
  eexists. split; reflexivity.
Defined.

(** *** A retry that outlives an intentional disconnect *)


(** C5.  The trace [staleRetryTrace]: attempt 0 fails at 10 ms (retry due at
    2010 ms), the user connects by hand and succeeds, disconnects at 200 ms
    and connects again at once.  At 2010 ms the retry of attempt 0 runs
    connect(1): it passes the entry guard, sets the state to "connecting"
    and builds a fourth session, although the disconnect flagged the retry
    path as ended and a session is open. *)
Lemma stale_retry_runs_after_disconnect :
  option_map observe (run defaultConfig initial staleRetryTrace)
  = Some (true, false, VStr "connecting",
          [ mkSession 0 false None; mkSession 0 false None;
            mkSession 0 false (Some "tok"); mkSession 1 false (Some "tok") ],
          [1%nat]).
Proof. vm_compute. reflexivity. Qed.

(** The same trace without the second connect: the retry reconnects a user
    who chose to disconnect. *)
Lemma retry_reconnects_after_disconnect :
  option_map observe (run defaultConfig initial retryAfterDisconnectTrace)
  = Some (true, false, VStr "connecting",
          [ mkSession 0 false None; mkSession 0 false None;
            mkSession 1 false (Some "tok") ],
          [1%nat]).
Proof. vm_compute. reflexivity. Qed.

(** Why: the callback of a retry timer is connect itself, and neither reads
    the intentional flag. *)
Lemma retry_ignores_flag st n :
  isConnecting st = false ->
  sessions (runTask st (RetryConnect n false))
  = sessions st ++ [mkSession n false
                      (match token st with
                       | Some t => if truthy (VStr t) then Some t else None
                       | None => None
                       end)].
Proof. intros H. simpl. unfold connect. by rewrite H. Qed.

(** The part of the invariant that does hold: a connect that passes its
    guard leaves the flag cleared. *)
Lemma connect_clears_flag st n captured :
  isConnecting st || captured = false ->
  isIntentionalDisconnect (connect st n captured) = false.
Proof. intros H. unfold connect. by rewrite H. Qed.

End ConnectionProofs.

(* ===================================================================== *)
(** ** Decimal text: printing and parsing integers *)
(* ===================================================================== *)

Module DecimalProofs.
Import Text JS.

Lemma digit_cases d : (0 <= d < 10)%Z ->
  d = 0%Z \/ d = 1%Z \/ d = 2%Z \/ d = 3%Z \/ d = 4%Z \/ d = 5%Z \/ d = 6%Z
  \/ d = 7%Z \/ d = 8%Z \/ d = 9%Z.
Proof. lia. Qed.

Lemma digit_char_spec d : (0 <= d < 10)%Z ->
  digit_val (digit_char d) = d /\ is_digit (digit_char d) = true
  /\ is_space (digit_char d) = false.
Proof.
  intros H. destruct (digit_cases d H) as [->|[->|[->|[->|[->|[->|[->|[->|[->| ->]]]]]]]]];
    by vm_compute.
Qed.

Lemma nat_digits_val f : forall z acc,
  (0 <= z < 10 ^ Z.of_nat f)%Z ->
  digits_val 0 (nat_digits f z acc) = digits_val z acc.
Proof.
  induction f as [|f IH]; intros z acc Hz.
  - simpl in *. by replace z with 0%Z by lia.
  - cbn [nat_digits]. 
    assert (Hd : (0 <= z mod 10 < 10)%Z) by (apply Z.mod_pos_bound; lia).
    destruct (digit_char_spec _ Hd) as (Hv & _ & _).
    destruct (z <? 10)%Z eqn:E.
    + apply Z.ltb_lt in E. cbn [digits_val]. rewrite Hv.
      rewrite Z.mod_small by lia. f_equal.
    + apply Z.ltb_ge in E. rewrite IH.
      * cbn [digits_val]. rewrite Hv. f_equal.
        pose proof (Z.div_mod z 10). lia.
      * rewrite Nat2Z.inj_succ, Z.pow_succ_r in Hz by lia.
        split; [apply Z.div_pos; lia|]. apply Z.div_lt_upper_bound; lia.
Qed.

Lemma nat_digits_chars (p : ascii -> bool) f : forall z acc,
  (forall d, (0 <= d < 10)%Z -> p (digit_char d) = true) ->
  all_chars p acc = true -> all_chars p (nat_digits f z acc) = true.
Proof.
  induction f as [|f IH]; intros z acc Hp Hacc; [done|].
  cbn [nat_digits].
  assert (all_chars p (String (digit_char (z mod 10)) acc) = true) as H.
  { simpl. rewrite Hacc, Hp; [done|]. apply Z.mod_pos_bound. lia. }
  destruct (z <? 10)%Z; [done|]. by apply IH.
Qed.

Lemma nat_digits_nonempty f : forall z acc,
  acc <> "" \/ f <> 0%nat -> nat_digits f z acc <> "".
Proof.
  induction f as [|f IH]; intros z acc H; simpl.
  - by destruct H.
  - destruct (z <? 10)%Z; [done|]. apply IH. by left.
Qed.

Lemma fuel_enough a : (0 <= a)%Z ->
  (a < 10 ^ Z.of_nat (S (Z.to_nat (Z.log2 a))))%Z.
Proof.
  intros Ha. rewrite Nat2Z.inj_succ, Z2Nat.id by apply Z.log2_nonneg.
  destruct (decide (a = 0%Z)) as [->|Hne]; [by vm_compute|].
  destruct (Z.log2_spec a) as [_ Hlt]; [lia|].
  eapply Z.lt_le_trans; [exact Hlt|].
  apply Z.pow_le_mono_l. lia.
Qed.

(** The digits of a non-negative integer. *)
Lemma digits_of_nonneg a : (0 <= a)%Z ->
  let body := nat_digits (S (Z.to_nat (Z.log2 a))) a "" in
  is_digits body = true /\ digits_val 0 body = a
  /\ all_chars (fun c => negb (is_space c)) body = true.
Proof.
  intros Ha body. split; [|split].
  - unfold is_digits. apply andb_true_intro. split.
    + apply negb_true_iff, String.eqb_neq, nat_digits_nonempty. by right.
    + apply nat_digits_chars; [|done]. intros d Hd. by apply digit_char_spec.
  - unfold body. rewrite nat_digits_val by (split; [done|by apply fuel_enough]).
    reflexivity.
  - apply nat_digits_chars; [|done]. intros d Hd.
    destruct (digit_char_spec d Hd) as (_ & _ & ->). done.
Qed.

Lemma rev_string_chars p s : forall acc,
  all_chars p (rev_string acc s) = all_chars p s && all_chars p acc.
Proof.
  induction s as [|c s IH]; intros acc; simpl; [done|].
  rewrite IH. simpl. destruct (p c), (all_chars p s), (all_chars p acc); done.
Qed.

Lemma append_assoc_string (a b c : string) :
  String.append (String.append a b) c = String.append a (String.append b c).
Proof.
  induction a as [|x a IH]; [done|].
  change (String x (String.append (String.append a b) c)
          = String x (String.append a (String.append b c))).
  by rewrite IH.
Qed.

Lemma append_empty_r (a : string) : String.append a "" = a.
Proof.
  induction a as [|x a IH]; [done|].
  change (String x (String.append a "") = String x a). by rewrite IH.
Qed.

Lemma rev_string_acc s : forall acc,
  rev_string acc s = String.append (rev_string "" s) acc.
Proof.
  induction s as [|c s IH]; intros acc; [done|].
  change (rev_string acc (String c s)) with (rev_string (String c acc) s).
  change (rev_string "" (String c s)) with (rev_string (String c "") s).
  rewrite IH, (IH (String c "")), append_assoc_string. reflexivity.
Qed.

Lemma rev_string_append s t :
  rev_string "" (String.append s t)
  = String.append (rev_string "" t) (rev_string "" s).
Proof.
  induction s as [|c s IH].
  - change (String.append "" t) with t. by rewrite append_empty_r.
  - change (String.append (String c s) t) with (String c (String.append s t)).
    change (rev_string "" (String c (String.append s t)))
      with (rev_string (String c "") (String.append s t)).
    change (rev_string "" (String c s)) with (rev_string (String c "") s).
    rewrite rev_string_acc, IH, (rev_string_acc s (String c "")).
    by rewrite append_assoc_string.
Qed.

Lemma rev_string_involutive s : rev_string "" (rev_string "" s) = s.
Proof.
  induction s as [|c s IH]; [done|].
  change (rev_string "" (String c s)) with (rev_string (String c "") s).
  rewrite (rev_string_acc s (String c "")), rev_string_append, IH. reflexivity.
Qed.

Lemma drop_space_id s :
  all_chars (fun c => negb (is_space c)) s = true -> drop_space s = s.
Proof. destruct s as [|c s]; simpl; [done|]. by destruct (is_space c). Qed.

Lemma trim_id s :
  all_chars (fun c => negb (is_space c)) s = true -> trim s = s.
Proof.
  intros H. unfold trim. rewrite (drop_space_id s H).
  rewrite drop_space_id by (by rewrite rev_string_chars, H).
  apply rev_string_involutive.
Qed.

Lemma digit_not_sign c : is_digit c = true ->
  Ascii.eqb c "-"%char = false /\ Ascii.eqb c "+"%char = false.
Proof.
  destruct c as [[] [] [] [] [] [] [] []]; try discriminate; by vm_compute.
Qed.

Lemma signed_decimal_print z : 
  trim (Z_to_string z) = Z_to_string z
  /\ Z_to_string z <> ""
  /\ signed_decimal (Z_to_string z) = Some z.
Proof.
  unfold Z_to_string.
  destruct (digits_of_nonneg (Z.abs z) (Z.abs_nonneg z)) as (Hd & Hv & Hs).
  set (body := nat_digits _ _ _) in *.
  destruct (z <? 0)%Z eqn:E.
  - apply Z.ltb_lt in E. split; [|split]; [|done|].
    + apply trim_id. simpl. by rewrite Hs.
    + simpl. rewrite Hd, Hv. f_equal. lia.
  - apply Z.ltb_ge in E. split; [by apply trim_id|].
    assert (body <> "") as Hne.
    { unfold is_digits in Hd. apply andb_prop in Hd as [Hd _].
      by apply negb_true_iff, String.eqb_neq in Hd. }
    split; [done|].
    destruct body as [|c r] eqn:Hb; [done|].
    assert (is_digit c = true) as Hc.
    { unfold is_digits in Hd. apply andb_prop in Hd as [_ Hd]. simpl in Hd.
      by apply andb_prop in Hd as [? _]. }
    destruct (digit_not_sign c Hc) as [Hm Hp].
    unfold signed_decimal. rewrite Hm, Hp, Hd, Hv. f_equal. lia.
Qed.

(** Decimal text written for an integer reads back as that integer, as a
    BigInt and as a number. *)
Lemma bigint_of_decimal z : BigInt_ (VStr (Z_to_string z)) = Normal z.
Proof.
  destruct (signed_decimal_print z) as (Ht & Hne & Hs).
  simpl. unfold string_to_bigint. rewrite Ht.
  apply String.eqb_neq in Hne. rewrite Hne. by rewrite Hs.
Qed.

Lemma number_of_decimal z : Number_ (VStr (Z_to_string z)) = Normal (NumInt z).
Proof.
  destruct (signed_decimal_print z) as (Ht & Hne & Hs).
  simpl. unfold string_to_number. rewrite Ht.
  apply String.eqb_neq in Hne. rewrite Hne. by rewrite Hs.
Qed.

End DecimalProofs.

(* ===================================================================== *)
(** ** serializeForRedux: the shape of what it returns *)
(* ===================================================================== *)

Module SerializationProofs.
Import Text JS Serialization DecimalProofs.

(** Induction over values that reaches inside arrays and objects. *)
Lemma JSValue_nested_ind (P : JSValue -> Prop) :
  P VUndefined -> P VNull -> (forall b, P (VBool b)) -> (forall n, P (VNum n)) ->
  (forall z, P (VBigInt z)) -> (forall s, P (VStr s)) ->
  (forall elems, Forall P elems -> P (VArr elems)) ->
  (forall props, Forall (fun kv => P (snd kv)) props -> P (VObj props)) ->
  P VFun -> forall v, P v.
Proof.
  intros Hu Hn Hb Hnum Hbig Hs Harr Hobj Hf.
  fix IH 1. intros [| |b|n|z|s|elems|props|].
  - exact Hu.
  - exact Hn.
  - apply Hb.
  - apply Hnum.
  - apply Hbig.
  - apply Hs.
  - apply Harr. induction elems as [|e elems IHl]; constructor; [apply IH|exact IHl].
  - apply Hobj. induction props as [|[k v] props IHl]; constructor; [apply IH|exact IHl].
  - exact Hf.
Qed.

Lemma serialize_array elems :
  serializeForRedux (VArr elems)
  = (l <- serializeElements elems ;; Normal (VArr l)).
Proof. reflexivity. Qed.

(** A timestamp that is rendered at all is rendered as a text. *)
Lemma timestamp_text field w :
  timestampToISO field = Normal w -> exists s, w = VStr s.
Proof.
  unfold timestampToISO.
  destruct (toString_method field) as [micros| |]; simpl; try discriminate.
  destruct (string_to_number micros) as [[z|]| |]; simpl; try discriminate.
  destruct (Z.abs z <=? 2 ^ 53)%Z; [intros [= <-]; eauto|].
  by destruct (8650000000000000000 <=? Z.abs z)%Z.
Qed.

Lemma serialize_object props :
  serializeForRedux (VObj props)
  = if negb (is_undefined (own TIMESTAMP_KEY props))
    then timestampToISO (own TIMESTAMP_KEY props)
    else if plain_record props
    then ps <- serializeEntries props ;; Normal (VObj ps)
    else match serializeForRedux (VObj props) with
         | Normal v => OutOfFragment "" | c => c
         end.
Proof.
  unfold plain_record. cbn [serializeForRedux].
  destruct (is_undefined (own TIMESTAMP_KEY props)); [|done]. cbn [negb andb].
  destruct (String.eqb (typeof (own "toHexString" props)) "function"); [done|].
  cbn [negb andb]. by destruct (overrides_object_members props).
Qed.

Lemma serialize_object_cases props w :
  serializeForRedux (VObj props) = Normal w ->
  (is_undefined (own TIMESTAMP_KEY props) = false /\ exists s, w = VStr s)
  \/ (plain_record props = true
      /\ exists ps, serializeEntries props = Normal ps /\ w = VObj ps).
Proof.
  rewrite serialize_object.
  destruct (is_undefined (own TIMESTAMP_KEY props)) eqn:Ets; cbn [negb].
  - destruct (plain_record props).
    + destruct (serializeEntries props) as [ps| |]; simpl; try discriminate.
      intros [= <-]. right. eauto.
    + by destruct (serializeForRedux (VObj props)).
  - intros H%timestamp_text. by left.
Qed.

(** What serialization does to the outermost constructor. *)
Lemma serialize_shape v w :
  serializeForRedux v = Normal w ->
  (is_undefined w = is_undefined v)
  /\ (String.eqb (typeof w) "function" = String.eqb (typeof v) "function").
Proof.
  destruct v as [| |b|n|z|s|elems|props|]; try (intros [= <-]; done).
  - rewrite serialize_array. destruct (serializeElements elems); simpl; try discriminate.
    by intros [= <-].
  - by intros [(_ & s & ->)|(_ & ps & _ & ->)]%serialize_object_cases.
Qed.

Lemma entries_assoc props : forall ps k,
  serializeEntries props = Normal ps ->
  match assoc k props with
  | Some v => exists v', serializeForRedux v = Normal v' /\ assoc k ps = Some v'
  | None => assoc k ps = None
  end.
Proof.
  induction props as [|[k0 v0] props IH]; intros ps k.
  - intros [= <-]. done.
  - cbn [serializeEntries].
    destruct (serializeForRedux v0) as [v0'| |] eqn:E0; simpl; try discriminate.
    fold serializeEntries.
    destruct (serializeEntries props) as [ps'| |] eqn:Eps; simpl; try discriminate.
    intros [= <-]. simpl. destruct (String.eqb k0 k); [eauto|].
    by apply IH.
Qed.

Lemma entries_own props ps k :
  serializeEntries props = Normal ps ->
  is_undefined (own k ps) = is_undefined (own k props)
  /\ String.eqb (typeof (own k ps)) "function"
     = String.eqb (typeof (own k props)) "function".
Proof.
  intros H. pose proof (entries_assoc props ps k H) as Hk. unfold own.
  destruct (assoc k props) as [v|].
  - destruct Hk as (v' & Hv & ->). simpl. by apply serialize_shape.
  - by rewrite Hk.
Qed.

Lemma entries_plain props ps :
  serializeEntries props = Normal ps -> plain_record ps = plain_record props.
Proof.
  intros H. unfold plain_record, overrides_object_members.
  destruct (entries_own props ps TIMESTAMP_KEY H) as [-> _].
  destruct (entries_own props ps "toHexString" H) as [_ ->].
  destruct (entries_own props ps "toString" H) as [-> _].
  destruct (entries_own props ps "constructor" H) as [-> _]. done.
Qed.

(** The serialized value is a fixed point of serializeForRedux and holds no
    BigInt. *)
Lemma serialize_settled : forall v w,
  serializeForRedux v = Normal w ->
  serializeForRedux w = Normal w /\ has_bigint w = false.
Proof.
  induction v as [| |b|n|z|s|elems IH|props IH|] using JSValue_nested_ind;
    intros w; try (intros [= <-]; done).
  - rewrite serialize_array.
    destruct (serializeElements elems) as [l| |] eqn:E; simpl; try discriminate.
    intros [= <-]. rewrite serialize_array.
    assert (serializeElements l = Normal l /\ existsb has_bigint l = false) as [-> ?].
    { revert l E. induction IH as [|e elems He _ IHl]; intros l.
      - intros [= <-]. done.
      - cbn [serializeElements].
        destruct (serializeForRedux e) as [e'| |] eqn:Ee; simpl; try discriminate.
        fold serializeElements.
        destruct (serializeElements elems) as [l'| |] eqn:El; simpl; try discriminate.
        intros [= <-]. destruct (He e' eq_refl) as [He1 He2].
        destruct (IHl l' eq_refl) as [Hl1 Hl2].
        cbn [serializeElements]. rewrite He1. simpl. fold serializeElements.
        rewrite Hl1. simpl. by rewrite He2, Hl2. }
    done.
  - intros [(_ & s & ->)|(Hplain & ps & Hps & ->)]%serialize_object_cases;
      [done|].
    assert (Hts : is_undefined (own TIMESTAMP_KEY ps) = true).
    { pose proof Hplain as Hp. rewrite <- (entries_plain props ps Hps) in Hp.
      unfold plain_record in Hp.
      by apply andb_prop in Hp as [[? _]%andb_prop _]. }
    rewrite serialize_object, Hts, (entries_plain props ps Hps), Hplain.
    cbn [negb].
    assert (serializeEntries ps = Normal ps
            /\ existsb (fun kv => has_bigint (snd kv)) ps = false) as [-> ?].
    { clear Hplain Hts. revert ps Hps.
      induction IH as [|[k v] props Hv _ IHl]; intros ps.
      - intros [= <-]. done.
      - cbn [serializeEntries].
        destruct (serializeForRedux v) as [v'| |] eqn:Ev; simpl; try discriminate.
        fold serializeEntries.
        destruct (serializeEntries props) as [ps'| |] eqn:Eps; simpl; try discriminate.
        intros [= <-]. destruct (Hv v' Ev) as [Hv1 Hv2].
        destruct (IHl ps' eq_refl) as [Hl1 Hl2].
        cbn [serializeEntries]. rewrite Hv1. simpl. fold serializeEntries.
        rewrite Hl1. simpl. by rewrite Hv2, Hl2. }
    done.
Qed.

End SerializationProofs.

(* ===================================================================== *)
(** ** utils/serialization.ts *)
(* ===================================================================== *)

Module SerializationExtras.
Import Text JS Serialization ReducerCaller DecimalProofs SerializationProofs Samples.

Lemma mapM_Forall2 {A B} (f : A -> Completion B) l : forall r,
  mapM f l = Normal r -> Forall2 (fun a b => f a = Normal b) l r.
Proof.
  induction l as [|a l IH]; intros r; simpl.
  - intros [= <-]. constructor.
  - destruct (f a) as [b| |] eqn:E; simpl; try discriminate.
    destruct (mapM f l) as [bs| |]; simpl; try discriminate.
    intros [= <-]. constructor; [done|]. by apply IH.
Qed.


Lemma processed_rows_fixed tableData serialized :
  processTableDataForRedux tableData = Normal serialized ->
  Forall (fun row => serializeForRedux row = Normal row /\ has_bigint row = false)
    serialized.
Proof.
  intros H%mapM_Forall2.
  induction H as [|a b l r Hab _ IH]; constructor; [|done].
  by eapply serialize_settled.
Qed.



Lemma convert_64 v :
  convertValueByType v "u64" = (z <- BigInt_ v ;; Normal (VBigInt z))
  /\ convertValueByType v "i64" = (z <- BigInt_ v ;; Normal (VBigInt z)).
Proof. split; reflexivity. Qed.

(** X2.  A 64-bit column survives the trip through the mirror: the decimal
    text serializeForRedux writes for a BigInt is turned back into the same
    BigInt by the coercion callReducer applies to u64 and i64 fields. *)
Theorem bigint_column_round_trip (z : Z) :
  (x <- serializeForRedux (VBigInt z) ;; convertValueByType x "u64")
    = Normal (VBigInt z)
  /\ (x <- serializeForRedux (VBigInt z) ;; convertValueByType x "i64")
     = Normal (VBigInt z).
Proof.
  cbn [serializeForRedux bind].
  destruct (convert_64 (VStr (Z_to_string z))) as [-> ->].
  by rewrite bigint_of_decimal.
Qed.



End SerializationExtras.

(* ===================================================================== *)
(** ** store/spacetime-slice.ts: frames, row counts and round trips *)
(* ===================================================================== *)

Module StoreProofs.
Import Text JS Slice Selectors Samples SliceProofs.

Lemma eqb_false_ne (k t : string) : String.eqb k t = false -> t <> k.
Proof. intros H ->. by rewrite String.eqb_refl in H. Qed.

Lemma session_key_cases k :
  session_key k = true ->
  k = "connectionStatus" \/ k = "connection" \/ k = "identity" \/ k = "error".
Proof.
  unfold session_key. intros H.
  repeat (apply orb_prop in H as [H|H]); apply String.eqb_eq in H; auto.
Qed.

Lemma clearAllTables_lookup (st : gmap string JSValue) k :
  clearAllTables st !! k = if session_key k then st !! k else None.
Proof.
  unfold clearAllTables. destruct (session_key k) eqn:E.
  - destruct (st !! k) as [v|] eqn:Ek.
    + by apply map_lookup_filter_Some.
    + apply map_lookup_filter_None. by left.
  - apply map_lookup_filter_None. right. intros v _. simpl. congruence.
Qed.

(** X4.  Every action of the slice writes only the keys [writes] names:
    a session action its own field, a table action the entry of its table,
    clearAllTables everything but the four session fields.  All other
    entries of the state are what they were. *)
Theorem reducer_frame (st st' : gmap string JSValue) (a : Action) (k : string) :
  reducer st a = Normal st' -> writes a k = false -> st' !! k = st !! k.
Proof.
  destruct a as [s|c|i|m| | |t|t d|t r|t pk pv r|t pk pv]; simpl.
  - intros [= <-] H%eqb_false_ne. unfold setConnectionStatus. by rewrite lookup_insert_ne.
  - intros [= <-] H%eqb_false_ne. unfold setConnection. by rewrite lookup_insert_ne.
  - intros [= <-] H%eqb_false_ne. unfold setIdentity. by rewrite lookup_insert_ne.
  - intros [= <-] H%eqb_false_ne. unfold setError. by rewrite lookup_insert_ne.
  - intros [= <-] H%eqb_false_ne. unfold clearError. by rewrite lookup_insert_ne.
  - intros [= <-] H%negb_false_iff. by rewrite clearAllTables_lookup, H.
  - intros [= <-] H%eqb_false_ne. unfold initializeTable.
    destruct (truthy _); [done|]. by rewrite lookup_insert_ne.
  - intros [= <-] H%eqb_false_ne. unfold setTableData. by rewrite lookup_insert_ne.
  - intros E H%eqb_false_ne. revert E. unfold insertTableRow.
    destruct (truthy _); [|by intros [= <-]].
    destruct (read st t) as [| |?|?|?|?|rows|props|]; simpl; try discriminate.
    + intros [= <-]. by rewrite lookup_insert_ne.
    + by destruct (assoc "push" props).
  - intros E H%eqb_false_ne. revert E. unfold updateTableRow.
    destruct (truthy _); [|by intros [= <-]].
    destruct (read st t) as [| |?|?|?|?|rows|props|]; simpl; try discriminate.
    + destruct (findIndex _ rows) as [[n|]| |]; simpl; try discriminate;
        intros [= <-]; [by rewrite lookup_insert_ne|done].
    + by destruct (assoc "findIndex" props).
  - intros E H%eqb_false_ne. revert E. unfold deleteTableRow.
    destruct (truthy _); [|by intros [= <-]].
    destruct (read st t) as [| |?|?|?|?|rows|props|]; simpl; try discriminate.
    + destruct (findIndex _ rows) as [[n|]| |]; simpl; try discriminate;
        intros [= <-]; [by rewrite lookup_insert_ne|done].
    + by destruct (assoc "findIndex" props).
Qed.

Lemma reducer_frame_witness :
  reducer userTable (DeleteTableRow "user" "id" (VNum (NumInt 1)))
    = Normal (setTableData initialState "user" [row 2 "b"])
  /\ writes (DeleteTableRow "user" "id" (VNum (NumInt 1))) "error" = false
  /\ setTableData initialState "user" [row 2 "b"] !! "error" = userTable !! "error".
Proof.
  assert (E : reducer userTable (DeleteTableRow "user" "id" (VNum (NumInt 1)))
              = Normal (setTableData initialState "user" [row 2 "b"]))
    by (vm_compute; reflexivity).
  split; [exact E|]. split; [reflexivity|].
  exact (reducer_frame _ _ _ "error" E eq_refl).
Defined.

Lemma findIndex_bound p : forall rows n,
  findIndex p rows = Normal (Some n) -> (n < length rows)%nat.
Proof.
  induction rows as [|x rows IH]; intros n; simpl; [discriminate|].
  destruct (p x) as [[|]| |]; simpl; try discriminate.
  - intros [= <-]. lia.
  - destruct (findIndex p rows) as [[m|]| |]; simpl; try discriminate.
    intros [= <-]. specialize (IH m eq_refl). lia.
Qed.

(** X5.  On a table that is there, a row notification keeps the entry an
    array and moves its length by at most one: an insert appends the row,
    an update keeps the length, a delete removes one row or none. *)
Theorem notification_row_count (st st' : gmap string JSValue)
  (tableName primaryKey : string) (op : TableOp) (rows : list JSValue) :
  st !! tableName = Some (VArr rows) ->
  reducer st (op_action tableName primaryKey op) = Normal st' ->
  exists rows',
    st' !! tableName = Some (VArr rows')
    /\ match op with
       | OpInsert r => rows' = rows ++ [r]
       | OpUpdate _ _ => length rows' = length rows
       | OpDelete _ =>
           rows' = rows \/ S (length rows') = length rows
       end.
Proof.
  intros Ht. destruct op as [r|v r|v]; simpl.
  - unfold insertTableRow, read. rewrite Ht. simpl. intros [= <-].
    eexists. by rewrite lookup_insert_eq.
  - unfold updateTableRow, read. rewrite Ht. simpl.
    destruct (findIndex _ rows) as [[n|]| |] eqn:E; simpl; try discriminate;
      intros [= <-].
    + eexists. rewrite lookup_insert_eq. split; [done|]. by rewrite length_insert.
    + by exists rows.
  - unfold deleteTableRow, read. rewrite Ht. simpl.
    destruct (findIndex _ rows) as [[n|]| |] eqn:E; simpl; try discriminate;
      intros [= <-].
    + eexists. rewrite lookup_insert_eq. split; [done|]. right.
      apply findIndex_bound in E. rewrite length_delete.
      * lia.
      * by apply lookup_lt_is_Some_2.
    + exists rows. by split; [|left].
Qed.

Lemma notification_row_count_witness :
  userTable !! "user" = Some (VArr [row 1 "a"; row 2 "b"])
  /\ reducer userTable (op_action "user" "id" (OpDelete (VNum (NumInt 1))))
     = Normal (setTableData initialState "user" [row 2 "b"])
  /\ exists rows',
       setTableData initialState "user" [row 2 "b"] !! "user" = Some (VArr rows')
       /\ (rows' = [row 1 "a"; row 2 "b"]
           \/ S (length rows') = length [row 1 "a"; row 2 "b"]).
Proof.
  assert (Ht : userTable !! "user" = Some (VArr [row 1 "a"; row 2 "b"]))
    by (vm_compute; reflexivity).
  assert (E : reducer userTable (op_action "user" "id" (OpDelete (VNum (NumInt 1))))
              = Normal (setTableData initialState "user" [row 2 "b"]))
    by (vm_compute; reflexivity).
  split; [exact Ht|]. split; [exact E|].
  exact (notification_row_count _ _ "user" "id" (OpDelete (VNum (NumInt 1))) _ Ht E).
Defined.

Lemma initializeTable_keeps (st : gmap string JSValue) t k :
  truthy (read st k) = true -> initializeTable st t !! k = st !! k.
Proof.
  intros H. unfold initializeTable. destruct (truthy (read st t)) eqn:E; [done|].
  rewrite lookup_insert_ne; [done|]. intros ->. congruence.
Qed.

Lemma initializeTable_sets (st : gmap string JSValue) t :
  truthy (read (initializeTable st t) t) = true.
Proof.
  unfold initializeTable. destruct (truthy (read st t)) eqn:E; [done|].
  by rewrite read_insert.
Qed.

Lemma initializeAll_keeps names : forall (st : gmap string JSValue) k,
  truthy (read st k) = true ->
  fold_left initializeTable names st !! k = st !! k.
Proof.
  induction names as [|n names IH]; intros st k H; simpl; [done|].
  rewrite IH.
  - by apply initializeTable_keeps.
  - unfold read. by rewrite initializeTable_keeps.
Qed.

Lemma initializeAll_fixed names : forall (st : gmap string JSValue),
  Forall (fun n => truthy (read st n) = true) names ->
  fold_left initializeTable names st = st.
Proof.
  induction names as [|n names IH]; intros st H; simpl; [done|].
  inversion H as [|? ? Hn Hrest]; subst.
  unfold initializeTable at 2. rewrite Hn. by apply IH.
Qed.

Lemma initializeAll_sets names : forall (st : gmap string JSValue),
  Forall (fun n => truthy (read (fold_left initializeTable names st) n) = true) names.
Proof.
  induction names as [|n names IH]; intros st; simpl; constructor.
  - unfold read. rewrite initializeAll_keeps by apply initializeTable_sets.
    apply initializeTable_sets.
  - apply IH.
Qed.

(** X6.  Initializing the discovered tables a second time, as refreshSchema
    does after the mount effect, changes nothing; and initializing never
    replaces an entry that already holds rows, or an empty array. *)
Theorem initializeTable_refresh (names : list string) (st : gmap string JSValue) :
  fold_left initializeTable names (fold_left initializeTable names st)
  = fold_left initializeTable names st
  /\ forall t rows, st !! t = Some (VArr rows) ->
       fold_left initializeTable names st !! t = Some (VArr rows).
Proof.
  split.
  - apply initializeAll_fixed, initializeAll_sets.
  - intros t rows Ht. rewrite initializeAll_keeps; [done|].
    unfold read. by rewrite Ht.
Qed.

(** X7.  On a table whose rows all carry a primitive key (a boolean, a
    number other than NaN, a BigInt or a string in the primary-key field)
    and no two of them the same one, inserting a row under a new key of
    that kind and then deleting by that key gives back the table as it
    was. *)
Theorem insert_then_delete (st : gmap string JSValue)
  (tableName primaryKey : string) (rows : list JSValue) (row key : JSValue) :
  distinct_keys primaryKey rows = true ->
  row_key primaryKey row = Some key ->
  has_key primaryKey key rows = false ->
  dispatchAll (<[tableName := VArr rows]> st)
    [InsertTableRow tableName row; DeleteTableRow tableName primaryKey key]
  = Normal (<[tableName := VArr rows]> st).
Proof.
  intros Hd Hk Hn.
  destruct (row_key_get _ _ _ Hk) as [_ Hkey].
  assert (Hs : stream_keeps_keys primaryKey rows [OpInsert row; OpDelete key] = true).
  { simpl. by rewrite Hk, Hn, Hkey. }
  etrans; [exact (dispatchAll_replay st tableName primaryKey _ rows Hd Hs)|].
  f_equal. f_equal. f_equal.
  unfold replay. simpl. rewrite List.filter_app. simpl.
  assert (key_is primaryKey key row = true) as ->
    by (by apply (key_is_row_key primaryKey row key key)).
  simpl. rewrite app_nil_r. apply filter_no_match.
  intros x Hx. by eapply has_key_false_in.
Qed.

Lemma insert_then_delete_witness :
  distinct_keys "id" [row 1 "a"; row 2 "b"] = true
  /\ row_key "id" (row 3 "c") = Some (VNum (NumInt 3))
  /\ has_key "id" (VNum (NumInt 3)) [row 1 "a"; row 2 "b"] = false
  /\ dispatchAll (<["user" := VArr [row 1 "a"; row 2 "b"]]> initialState)
       [InsertTableRow "user" (row 3 "c"); DeleteTableRow "user" "id" (VNum (NumInt 3))]
     = Normal (<["user" := VArr [row 1 "a"; row 2 "b"]]> initialState).
Proof.
  split; [reflexivity|]. split; [reflexivity|]. split; [reflexivity|].
  apply (insert_then_delete initialState "user" "id" [row 1 "a"; row 2 "b"]
           (row 3 "c") (VNum (NumInt 3))); reflexivity.
Defined.

(** X8.  clearAllTables keeps the four session fields and drops every other
    entry.  Afterwards a table name that is not a member inherited from
    Object.prototype reads as the empty list through the selector, and a
    row inserted into it is ignored until the table is initialized or
    seeded again.  A name such as "constructor" or "toString" reads as the
    inherited member instead, through the selector and in the reducer, and
    inserting a row into it throws a TypeError. *)
Theorem clearAllTables_wipes (st : gmap string JSValue) (k : string) (row : JSValue) :
  clearAllTables st !! k = (if session_key k then st !! k else None)
  /\ (session_key k = false ->
      selectTableData k (clearAllTables st)
      = (if truthy (inherited k) then inherited k else VArr [])
      /\ insertTableRow (clearAllTables st) k row
         = (if truthy (inherited k)
            then Throw (TypeError "push is not a function")
            else Normal (clearAllTables st))).
Proof.
  split; [apply clearAllTables_lookup|].
  intros Hk. unfold selectTableData, insertTableRow, read.
  rewrite !clearAllTables_lookup, Hk. cbn [default]. split; [done|].
  by destruct (inherited_cases k) as [H|[H|H]]; rewrite H.
Qed.

Lemma clearAllTables_wipes_witness :
  session_key "user" = false
  /\ session_key "constructor" = false
  /\ selectTableData "user" (clearAllTables userTable) = VArr []
  /\ insertTableRow (clearAllTables userTable) "user" (row 3 "c")
     = Normal (clearAllTables userTable)
  /\ selectTableData "constructor" (clearAllTables userTable) = VFun
  /\ insertTableRow (clearAllTables userTable) "constructor" (row 3 "c")
     = Throw (TypeError "push is not a function").
Proof.
  split; [reflexivity|]. split; [reflexivity|].
  destruct (proj2 (clearAllTables_wipes userTable "user" (row 3 "c")) eq_refl)
    as [H1 H2].
  destruct (proj2 (clearAllTables_wipes userTable "constructor" (row 3 "c")) eq_refl)
    as [H3 H4].
  split; [exact H1|]. split; [exact H2|]. split; [exact H3|exact H4].
Defined.

End StoreProofs.

(* ===================================================================== *)
(** ** The callback registry, reducer subscriptions and method names *)
(* ===================================================================== *)

Module HooksProofs.
Import Text JS Types Slice Serialization Selectors Hooks Introspector Samples
  Fixtures.
Import SliceProofs SerializationProofs SerializationExtras.

(** *** The callback registry *)

Lemma assoc_app {A} k (l1 l2 : list (string * A)) :
  assoc k (l1 ++ l2) = match assoc k l1 with Some v => Some v | None => assoc k l2 end.
Proof.
  induction l1 as [|[k' v] l1 IH]; simpl; [done|].
  by destruct (String.eqb k' k).
Qed.

Lemma register_lookup callbacks : forall (current : gmap string JSValue) k,
  registerEventCallbacks current callbacks !! k
  = match assoc k (rev callbacks) with Some v => Some v | None => current !! k end.
Proof.
  induction callbacks as [|[k' v] callbacks IH]; intros current k; [done|].
  change (registerEventCallbacks current ((k', v) :: callbacks))
    with (registerEventCallbacks (<[k' := v]> current) callbacks).
  rewrite IH. simpl. rewrite assoc_app.
  destruct (assoc k (rev callbacks)); [done|]. simpl.
  destruct (String.eqb k' k) eqn:E.
  - apply String.eqb_eq in E as ->. by rewrite lookup_insert_eq.
  - rewrite lookup_insert_ne; [done|]. intros ->. by rewrite String.eqb_refl in E.
Qed.

Lemma unregister_lookup keys : forall (current : gmap string JSValue) k,
  unregisterEventCallbacks current keys !! k
  = if existsb (String.eqb k) keys then None else current !! k.
Proof.
  induction keys as [|k' keys IH]; intros current k; [done|].
  change (unregisterEventCallbacks current (k' :: keys))
    with (unregisterEventCallbacks (delete k' current) keys).
  rewrite IH. simpl. destruct (existsb (String.eqb k) keys).
  - by rewrite orb_true_r.
  - rewrite orb_false_r. destruct (String.eqb k k') eqn:E.
    + apply String.eqb_eq in E as ->. by rewrite lookup_delete_eq.
    + rewrite lookup_delete_ne; [done|]. intros ->. by rewrite String.eqb_refl in E.
Qed.

(** X9.  The callback registry: after registering, a name answers with the
    callback registered for it, otherwise with what it answered before;
    after unregistering, a listed name answers as a name the registry never
    held, also when it had a callback before the last registration, and
    the other names are untouched.  A name the registry does not hold
    answers what every object inherits under it: undefined for an ordinary
    name such as "onUserInsert", a function for "toString" or
    "constructor". *)
Theorem callback_registry (current : gmap string JSValue)
  (callbacks : list (string * JSValue)) (keys : list string) (name : string) :
  getCallback (registerEventCallbacks current callbacks) name
  = match assoc name (rev callbacks) with
    | Some callback => callback
    | None => getCallback current name
    end
  /\ getCallback (unregisterEventCallbacks current keys) name
     = (if existsb (String.eqb name) keys then inherited name
        else getCallback current name)
  /\ (existsb (String.eqb name) (map fst callbacks) = true ->
      getCallback
        (unregisterEventCallbacks (registerEventCallbacks current callbacks)
           (map fst callbacks)) name = inherited name)
  /\ getCallback ∅ name = inherited name
  /\ (inherited name = VUndefined
      \/ truthy (inherited name) = true /\ In name ("__proto__" :: OBJECT_PROTOTYPE)).
Proof.
  unfold getCallback. rewrite register_lookup, !unregister_lookup.
  split; [by destruct (assoc name (rev callbacks))|].
  split; [by destruct (existsb _ keys)|].
  split; [by intros ->|]. split; [by rewrite lookup_empty|].
  unfold inherited. destruct (existsb _ OBJECT_PROTOTYPE) eqn:E.
  - right. split; [done|]. right.
    apply existsb_exists in E as (m & Hm & ->%String.eqb_eq). done.
  - destruct (String.eqb name "__proto__") eqn:E2; [|by left].
    right. split; [done|]. left. by apply String.eqb_eq in E2.
Qed.

Lemma callback_registry_witness :
  existsb (String.eqb "onUserInsert") (map fst [("onUserInsert", VFun)]) = true
  /\ getCallback
       (unregisterEventCallbacks
          (registerEventCallbacks (<["onUserInsert" := VFun]> ∅) [("onUserInsert", VFun)])
          (map fst [("onUserInsert", VFun)])) "onUserInsert" = VUndefined
  /\ existsb (String.eqb "toString") (map fst [("toString", VNull)]) = true
  /\ getCallback
       (unregisterEventCallbacks
          (registerEventCallbacks ∅ [("toString", VNull)])
          (map fst [("toString", VNull)])) "toString" = VFun.
Proof.
  split; [reflexivity|].
  split; [exact (proj1 (proj2 (proj2 (callback_registry (<["onUserInsert" := VFun]> ∅)
                         [("onUserInsert", VFun)] [] "onUserInsert"))) eq_refl)|].
  split; [reflexivity|].
  exact (proj1 (proj2 (proj2 (callback_registry ∅
                         [("toString", VNull)] [] "toString"))) eq_refl).
Defined.

(** *** Reducer event subscriptions *)

Lemma setupReducerHandler_cases registry conn subscribed reducer :
  (forall e, setupReducerHandler registry conn subscribed reducer <> Throw e)
  /\ forall out, setupReducerHandler registry conn subscribed reducer = Normal out ->
       out = subscribed
       \/ (out = subscribed ++ [eventHandlerName (r_name reducer)]
           /\ truthy (getCallback registry (eventHandlerName (r_name reducer))) = true
           /\ typeof (members conn (eventHandlerName (r_name reducer))) = "function"
           /\ subscribe conn (eventHandlerName (r_name reducer)) = Normal tt).
Proof.
  unfold setupReducerHandler.
  destruct (truthy (getCallback _ _)) eqn:Ec; simpl; [|split; [done|]; intros ? [= <-]; by left].
  destruct (truthy (members conn _)) eqn:Em; simpl; [|split; [done|]; intros ? [= <-]; by left].
  destruct (String.eqb (typeof _) "function") eqn:Et; simpl;
    [|split; [done|]; intros ? [= <-]; by left].
  apply String.eqb_eq in Et.
  destruct (subscribe conn _) as [[]| |] eqn:Es; split; try done.
  - intros ? [= <-]. right. done.
  - intros ? [= <-]. by left.
Qed.

Lemma setupReducerHandler_step registry conn subscribed reducer out :
  setupReducerHandler registry conn subscribed reducer = Normal out ->
  out = subscribed ++ (if subscribable registry conn reducer
                       then [eventHandlerName (r_name reducer)] else []).
Proof.
  unfold setupReducerHandler, subscribable.
  destruct (truthy (getCallback _ _)); simpl;
    [|intros [= <-]; by rewrite app_nil_r].
  destruct (truthy (members conn _)); simpl;
    [|intros [= <-]; by rewrite app_nil_r].
  destruct (String.eqb (typeof _) "function"); simpl;
    [|intros [= <-]; by rewrite app_nil_r].
  destruct (subscribe conn _) as [[]| |]; try discriminate;
    intros [= <-]; [done|by rewrite app_nil_r].
Qed.

(** X10.  setupReducerHandlers never raises, whatever a subscription method
    does; the subscriptions it makes are added after the ones made
    before, one per reducer of the catalog that has a registered callback
    and a function of its handler name on the session whose call
    completes, in catalog order, each under the handler name "on" + the
    capitalized camel-cased reducer name. *)
Theorem reducer_subscriptions (registry : gmap string JSValue)
  (conn : ReducerNamespace) (discoveredReducers : list ReducerMetadata)
  (subscribed : list string) :
  (forall e, setupReducerHandlers registry conn discoveredReducers subscribed
             <> Throw e)
  /\ forall out,
       setupReducerHandlers registry conn discoveredReducers subscribed = Normal out ->
       out = subscribed
             ++ map (fun r => eventHandlerName (r_name r))
                  (List.filter (subscribable registry conn) discoveredReducers).
Proof.
  revert subscribed.
  induction discoveredReducers as [|r rs IH]; intros subscribed; simpl.
  - split; [done|]. intros out [= <-]. by rewrite app_nil_r.
  - destruct (setupReducerHandler_cases registry conn subscribed r) as [Hne _].
    destruct (setupReducerHandler registry conn subscribed r) as [s1|e|w] eqn:E; simpl.
    + destruct (IH s1) as [IH1 IH2]. split; [exact IH1|].
      intros out Hout. rewrite (IH2 out Hout).
      rewrite (setupReducerHandler_step _ _ _ _ _ E).
      destruct (subscribable registry conn r); simpl;
        by rewrite <- app_assoc.
    + by destruct (Hne e).
    + split; [done|discriminate].
Qed.

Lemma reducer_subscriptions_witness :
  setupReducerHandlers (<["onSetAb" := VFun]> (<["onSetScore" := VFun]> ∅))
    listeningSession [setScore; setAB; setAB] ["onEarlier"]
  = Normal ["onEarlier"; "onSetAb"; "onSetAb"]
  /\ ["onEarlier"; "onSetAb"; "onSetAb"]
     = ["onEarlier"]
       ++ map (fun r => eventHandlerName (r_name r))
            (List.filter
               (subscribable (<["onSetAb" := VFun]> (<["onSetScore" := VFun]> ∅))
                  listeningSession)
               [setScore; setAB; setAB]).
Proof.
  assert (E : setupReducerHandlers
                (<["onSetAb" := VFun]> (<["onSetScore" := VFun]> ∅))
                listeningSession [setScore; setAB; setAB] ["onEarlier"]
              = Normal ["onEarlier"; "onSetAb"; "onSetAb"])
    by (vm_compute; reflexivity).
  split; [exact E|].
  exact (proj2 (reducer_subscriptions _ listeningSession
                  [setScore; setAB; setAB] ["onEarlier"]) _ E).
Defined.

(** *** Method names *)









End HooksProofs.

(* ===================================================================== *)
(** ** use-table-handlers.ts *)
(* ===================================================================== *)

Module TableHandlerProofs.
Import Text JS Types Slice Serialization Selectors Hooks Samples Fixtures.
Import SliceProofs SerializationProofs SerializationExtras.

Section WithLodash.

Variable camelCase : string -> string.
Variable db : string -> option TableHandle.

Lemma snapshot_settles name (previous : option JSValue) :
  snapshot camelCase db name (snapshot camelCase db name previous)
  = snapshot camelCase db name previous.
Proof.
  unfold snapshot. destruct (db (camelCase name)) as [h|]; [|done].
  destruct (iter h) as [rows| |]; try done.
  by destruct (processTableDataForRedux rows).
Qed.

Lemma setupTable_cases (st : gmap string JSValue) reg table st1 reg1 :
  setupTable camelCase db (st, reg) table = Normal (st1, reg1) ->
  (forall k, k <> t_name table -> st1 !! k = st !! k)
  /\ st1 !! t_name table = snapshot camelCase db (t_name table) (st !! t_name table).
Proof.
  unfold setupTable, snapshot.
  destruct (db (camelCase (t_name table))) as [h|] eqn:Edb.
  2:{ by intros [= <- <-]. }
  destruct (iter h) as [rows|e|w] eqn:Ei; try discriminate.
  2:{ by intros [= <- <-]. }
  destruct (processTableDataForRedux rows) as [ser|e|w] eqn:Ep;
    [|by intros [= <- <-]|discriminate].
  destruct (setupTableEventHandlers h (t_name table) reg) as [reg' outcome].
  intros H.
  assert (st1 = setTableData st (t_name table) ser) as ->.
  { by destruct outcome; inversion H. }
  unfold setTableData. split.
  - intros k Hk. by rewrite lookup_insert_ne.
  - by rewrite lookup_insert_eq.
Qed.

Lemma setupTableHandlers_entries (discoveredTables : list TableMetadata) :
  forall (st st' : gmap string JSValue) registered registered',
  setupTableHandlers camelCase db discoveredTables (st, registered)
    = Normal (st', registered') ->
  forall k, st' !! k = if bool_decide (k ∈ map t_name discoveredTables)
                       then snapshot camelCase db k (st !! k)
                       else st !! k.
Proof.
  induction discoveredTables as [|t ts IH]; intros st st' reg reg';
    cbn [setupTableHandlers map].
  - by intros [= <- <-] k.
  - destruct (setupTable camelCase db (st, reg) t) as [[st1 reg1]|e|w] eqn:E;
      cbn [bind]; try discriminate.
    intros H k. rewrite (IH _ _ _ _ H k).
    destruct (setupTable_cases _ _ _ _ _ E) as (Hframe & Hseed).
    destruct (decide (k = t_name t)) as [->|Hne].
    + rewrite (bool_decide_eq_true_2 (t_name t ∈ t_name t :: map t_name ts))
        by apply list_elem_of_here.
      rewrite Hseed.
      destruct (bool_decide (t_name t ∈ map t_name ts)); [|done].
      apply snapshot_settles.
    + rewrite (Hframe k Hne).
      destruct (bool_decide (k ∈ map t_name ts)) eqn:Ek.
      * apply bool_decide_eq_true_1 in Ek.
        rewrite bool_decide_eq_true_2; [done|]. by apply list_elem_of_further.
      * apply bool_decide_eq_false_1 in Ek.
        rewrite bool_decide_eq_false_2; [done|].
        intros [?|?]%elem_of_cons; done.
Qed.

(** X12.  setupTableHandlers seeds every table of the catalog whose handle
    can be iterated and whose rows can be serialized with the serialized
    snapshot of its rows, whatever happens with the other tables.  A table
    is passed over, its entry left as it was, when the session has no
    handle for it, when the iterator raises, or when serializing a row
    raises (a timestamp field holding null, a date out of range); a raising
    registration of a callback does not undo the seeding.  Entries that
    belong to no table of the catalog are left as they were.  Rows are
    primitives, arrays, plain objects and timestamp records. *)
Theorem table_setup_seeds (discoveredTables : list TableMetadata)
  (st st' : gmap string JSValue) (registered registered' : list (string * Notification)) :
  setupTableHandlers camelCase db discoveredTables (st, registered)
    = Normal (st', registered') ->
  (forall k, ~ In k (map t_name discoveredTables) -> st' !! k = st !! k)
  /\ (forall table,
        In table discoveredTables ->
        match db (camelCase (t_name table)) with
        | Some h =>
            match iter h with
            | Normal rows =>
                match processTableDataForRedux rows with
                | Normal serialized =>
                    st' !! t_name table = Some (VArr serialized)
                | _ => st' !! t_name table = st !! t_name table
                end
            | _ => st' !! t_name table = st !! t_name table
            end
        | None => st' !! t_name table = st !! t_name table
        end).
Proof.
  intros H. pose proof (setupTableHandlers_entries _ _ _ _ _ H) as Hk.
  split.
  - intros k Hn. rewrite Hk, bool_decide_eq_false_2; [done|].
    intros Hin. apply Hn. by apply list_elem_of_In.
  - intros table Hin.
    assert (Hst : st' !! t_name table
                  = snapshot camelCase db (t_name table) (st !! t_name table)).
    { rewrite Hk, bool_decide_eq_true_2; [done|].
      apply list_elem_of_In, in_map_iff. eauto. }
    unfold snapshot in Hst.
    destruct (db (camelCase (t_name table))) as [h|]; [|done].
    destruct (iter h) as [rows| |]; try done.
    by destruct (processTableDataForRedux rows).
Qed.

(** X13.  What a row notification does to the mirror, for rows of
    primitives, arrays, plain objects and timestamp records.  When the
    handle's rows can be serialized, the table entry is replaced by their
    serialized snapshot, with no BigInt left in it; the rows the entry held
    before play no part, and a second notification on the same snapshot
    changes nothing.  When serializing a row raises, the notification
    leaves the whole state as it was. *)
Theorem notification_replaces_table (tableName : string) (h : TableHandle)
  (rows : list JSValue) (st st' : gmap string JSValue) :
  db (camelCase tableName) = Some h -> iter h = Normal rows ->
  updateTableData camelCase db tableName st = Normal st' ->
  match processTableDataForRedux rows with
  | Normal serialized =>
      st' = setTableData st tableName serialized
      /\ Forall (fun row => has_bigint row = false) serialized
      /\ (forall previous,
            updateTableData camelCase db tableName (<[tableName := previous]> st)
            = Normal st')
      /\ updateTableData camelCase db tableName st' = Normal st'
  | _ => st' = st
  end.
Proof.
  intros Hdb Hit. unfold updateTableData. rewrite Hdb, Hit.
  destruct (processTableDataForRedux rows) as [ser|e|w] eqn:Ep;
    [|by intros [= <-]|discriminate].
  intros [= <-]. split; [done|].
  split.
  { eapply Forall_impl; [exact (processed_rows_fixed _ _ Ep)|]. by intros w [_ ?]. }
  unfold setTableData. split.
  - intros previous. by rewrite insert_insert_eq.
  - by rewrite insert_insert_eq.
Qed.

End WithLodash.

(** X12, witness: of the four tables of the sample catalog only "user" is
    seeded; "event" has a row whose timestamp field is null and keeps the
    rows it had. *)
Lemma table_setup_seeds_witness :
  setupTableHandlers toCamelCase sampleDb sampleCatalog
    (setTableData initialState "event" [VStr "old"], [])
  = Normal (setTableData (setTableData initialState "event" [VStr "old"])
              "user" [VObj [("id", VStr "7")]],
            [("user", Insert)])
  /\ processTableDataForRedux [VObj [("id", VBigInt 7)]]
     = Normal [VObj [("id", VStr "7")]]
  /\ setTableData (setTableData initialState "event" [VStr "old"])
       "user" [VObj [("id", VStr "7")]] !! "user"
     = Some (VArr [VObj [("id", VStr "7")]])
  /\ processTableDataForRedux
       [VObj [("at", VObj [(TIMESTAMP_KEY, VBigInt 1700000000123456)])];
        VObj [("at", VObj [(TIMESTAMP_KEY, VNull)])]]
     = Throw (TypeError "Cannot read properties of null (reading 'toString')")
  /\ setTableData (setTableData initialState "event" [VStr "old"])
       "user" [VObj [("id", VStr "7")]] !! "event"
     = Some (VArr [VStr "old"]).
Proof.
  assert (E : setupTableHandlers toCamelCase sampleDb sampleCatalog
                (setTableData initialState "event" [VStr "old"], [])
              = Normal (setTableData (setTableData initialState "event" [VStr "old"])
                          "user" [VObj [("id", VStr "7")]],
                        [("user", Insert)])) by (vm_compute; reflexivity).
  split; [exact E|].
  pose proof (proj2 (table_setup_seeds toCamelCase sampleDb _ _ _ _ _ E)
                (tableNamed "user") (or_intror (or_introl eq_refl))) as Hu.
  pose proof (proj2 (table_setup_seeds toCamelCase sampleDb _ _ _ _ _ E)
                (tableNamed "event")
                (or_intror (or_intror (or_intror (or_introl eq_refl))))) as He.
  split; [by vm_compute|]. split; [exact Hu|].
  split; [by vm_compute|]. exact He.
Defined.

(** X13, witness: a notification on "user" replaces the two rows of the
    store by the one row of the handle; a notification on "event", whose
    second row cannot be serialized, changes nothing. *)
Lemma notification_replaces_table_witness :
  sampleDb (toCamelCase "user") = Some userHandle
  /\ iter userHandle = Normal [VObj [("id", VBigInt 7)]]
  /\ updateTableData toCamelCase sampleDb "user" userTable
     = Normal (setTableData userTable "user" [VObj [("id", VStr "7")]])
  /\ setTableData userTable "user" [VObj [("id", VStr "7")]]
     = setTableData userTable "user" [VObj [("id", VStr "7")]]
  /\ updateTableData toCamelCase sampleDb "user"
       (setTableData userTable "user" [VObj [("id", VStr "7")]])
     = Normal (setTableData userTable "user" [VObj [("id", VStr "7")]])
  /\ updateTableData toCamelCase sampleDb "event" userTable = Normal userTable.
Proof.
  assert (E : updateTableData toCamelCase sampleDb "user" userTable
              = Normal (setTableData userTable "user" [VObj [("id", VStr "7")]]))
    by (vm_compute; reflexivity).
  assert (E2 : updateTableData toCamelCase sampleDb "event" userTable
               = Normal userTable) by (vm_compute; reflexivity).
  split; [reflexivity|]. split; [reflexivity|]. split; [exact E|].
  pose proof (notification_replaces_table toCamelCase sampleDb "user" userHandle
                _ _ _ eq_refl eq_refl E) as (H1 & _ & _ & H4).
  pose proof (notification_replaces_table toCamelCase sampleDb "event" eventHandle
                _ _ _ eq_refl eq_refl E2) as H5.
  split; [exact H1|]. split; [exact H4|]. exact E2.
Defined.

End TableHandlerProofs.

(* ===================================================================== *)
(** ** use-reducer-caller.ts: the slots of the argument list *)
(* ===================================================================== *)

Module MarshalProofs.
Import Text JS Types ReducerCaller Analyzer Slots Samples.
Import SerializationExtras HooksProofs.


Lemma underscore_not_lower : is_lower "_"%char = false.
Proof. reflexivity. Qed.








Lemma marshal_Forall2 fields args slots :
  marshal fields args = Normal slots ->
  exists convertedArgs,
    convertArgsToObject args = Normal convertedArgs
    /\ Forall2 (fun f v => orderedArg convertedArgs f = Normal v) fields slots.
Proof.
  unfold marshal, createOrderedArgs.
  destruct (convertArgsToObject args) as [m| |]; simpl; try discriminate.
  intros H%mapM_Forall2. eauto.
Qed.

Lemma convertValueByType_coerced v t w :
  convertValueByType v t = Normal w -> coerced t w = true.
Proof.
  unfold convertValueByType, coerced.
  destruct (String.eqb t "string" || includes t "String").
  { destruct (JS.String_ v); simpl; try discriminate. by intros [= <-]. }
  destruct (String.eqb t "u64" || String.eqb t "i64").
  { destruct (BigInt_ v); simpl; try discriminate. by intros [= <-]. }
  destruct (String.eqb t "boolean" || String.eqb t "Bool").
  { by intros [= <-]. }
  destruct (startsWith t "u" || startsWith t "i" || startsWith t "f"); [|done].
  destruct (Number_ v); simpl; try discriminate. by intros [= <-].
Qed.

(** X14.  The argument list callReducer builds has one slot per field of
    the catalog entry, in field order.  A slot holds undefined or null, or
    a value of the JavaScript type its declared type calls for; the slot of
    an optional field never holds null or the empty string. *)
Theorem marshal_slots_typed (fields : list FieldMetadata) (args : JSValue)
  (slots : list JSValue) :
  marshal fields args = Normal slots ->
  Forall2 (fun field slot =>
             (is_nullish slot = true \/ coerced (type field) slot = true)
             /\ (isOptional field = true -> slot <> VNull /\ slot <> VStr ""))
    fields slots.
Proof.
  intros (m & _ & H)%marshal_Forall2.
  eapply Forall2_impl; [exact H|]. clear. intros f v. unfold orderedArg.
  destruct (is_nullish (default VUndefined (m !! name f))) eqn:En; simpl.
  - rewrite En. destruct (isOptional f); simpl; intros [= <-].
    + by split; [left|].
    + split; [by left|done].
  - destruct (convertValueByType _ (type f)) as [w| |] eqn:Ec; simpl;
      try discriminate.
    apply convertValueByType_coerced in Ec.
    destruct (isOptional f); simpl.
    + destruct (is_nullish w || is_empty_string w) eqn:Ew; intros [= <-].
      * by split; [left|].
      * apply orb_false_elim in Ew as [Hn He]. split; [by right|].
        intros _. split; intros ->; [done|]. discriminate.
    + intros [= <-]. split; [by right|done].
Qed.

Lemma marshal_slots_typed_witness :
  marshal fieldsAB (VObj [("a", VStr "7"); ("b", VStr "")])
    = Normal [VNum (NumInt 7); VUndefined]
  /\ Forall2 (fun field slot =>
                (is_nullish slot = true \/ coerced (type field) slot = true)
                /\ (isOptional field = true -> slot <> VNull /\ slot <> VStr ""))
       fieldsAB [VNum (NumInt 7); VUndefined].
Proof.
  assert (E : marshal fieldsAB (VObj [("a", VStr "7"); ("b", VStr "")])
              = Normal [VNum (NumInt 7); VUndefined]) by (vm_compute; reflexivity).
  split; [exact E|]. exact (marshal_slots_typed _ _ _ E).
Defined.



End MarshalProofs.

(* ===================================================================== *)
(** ** The analyzer and the catalogs *)
(* ===================================================================== *)

Module CatalogProofs.
Import Text JS Types Analyzer Introspector Hooks Samples Fixtures.
Import HooksProofs.

(** *** The analyzer *)



Section WithModule.
Variable GeneratedModule : list (string * Export).



(** X17.  findEnumConstructor answers null for an empty list of values;
    when it answers with an export, that export is a function or an object
    of the generated module, it has a defined member named after the first
    enum value, and no export before it in the module qualifies. *)
Theorem findEnumConstructor_sound (fieldName : string) (values : list string) :
  match findEnumConstructor GeneratedModule fieldName values with
  | Some ctor =>
      exists first rest before e after,
        values = first :: rest
        /\ GeneratedModule = before ++ (ctor_export ctor, e) :: after
        /\ ctor_members ctor = exp_members e
        /\ is_function_or_object e = true
        /\ has_member e first = true
        /\ Forall (fun item => is_function_or_object (snd item)
                               && has_member (snd item) first = false) before
  | None =>
      values = []
      \/ exists first rest,
           values = first :: rest
           /\ Forall (fun item => is_function_or_object (snd item)
                                  && has_member (snd item) first = false)
                GeneratedModule
  end.
Proof.
  unfold findEnumConstructor. destruct values as [|first rest].
  { simpl. replace (List.filter _ GeneratedModule) with (@nil (string * Export)).
    - simpl. by left.
    - symmetry. induction GeneratedModule as [|x l IH]; simpl; [done|].
      by rewrite andb_false_r. }
  set (p := fun item : string * Export =>
              is_function_or_object (snd item)
              && existsb (has_member (snd item)) (first :: rest)).
  set (q := fun item : string * Export => has_member (snd item) first).
  assert (Hgen : forall l,
    match List.find q (List.filter p l) with
    | Some (n, e) =>
        exists before after, l = before ++ (n, e) :: after
          /\ is_function_or_object e = true /\ has_member e first = true
          /\ Forall (fun item => is_function_or_object (snd item)
                                 && has_member (snd item) first = false) before
    | None => Forall (fun item => is_function_or_object (snd item)
                                  && has_member (snd item) first = false) l
    end).
  { induction l as [|[n e] l IH]; simpl; [constructor|].
    unfold p at 1. simpl.
    destruct (is_function_or_object e) eqn:Ef; simpl.
    - destruct (has_member e first) eqn:Em; simpl.
      + unfold q at 1. simpl. rewrite Em.
        exists [], l. repeat split; try done.
      + destruct (existsb (has_member e) rest) eqn:Er; simpl.
        * unfold q at 1. simpl. rewrite Em.
          destruct (List.find q (List.filter p l)) as [[n' e']|].
          -- destruct IH as (before & after & -> & ? & ? & ?).
             exists ((n, e) :: before), after. repeat split; try done.
             constructor; [|done]. simpl. by rewrite Ef, Em.
          -- constructor; [|done]. simpl. by rewrite Ef, Em.
        * destruct (List.find q (List.filter p l)) as [[n' e']|].
          -- destruct IH as (before & after & -> & ? & ? & ?).
             exists ((n, e) :: before), after. repeat split; try done.
             constructor; [|done]. simpl. by rewrite Ef, Em.
          -- constructor; [|done]. simpl. by rewrite Ef, Em.
    - destruct (List.find q (List.filter p l)) as [[n' e']|].
      + destruct IH as (before & after & -> & ? & ? & ?).
        exists ((n, e) :: before), after. repeat split; try done.
        constructor; [|done]. simpl. by rewrite Ef.
      + constructor; [|done]. simpl. by rewrite Ef. }
  specialize (Hgen GeneratedModule).
  destruct (List.find q (List.filter p GeneratedModule)) as [[n e]|].
  - destruct Hgen as (before & after & Hl & ? & ? & ?).
    exists first, rest, before, e, after. simpl. done.
  - right. by exists first, rest.
Qed.

End WithModule.


(** *** Discovery *)

Lemma insert_by_In {A} (cmp : A -> A -> Z) x y l :
  In y (insert_by cmp x l) <-> y = x \/ In y l.
Proof.
  induction l as [|z l IH]; simpl.
  - split; [intros [<-|[]]; by left|intros [->|[]]; by left].
  - destruct (cmp x z <? 0)%Z; simpl.
    + split; [intros [<-|H]; [by left|by right]|intros [->|H]; [by left|by right]].
    + rewrite IH. split.
      * intros [<-|[->|H]]; [right; by left|by left|right; by right].
      * intros [->|[<-|H]]; [right; by left|by left|right; by right].
Qed.

Lemma insert_by_length {A} (cmp : A -> A -> Z) x l :
  length (insert_by cmp x l) = S (length l).
Proof.
  induction l as [|z l IH]; simpl; [done|].
  destruct (cmp x z <? 0)%Z; simpl; by rewrite ?IH.
Qed.

Lemma sort_by_In {A} (cmp : A -> A -> Z) y l :
  In y (sort_by cmp l) <-> In y l.
Proof.
  unfold sort_by.
  assert (H : forall acc, In y (fold_left (fun acc x => insert_by cmp x acc) l acc)
                          <-> In y l \/ In y acc).
  { induction l as [|x l IH]; intros acc; simpl.
    - split; [by right|by intros [[]|?]].
    - rewrite IH, insert_by_In. split.
      + intros [H|[->|H]]; [left; by right|left; by left|by right].
      + intros [[<-|H]|H]; [right; by left|by left|right; by right]. }
  rewrite H. simpl. split; [by intros [?|[]]|by left].
Qed.

Lemma sort_by_length {A} (cmp : A -> A -> Z) l :
  length (sort_by cmp l) = length l.
Proof.
  unfold sort_by.
  assert (H : forall acc, length (fold_left (fun acc x => insert_by cmp x acc) l acc)
                          = (length l + length acc)%nat).
  { induction l as [|x l IH]; intros acc; simpl; [done|].
    rewrite IH, insert_by_length. lia. }
  rewrite H. simpl. lia.
Qed.

Lemma inferPrimaryKey_in fields :
  fields <> [] -> In (inferPrimaryKey fields) (map name fields).
Proof.
  unfold inferPrimaryKey. intros Hne.
  destruct (List.find _ fields) as [f|] eqn:E.
  - apply find_some in E as [Hin _]. by apply in_map.
  - destruct fields as [|f0 r]; [done|]. by left.
Qed.

Section Discovery.
Variable GeneratedModule : list (string * Export).
Variable safeStringify : AlgebraicType -> string.
Variable localeCompare : string -> string -> Z.
Variable Draws : Type.
Variable generateExampleArgs : Draws -> list FieldMetadata -> JSValue.

Lemma collectTables_In names : forall cache acc t,
  In t (collectTables GeneratedModule safeStringify cache names acc).1 ->
  In t acc
  \/ exists n c, In n names
       /\ (introspectTable GeneratedModule safeStringify c n).1 = Some t.
Proof.
  induction names as [|n names IH]; intros cache acc t; simpl; [by left|].
  destruct (introspectTable GeneratedModule safeStringify cache n) as [entry c'] eqn:E.
  intros [H|(n' & c & Hin & Hc)]%IH.
  - destruct entry as [e|]; [|by left].
    apply in_app_or in H as [H|[<-|[]]]; [by left|].
    right. exists n, cache. rewrite E. by split; [left|].
  - right. exists n', c. by split; [right|].
Qed.

Lemma collectTables_length names : forall cache acc,
  (length (collectTables GeneratedModule safeStringify cache names acc).1
   <= length acc + length names)%nat.
Proof.
  induction names as [|n names IH]; intros cache acc; simpl; [lia|].
  destruct (introspectTable GeneratedModule safeStringify cache n) as [entry c'].
  etrans; [apply IH|]. destruct entry; rewrite ?length_app; simpl; lia.
Qed.

(** X18.  Every entry of the table catalog comes from an export
    [<Name>TableHandle] of the generated module whose type [<Name>] has a
    type accessor: its name is the snake case of the type name, and its
    primary key is one of its fields whenever it has any.  The catalog has
    no more entries than the module has table handles. *)
Theorem discovered_tables_wellformed (typeCache : gmap string (list FieldMetadata))
  (t : TableMetadata) :
  In t (discoverTables GeneratedModule safeStringify localeCompare typeCache).1 ->
  (exists handle e,
     In (handle, e) GeneratedModule
     /\ endsWith handle "TableHandle" = true
     /\ hasTypeAccessor GeneratedModule (remove_first handle "TableHandle") = true
     /\ t_name t = toSnakeCase (remove_first handle "TableHandle")
     /\ t_displayName t = formatDisplayName (remove_first handle "TableHandle"))
  /\ (t_fields t <> [] -> In (t_primaryKey t) (map name (t_fields t)))
  /\ (length (discoverTables GeneratedModule safeStringify localeCompare typeCache).1
      <= length (findTableHandles GeneratedModule))%nat.
Proof.
  unfold discoverTables.
  destruct (collectTables GeneratedModule safeStringify typeCache
              (findTableTypes GeneratedModule) []) as [tables c'] eqn:E.
  cbn [fst]. intros Hin%sort_by_In.
  assert (Hsrc := collectTables_In (findTableTypes GeneratedModule) typeCache [] t).
  assert (Hlen := collectTables_length (findTableTypes GeneratedModule) typeCache []).
  rewrite E in Hsrc, Hlen. cbn [fst] in Hsrc, Hlen.
  destruct (Hsrc Hin) as [[]|(n & c & Hn & Ht)].
  unfold findTableTypes in Hn. apply filter_In in Hn as [Hn Hacc].
  apply in_map_iff in Hn as (handle & <- & Hh).
  unfold findTableHandles in Hh. apply in_map_iff in Hh as ([h e] & <- & Hh).
  apply filter_In in Hh as [Hh Hend]. apply andb_prop in Hend as [Hend _].
  cbn [fst] in *.
  unfold introspectTable in Ht.
  destruct (lookupExport GeneratedModule (remove_first h "TableHandle")) as [ex|];
    [|done].
  destruct (exp_accessor ex) as [[ty|err]|]; try done.
  destruct (analyzeAlgebraicType _ _ c ty _) as [fields c2]. cbn [fst] in Ht.
  injection Ht as <-. cbn [t_name t_displayName t_fields t_primaryKey].
  split; [by exists h, e|]. split; [apply inferPrimaryKey_in|].
  rewrite sort_by_length. etrans; [exact Hlen|]. simpl.
  unfold findTableTypes. etrans; [apply filter_length_le|].
  by rewrite length_map.
Qed.

Lemma collectReducers_In names : forall cache draws i acc r,
  In r (collectReducers GeneratedModule safeStringify Draws generateExampleArgs
          cache draws i names acc).1 ->
  In r acc
  \/ exists n c d, In n names
       /\ (introspectReducer GeneratedModule safeStringify Draws
             generateExampleArgs c d n).1 = Some r.
Proof.
  induction names as [|n names IH]; intros cache draws i acc r; simpl; [by left|].
  destruct (introspectReducer GeneratedModule safeStringify Draws
              generateExampleArgs cache (draws i) n) as [entry c'] eqn:E.
  intros [H|(n' & c & d & Hin & Hc)]%IH.
  - destruct entry as [e|]; [|by left].
    apply in_app_or in H as [H|[<-|[]]]; [by left|].
    right. exists n, cache, (draws i). rewrite E. by split; [left|].
  - right. exists n', c, d. by split; [right|].
Qed.


End Discovery.

Lemma discovered_tables_witness :
  let tables := (discoverTables sampleModule signature byteCompare ∅).1 in
  let t := hd (tableNamed "") tables in
  In t tables
  /\ t_name t = "audit_log"
  /\ (t_fields t <> [] -> In (t_primaryKey t) (map name (t_fields t)))
  /\ (length tables <= length (findTableHandles sampleModule))%nat.
Proof.
  intros tables t.
  assert (Hin : In t tables) by (left; vm_compute; reflexivity).
  split; [exact Hin|]. split; [vm_compute; reflexivity|].
  exact (proj2 (discovered_tables_wellformed sampleModule signature byteCompare
                  ∅ t Hin)).
Defined.


End CatalogProofs.

(* ===================================================================== *)
(** ** The example generator *)
(* ===================================================================== *)

Module ExampleGenProofs.
Import Text JS Types ReducerCaller ExampleGen Samples.



Lemma firstn_In {A} (x : A) n : forall l, In x (firstn n l) -> In x l.
Proof.
  induction n as [|n IH]; intros [|y l]; simpl; try done.
  intros [->|H]; [by left|right; by apply IH].
Qed.

Section WithRandomness.
Variable skip : nat -> bool.
Variable generateExampleValue : nat -> FieldMetadata -> option JSValue.







End WithRandomness.

End ExampleGenProofs.

(* ===================================================================== *)
(** ** The connection state machine over whole runs *)
(* ===================================================================== *)

Module TraceProofs.
Import JS Connection Traces Samples ConnectionProofs StoreProofs.

Ltac unfold_session :=
  cbv beta iota zeta delta
    [onConnect onDisconnect onConnectError onBuildFailure disconnect connect
     onSetupFailure onSubscriptionError
     runTask setTimeout dispatch set_flags set_store set_token set_now
     set_timers add_session add_closed add_subscribed
     isConnecting isIntentionalDisconnect store token now timers sessions
     closed subscribed] in *.

Ltac status_simpl :=
  unfold status, Slice.read, Slice.setConnectionStatus, Slice.setError,
    Slice.setIdentity, Slice.setConnection, Slice.clearError in *;
  cbn [store isConnecting isIntentionalDisconnect timers sessions token now] in *;
  repeat first
    [ rewrite lookup_insert_eq
    | rewrite lookup_insert_ne by done
    | rewrite clearAllTables_lookup; cbn [Slice.session_key String.eqb Ascii.eqb Bool.eqb orb] ];
  cbn [default] in *.

Lemma run_app cfg es1 : forall st es2,
  run cfg st (es1 ++ es2)
  = match run cfg st es1 with Some st' => run cfg st' es2 | None => None end.
Proof.
  induction es1 as [|e es1 IH]; intros st es2; simpl; [done|].
  destruct (exec cfg st e); [apply IH|done].
Qed.


Lemma run_invariant (P : State -> Prop) cfg :
  (forall st e st', P st -> exec cfg st e = Some st' -> P st') ->
  forall es st st', P st -> run cfg st es = Some st' -> P st'.
Proof.
  intros Hstep. induction es as [|e es IH]; intros st st' HP; simpl.
  - by intros [= <-].
  - destruct (exec cfg st e) as [st1|] eqn:E; [|done]. apply IH. by eapply Hstep.
Qed.

(** *** The connecting flag *)






(** *** The retry budget *)

Lemma budget_sessions_app cfg st s :
  (s_retryCount s <= maxRetries cfg)%Z ->
  Forall (fun s => (s_retryCount s <= maxRetries cfg)%Z) (sessions st) ->
  Forall (fun s => (s_retryCount s <= maxRetries cfg)%Z) (sessions st ++ [s]).
Proof. intros Hs H. apply Forall_app. split; [done|]. by constructor. Qed.

Lemma connect_within_budget cfg st n captured :
  (n <= maxRetries cfg)%Z ->
  within_budget cfg st -> within_budget cfg (connect st n captured).
Proof.
  intros Hn [Hs Ht]. unfold connect.
  destruct (isConnecting st || captured); [done|].
  unfold_session. split; cbn; [|done]. by apply budget_sessions_app.
Qed.

Lemma budget_timer_app cfg (ts : list Timer) t :
  match task t with
  | RetryConnect n _ => (n <= maxRetries cfg)%Z
  | _ => True
  end ->
  Forall (fun t => match task t with
                   | RetryConnect n _ => (n <= maxRetries cfg)%Z
                   | _ => True
                   end) ts ->
  Forall (fun t => match task t with
                   | RetryConnect n _ => (n <= maxRetries cfg)%Z
                   | _ => True
                   end) (ts ++ [t]).
Proof. intros Hs H. apply Forall_app. split; [done|]. by constructor. Qed.

Lemma exec_within_budget cfg st e st' :
  (0 <= maxRetries cfg)%Z ->
  within_budget cfg st -> exec cfg st e = Some st' -> within_budget cfg st'.
Proof.
  intros Hmax Hst. pose proof Hst as [Hs Ht].
  destruct e as [| |sid i t|sid m|sid m|sid|dt| |m|sid m]; cbn [exec].
  - intros [= <-]. by apply connect_within_budget.
  - intros [= <-]. unfold disconnect. destruct (truthy _); [|done].
    destruct (connSession _); unfold_session; (split; cbn; [done|]);
      by apply budget_timer_app.
  - destruct (nth_error _ _); [|done]. intros [= <-]. unfold onConnect.
    destruct (truthy _); unfold_session; (split; cbn; [done|]);
      by apply budget_timer_app.
  - destruct (nth_error _ _) as [s|]; [|done]. intros [= <-].
    unfold onConnectError.
    destruct (negb _); [destruct (_ <? _)%Z eqn:El|]; unfold_session;
      (split; cbn; [done|]); try done.
    apply budget_timer_app; [|done]. cbn. apply Z.ltb_lt in El. lia.
  - destruct (nth_error _ _) as [s|]; [|done]. intros [= <-].
    unfold onBuildFailure.
    destruct (negb _); [destruct (_ <? _)%Z eqn:El|]; unfold_session;
      (split; cbn; [done|]); try done.
    apply budget_timer_app; [|done]. cbn. apply Z.ltb_lt in El. lia.
  - destruct (nth_error _ _); [|done]. intros [= <-]. unfold onDisconnect.
    unfold_session. by split.
  - destruct (_ && _); [|done]. by intros [= <-].
  - destruct (next_timer _) as [[t rest]|] eqn:En; [|done].
    destruct (Qle_bool _ _); [|done]. intros [= <-].
    apply next_timer_in in En as [Hin Hrest].
    assert (Hrest' : within_budget cfg (set_timers st rest)).
    { split; [done|]. cbn. apply List.Forall_forall. intros u Hu.
      by apply (proj1 (List.Forall_forall _ _) Ht), Hrest. }
    pose proof (proj1 (List.Forall_forall _ _) Ht t Hin) as Htask.
    cbv beta in Htask.
    destruct (task t) as [n c| |sid]; cbn [runTask].
    + by apply connect_within_budget.
    + exact Hrest'.
    + exact Hrest'.
  - destruct (next_timer _) as [[t rest]|] eqn:En; [|done].
    destruct (Qle_bool _ _); [|done].
    destruct (task t) as [| |sid]; try done. intros [= <-].
    apply next_timer_in in En as [Hin Hrest].
    split; [done|]. cbn. apply List.Forall_forall. intros u Hu.
    by apply (proj1 (List.Forall_forall _ _) Ht), Hrest.
  - destruct (existsb _ _); [|done]. by intros [= <-].
Qed.

(** X22.  For an integer retry budget that is not negative (the only
    budgets [Config] describes; the schema of config/spacetime.ts would
    also let a fraction through), no session is ever built as an attempt
    numbered above maxRetries, and no pending retry would build one,
    whatever the user and the network do. *)
Theorem attempts_within_budget (cfg : Config) (es : list Event) (st : State) :
  (0 <= maxRetries cfg)%Z -> run cfg initial es = Some st ->
  within_budget cfg st.
Proof.
  intros Hmax. apply (run_invariant (within_budget cfg) cfg).
  - intros ? ? ?. by apply exec_within_budget.
  - split; constructor.
Qed.

Lemma attempts_within_budget_witness :
  (0 <= maxRetries defaultConfig)%Z
  /\ run defaultConfig initial staleRetryTrace <> None
  /\ within_budget defaultConfig
       (default initial (run defaultConfig initial staleRetryTrace)).
Proof.
  split; [by vm_compute|]. split; [by vm_compute|].
  apply (attempts_within_budget defaultConfig staleRetryTrace);
    [by vm_compute|vm_compute; reflexivity].
Defined.

(** *** Running out of retries *)

Lemma attempts_S n :
  attempts (S n) = attempts n ++ [mkSession (Z.of_nat n) false None].
Proof. unfold attempts. by rewrite seq_S, map_app. Qed.

Lemma attempts_length n : length (attempts n) = n.
Proof. unfold attempts. by rewrite length_map, length_seq. Qed.

Lemma attempts_last n :
  nth_error (attempts (S n)) n = Some (mkSession (Z.of_nat n) false None).
Proof.
  rewrite attempts_S, nth_error_app2 by (rewrite attempts_length; lia).
  by rewrite attempts_length, Nat.sub_diag.
Qed.

Lemma Qle_bool_refl q : Qle_bool q q = true.
Proof. apply Qle_bool_iff, Qle_refl. Qed.

Lemma failedRound_runs cfg message k st :
  sound_config cfg -> (Z.of_nat k < maxRetries cfg)%Z -> awaiting st k ->
  exists st', run cfg st (failedRound cfg message k) = Some st'
              /\ awaiting st' (S k).
Proof.
  intros Hcfg Hk (Hc & Hi & Ht & Hs & Htok & Hst).
  destruct st as [ic ii sto tok nw tms sess cl sub].
  cbn [isConnecting isIntentionalDisconnect timers sessions token] in Hc, Hi, Ht, Hs, Htok.
  subst. unfold failedRound. cbn [run exec sessions].
  rewrite attempts_last. unfold onConnectError. cbn [isIntentionalDisconnect negb s_retryCount].
  apply Z.ltb_lt in Hk as Hk'. rewrite Hk'.
  unfold_session. cbn [timers now app forallb due].
  assert (Hd : Qle_bool 0 (retryDelay cfg (Z.of_nat k)) = true).
  { apply Qle_bool_iff, retryDelay_nonneg; [done|lia]. }
  rewrite Hd, Qle_bool_refl. cbn [andb next_timer timers due now task].
  rewrite Qle_bool_refl. cbn [runTask task]. unfold_session.
  cbn [isConnecting orb token s_isConnected sessions timers store now
       isIntentionalDisconnect].
  eexists. split; [reflexivity|].
  unfold awaiting. cbn [isConnecting isIntentionalDisconnect timers sessions token].
  repeat split; try done.
  - rewrite (attempts_S (S k)). repeat f_equal. lia.
  - status_simpl. done.
Qed.

Lemma failedRounds_run cfg message j : forall k st,
  sound_config cfg -> (Z.of_nat (k + j) <= maxRetries cfg)%Z -> awaiting st k ->
  exists st',
    run cfg st (concat (map (failedRound cfg message) (seq k j))) = Some st'
    /\ awaiting st' (k + j).
Proof.
  induction j as [|j IH]; intros k st Hcfg Hk Hst.
  - exists st. by rewrite Nat.add_0_r.
  - cbn [seq map concat]. 
    destruct (failedRound_runs cfg message k st Hcfg ltac:(lia) Hst)
      as (st1 & Hrun1 & Hst1).
    destruct (IH (S k) st1 Hcfg ltac:(lia) Hst1) as (st2 & Hrun2 & Hst2).
    exists st2. rewrite run_app, Hrun1. split; [done|].
    by replace (k + S j)%nat with (S k + j)%nat by lia.
Qed.

(** X23.  When every handshake fails, connect() makes maxRetries + 1
    attempts, each retry after its backoff, and then gives up: the status
    is "error", the error is "Connection failed after <maxRetries>
    attempts: <message>", no timer is pending and the connecting flag is
    clear. *)
Theorem retries_exhausted (cfg : Config) (message : string) (n : nat) :
  sound_config cfg -> maxRetries cfg = Z.of_nat n ->
  exists st,
    run cfg initial (failingRun cfg message n) = Some st
    /\ status st = VStr "error"
    /\ Slice.read (store st) "error" = VStr (failedAfter cfg message)
    /\ sessions st = attempts (S n)
    /\ timers st = []
    /\ isConnecting st = false.
Proof.
  intros Hcfg Hmax. unfold failingRun.
  assert (H0 : awaiting (connect initial 0 (isConnectedNow initial)) 0).
  { by vm_compute. }
  destruct (failedRounds_run cfg message n 0 _ Hcfg ltac:(simpl; lia) H0)
    as (st1 & Hrun & (Hc & Hi & Ht & Hs & Htok & Hst)).
  cbn [run exec]. rewrite run_app, Hrun. cbn [run exec Nat.add].
  rewrite Hs, attempts_last. unfold onConnectError.
  rewrite Hi. cbn [negb s_retryCount]. rewrite Hmax, Z.ltb_irrefl.
  eexists. split; [reflexivity|].
  unfold_session. cbn [store sessions timers isConnecting].
  repeat split; try done; status_simpl; done.
Qed.

Lemma retries_exhausted_witness :
  sound_config defaultConfig
  /\ maxRetries defaultConfig = Z.of_nat 3
  /\ exists st,
       run defaultConfig initial (failingRun defaultConfig "refused" 3) = Some st
       /\ status st = VStr "error"
       /\ Slice.read (store st) "error"
          = VStr (failedAfter defaultConfig "refused")
       /\ sessions st = attempts 4
       /\ timers st = []
       /\ isConnecting st = false.
Proof.
  assert (Hcfg : sound_config defaultConfig) by (split; by vm_compute).
  split; [exact Hcfg|]. split; [reflexivity|].
  exact (retries_exhausted defaultConfig "refused" 3 Hcfg eq_refl).
Defined.

End TraceProofs.

(* ===================================================================== *)
(** ** Sessions, categories and colours *)
(* ===================================================================== *)

Module SessionProofs.
Import JS Connection Traces Selectors Samples ConnectionProofs StoreProofs TraceProofs.

Lemma connect_keeps_session st n captured :
  connected_has_session st -> connected_has_session (connect st n captured).
Proof.
  unfold connected_has_session, connect. intros H.
  destruct (isConnecting st || captured); [done|].
  unfold_session. status_simpl. discriminate.
Qed.

Lemma exec_keeps_session cfg st e st' :
  connected_has_session st -> exec cfg st e = Some st' ->
  connected_has_session st'.
Proof.
  intros Hst. destruct e as [| |sid i t|sid m|sid m|sid|dt| |m|sid m]; cbn [exec].
  - intros [= <-]. by apply connect_keeps_session.
  - intros [= <-]. unfold disconnect. destruct (truthy _); [|done].
    unfold connected_has_session.
    destruct (connSession _); unfold_session; status_simpl; discriminate.
  - destruct (nth_error _ _) eqn:En; [|done]. intros [= <-].
    assert (Hlt : (sid < length (sessions st))%nat).
    { apply nth_error_Some. by rewrite En. }
    unfold connected_has_session, onConnect. intros _. exists sid.
    destruct (truthy _); unfold_session; status_simpl; done.
  - destruct (nth_error _ _) as [s|]; [|done]. intros [= <-].
    unfold connected_has_session, onConnectError.
    destruct (negb _); [destruct (_ <? _)%Z|]; unfold_session; status_simpl;
      discriminate.
  - destruct (nth_error _ _) as [s|]; [|done]. intros [= <-].
    unfold onBuildFailure.
    destruct (negb _); [destruct (_ <? _)%Z|].
    + exact Hst.
    + unfold connected_has_session. unfold_session. status_simpl. discriminate.
    + unfold connected_has_session. unfold_session. status_simpl. discriminate.
  - destruct (nth_error _ _); [|done]. intros [= <-].
    unfold connected_has_session, onDisconnect.
    unfold_session. status_simpl. discriminate.
  - destruct (_ && _); [|done]. by intros [= <-].
  - destruct (next_timer _) as [[t rest]|]; [|done].
    destruct (Qle_bool _ _); [|done]. intros [= <-].
    destruct (task t) as [n c| |sid]; cbn [runTask].
    + by apply connect_keeps_session.
    + exact Hst.
    + exact Hst.
  - destruct (next_timer _) as [[t rest]|]; [|done].
    destruct (Qle_bool _ _); [|done].
    destruct (task t) as [| |sid]; try done. intros [= <-].
    unfold connected_has_session. unfold_session. status_simpl. discriminate.
  - destruct (existsb _ _); [|done]. intros [= <-].
    unfold connected_has_session. unfold_session. status_simpl. discriminate.
Qed.

(** X24.  Whenever the store says "connected", disconnect() takes effect:
    the store holds the connection of a session that was built, that
    session is the one closed, the status becomes "disconnected", the
    intentional flag is raised and every table is dropped from the store. *)
Theorem connected_can_disconnect (cfg : Config) (es : list Event) (st : State) :
  run cfg initial es = Some st -> selectIsConnected (store st) = true ->
  exists sid st',
    (sid < length (sessions st))%nat
    /\ exec cfg st CallDisconnect = Some st'
    /\ closed st' = closed st ++ [sid]
    /\ status st' = VStr "disconnected"
    /\ isIntentionalDisconnect st' = true
    /\ forall k, Slice.session_key k = false -> store st' !! k = None.
Proof.
  intros Hrun Hsel.
  assert (Hinv : connected_has_session st).
  { revert Hrun. apply (run_invariant connected_has_session cfg).
    - apply exec_keeps_session.
    - intros H. by vm_compute in H. }
  assert (Hst : status st = VStr "connected").
  { unfold selectIsConnected in Hsel. unfold status.
    destruct (Slice.read (store st) "connectionStatus") as [| |?|?|?|s| | |];
      try done.
    by apply String.eqb_eq in Hsel as ->. }
  destruct (Hinv Hst) as (sid & Hlt & Hconn).
  exists sid. cbn [exec]. unfold disconnect. rewrite Hconn.
  cbn [truthy connObject connSession]. rewrite Nat2Z.id.
  eexists. split; [done|]. split; [reflexivity|].
  unfold_session. cbn [closed isIntentionalDisconnect].
  split; [done|]. split; [by status_simpl|]. split; [done|].
  intros k Hk. cbn [store]. by rewrite clearAllTables_lookup, Hk.
Qed.

Lemma connected_can_disconnect_witness :
  let trace := [CallConnect; Elapse 10; HandshakeOk 0 "c0ffee" "tok"] in
  let st := default initial (run defaultConfig initial trace) in
  run defaultConfig initial trace = Some st
  /\ selectIsConnected (store st) = true
  /\ exists sid st',
       (sid < length (sessions st))%nat
       /\ exec defaultConfig st CallDisconnect = Some st'
       /\ closed st' = closed st ++ [sid]
       /\ status st' = VStr "disconnected"
       /\ isIntentionalDisconnect st' = true
       /\ forall k, Slice.session_key k = false -> store st' !! k = None.
Proof.
  intros trace st.
  assert (Hrun : run defaultConfig initial trace = Some st)
    by (vm_compute; reflexivity).
  assert (Hsel : selectIsConnected (store st) = true) by (vm_compute; reflexivity).
  split; [exact Hrun|]. split; [exact Hsel|].
  exact (connected_can_disconnect defaultConfig trace st Hrun Hsel).
Defined.

End SessionProofs.

Module CategoryProofs.
Import Text JS Types Analyzer Introspector Samples CatalogProofs.

(** X25.  Categories are tried in declaration order.  A name that mentions
    "user", in any casing, is always in "User Management" and gets the
    Users icon; and a name that ends up in "Security" mentions neither
    "auth" nor "token", although Security lists both: the categories that
    list them first always win. *)
Theorem category_precedence (name : string) :
  (includes (toLowerCase name) "user" = true ->
   categorizeItem name = "User Management" /\ getIconForItem name = "Users")
  /\ (categorizeItem name = "Security" ->
      includes (toLowerCase name) "auth" = false
      /\ includes (toLowerCase name) "token" = false).
Proof.
  split.
  - intros H. unfold categorizeItem, getIconForItem, CATEGORY_PATTERNS, ICON_MAP.
    cbn [List.find existsb snd fst]. by rewrite H.
  - unfold categorizeItem, CATEGORY_PATTERNS. cbn [List.find snd fst].
    repeat match goal with
           | |- context [if existsb ?f ?l then _ else _] =>
               let E := fresh "E" in destruct (existsb f l) eqn:E; cbv iota
           end; try discriminate.
    intros _. cbn [existsb] in *.
    repeat match goal with
           | H : (_ || _) = false |- _ => apply orb_false_elim in H as [? ?]
           end.
    done.
Qed.

Lemma category_precedence_witness :
  includes (toLowerCase "UserAuthToken") "user" = true
  /\ categorizeItem "UserAuthToken" = "User Management"
  /\ getIconForItem "UserAuthToken" = "Users".
Proof.
  split; [reflexivity|].
  exact (proj1 (category_precedence "UserAuthToken") eq_refl).
Defined.

Lemma first_matching_in table n fallback :
  In (first_matching table n fallback) (fallback :: map fst table).
Proof.
  unfold first_matching. destruct (List.find _ table) as [e|] eqn:E; [|by left].
  apply find_some in E as [Hin _]. right. by apply in_map.
Qed.

Section Discovery.
Variable GeneratedModule : list (string * Export).
Variable safeStringify : AlgebraicType -> string.
Variable localeCompare : string -> string -> Z.
Variable Draws : Type.
Variable generateExampleArgs : Draws -> list FieldMetadata -> JSValue.

(** X26.  In the reducer catalog an entry is coloured red exactly when it
    is flagged destructive; every other entry has one of the six action
    colours or gray. *)
Theorem red_iff_destructive (typeCache : gmap string (list FieldMetadata))
  (draws : nat -> Draws) (r : ReducerMetadata) :
  In r (discoverReducers GeneratedModule safeStringify localeCompare Draws
          generateExampleArgs typeCache draws).1 ->
  (r_color r = "red" <-> r_isDestructive r = true)
  /\ In (r_color r)
       ["red"; "green"; "blue"; "emerald"; "orange"; "purple"; "indigo"; "gray"].
Proof.
  unfold discoverReducers.
  destruct (collectReducers GeneratedModule safeStringify Draws generateExampleArgs
              typeCache draws 0 (findReducerTypes GeneratedModule) [])
    as [reducers c'] eqn:E.
  cbn [fst]. intros Hin%sort_by_In.
  assert (Hsrc := collectReducers_In GeneratedModule safeStringify Draws
                    generateExampleArgs (findReducerTypes GeneratedModule)
                    typeCache draws 0 [] r).
  rewrite E in Hsrc. cbn [fst] in Hsrc.
  destruct (Hsrc Hin) as [[]|(n & c & d & _ & Hr)].
  unfold introspectReducer in Hr.
  destruct (lookupExport GeneratedModule n) as [ex|]; [|done].
  destruct (exp_accessor ex) as [[ty|err]|]; try done.
  destruct (analyzeAlgebraicType _ _ c ty _) as [fields c2]. cbn [fst] in Hr.
  injection Hr as <-. cbn [r_color r_isDestructive]. unfold getReducerColor.
  destruct (isDestructiveReducer n).
  - split; [done|by left].
  - pose proof (first_matching_in colorPatterns (toLowerCase n) "gray") as H.
    cbn [colorPatterns map fst] in H. split.
    + split; [|done]. intros Hred. rewrite Hred in H.
      repeat (destruct H as [H|H]; [discriminate|]). done.
    + cbn [In] in *. tauto.
Qed.

End Discovery.

Lemma red_iff_destructive_witness :
  let reducers :=
    (discoverReducers sampleModule signature byteCompare unit noExample ∅
       (fun _ => tt)).1 in
  let r := List.last reducers setAB in
  In r reducers
  /\ r_name r = "delete_player"
  /\ (r_color r = "red" <-> r_isDestructive r = true)
  /\ In (r_color r)
       ["red"; "green"; "blue"; "emerald"; "orange"; "purple"; "indigo"; "gray"].
Proof.
  intros reducers r.
  assert (Hin : In r reducers) by (right; left; vm_compute; reflexivity).
  split; [exact Hin|]. split; [vm_compute; reflexivity|].
  exact (red_iff_destructive sampleModule signature byteCompare unit
           noExample ∅ (fun _ => tt) r Hin).
Defined.

End CategoryProofs.

(* ===================================================================== *)
(** ** The pattern grouper *)
(* ===================================================================== *)

Module NavigationProofs.
Import Text JS Introspector Navigation Samples CatalogProofs ExampleGenProofs.

Lemma push_pattern_In patternMap pattern item k l :
  In (k, l) (push_pattern patternMap pattern item) ->
  forall x, In x l ->
    (exists l0, In (k, l0) patternMap /\ In x l0) \/ (x = item /\ k = pattern).
Proof.
  induction patternMap as [|[k0 l0] m IH]; simpl.
  - intros [[= <- <-]|[]] x [<-|[]]. by right.
  - destruct (String.eqb k0 pattern) eqn:E.
    + apply String.eqb_eq in E as ->.
      intros [[= <- <-]|Hin] x Hx.
      * apply in_app_or in Hx as [Hx|[<-|[]]]; [|by right].
        left. exists l0. by split; [left|].
      * left. exists l. by split; [right|].
    + intros [[= <- <-]|Hin] x Hx.
      * left. exists l0. by split; [left|].
      * destruct (IH Hin x Hx) as [(l1 & H1 & H2)|?]; [|by right].
        left. exists l1. by split; [right|].
Qed.

Lemma slice0_In {A} n (l : list A) x : In x (slice0 n l) -> In x l.
Proof. unfold slice0. destruct (n <? 0)%Z; apply firstn_In. Qed.

Lemma slice0_length {A} n (l : list A) :
  (0 <= n)%Z -> (Z.of_nat (length (slice0 n l)) <= n)%Z.
Proof.
  intros Hn. unfold slice0. destruct (n <? 0)%Z eqn:E; [apply Z.ltb_lt in E; lia|].
  rewrite length_firstn. lia.
Qed.

Section WithConfig.
Variable config : NavigationConfig.
Variable localeCompare : string -> string -> Z.

Lemma push_patterns_filed items item patterns : forall m,
  In item items ->
  (forall p, In p patterns -> In p (getItemPatterns config (item_name item))) ->
  filed config items m ->
  filed config items (fold_left (fun m pattern => push_pattern m pattern item) patterns m).
Proof.
  induction patterns as [|p ps IH]; intros m Hitem Hps Hm; simpl; [done|].
  apply IH; [done|by intros q Hq; apply Hps; right|].
  intros k l x Hin Hx.
  destruct (push_pattern_In _ _ _ _ _ Hin x Hx) as [(l0 & H0 & Hx0)|[-> ->]].
  - by eapply Hm.
  - split; [done|]. apply Hps. by left.
Qed.

Lemma extractPatterns_filed items : filed config items (extractPatterns config items).
Proof.
  unfold extractPatterns.
  assert (H : forall rest m, (forall x, In x rest -> In x items) ->
                filed config items m ->
                filed config items
                  (fold_left
                     (fun patternMap item =>
                        fold_left (fun m pattern => push_pattern m pattern item)
                          (getItemPatterns config (item_name item)) patternMap)
                     rest m)).
  { induction rest as [|it rest IH]; intros m Hsub Hm; simpl; [done|].
    apply IH; [by intros x Hx; apply Hsub; right|].
    apply push_patterns_filed; [apply Hsub; by left|done|done]. }
  apply H; [done|]. by intros k l x [].
Qed.

Lemma grouped_false groups item :
  grouped groups item = false ->
  forall g y, In g groups -> In y (g_items g) -> item_id y <> item_id item.
Proof.
  unfold grouped. intros H g y Hg Hy Heq.
  assert (existsb (fun group =>
            existsb (fun groupItem => String.eqb (item_id groupItem) (item_id item))
                    (g_items group)) groups = true) as Ht.
  { apply existsb_exists. exists g. split; [done|].
    apply existsb_exists. exists y. split; [done|]. by apply String.eqb_eq. }
  congruence.
Qed.

Lemma createGroup_well_grouped items acc entry :
  (forall x, In x (snd entry) ->
     In x items /\ In (fst entry) (getItemPatterns config (item_name x))) ->
  well_grouped config items (fst acc) ->
  well_grouped config items (fst (createGroup config acc entry)).
Proof.
  destruct acc as [groups processed], entry as [pattern l]. cbn [fst snd].
  intros Hl [Hsize Hdisj]. unfold createGroup.
  destruct (_ || _); [done|].
  destruct (minGroupSize config <=? _)%Z eqn:Emin; [|done]. cbn [fst].
  apply Z.leb_le in Emin.
  set (avail := List.filter (fun item => negb (grouped groups item)) l) in *.
  set (g := {| g_pattern := pattern; g_items := avail |}).
  assert (Havail : forall x, In x avail -> In x l /\ grouped groups x = false).
  { intros x Hx. apply filter_In in Hx as [? Hx]. by apply negb_true_iff in Hx. }
  split.
  - intros g0 [Hg0|[<-|[]]]%in_app_or; [by apply Hsize|].
    split; [done|]. intros x Hx. apply Hl. by apply Havail.
  - intros g1 g2 x1 x2 [H1|[<-|[]]]%in_app_or [H2|[<-|[]]]%in_app_or Hne Hx1 Hx2.
    + exact (Hdisj g1 g2 x1 x2 H1 H2 Hne Hx1 Hx2).
    + destruct (Havail x2 Hx2) as [_ Hg].
      exact (grouped_false groups x2 Hg g1 x1 H1 Hx1).
    + destruct (Havail x1 Hx1) as [_ Hg].
      intros Heq. symmetry in Heq.
      exact (grouped_false groups x1 Hg g2 x2 H2 Hx2 Heq).
    + done.
Qed.

Lemma createGroups_well_grouped items :
  well_grouped config items (createGroups config (extractPatterns config items)).
Proof.
  unfold createGroups.
  set (sorted := sort_by _ (extractPatterns config items)).
  assert (Hsorted : forall k l x, In (k, l) sorted -> In x l ->
            In x items /\ In k (getItemPatterns config (item_name x))).
  { intros k l x Hin. apply sort_by_In in Hin. by apply extractPatterns_filed. }
  clearbody sorted.
  assert (H : forall acc, well_grouped config items (fst acc) ->
                          well_grouped config items (fst (fold_left (createGroup config) sorted acc))).
  { induction sorted as [|[k l] rest IH]; intros acc Hacc; simpl; [done|].
    apply IH.
    - intros k' l' x Hin. apply Hsorted. by right.
    - apply createGroup_well_grouped; [|done]. cbn [fst snd].
      intros x Hx. eapply Hsorted; [by left|done]. }
  apply H. split; [by intros g []|by intros g1 g2 x1 x2 []].
Qed.

Lemma filterAndLimitGroups_In groups g :
  In g (filterAndLimitGroups config groups) -> In g groups.
Proof.
  unfold filterAndLimitGroups.
  set (f1 := List.filter _ groups).
  assert (H1 : forall x, In x f1 -> In x groups)
    by (intros x Hx; by apply filter_In in Hx as [? _]).
  set (f2 := if collapseSingleGroups config then _ else f1).
  assert (H2 : forall x, In x f2 -> In x groups).
  { unfold f2. destruct (collapseSingleGroups config); [|done].
    intros x Hx. apply filter_In in Hx as [? _]. by apply H1. }
  destruct (_ <? _)%Z; [|by apply H2].
  intros Hg%slice0_In%sort_by_In. by apply H2.
Qed.

Lemma filterAndLimitGroups_length groups :
  (0 <= maxGroups config)%Z ->
  (Z.of_nat (length (filterAndLimitGroups config groups)) <= maxGroups config)%Z.
Proof.
  intros Hmax. unfold filterAndLimitGroups.
  destruct (_ <? _)%Z eqn:E; [by apply slice0_length|].
  by apply Z.ltb_ge in E.
Qed.

Lemma sortGroups_In groups g :
  In g (sortGroups config localeCompare groups) <-> In g groups.
Proof. unfold sortGroups. destruct (groupSortBy config); apply sort_by_In. Qed.

Lemma sortGroups_length groups :
  length (sortGroups config localeCompare groups) = length groups.
Proof. unfold sortGroups. destruct (groupSortBy config); apply sort_by_length. Qed.

(** X27.  The groups the pattern grouper returns: each has at least
    minGroupSize items, all of them items that were passed in and that
    have the group's pattern as a prefix pattern of their name; two
    different groups never hold items with the same id; and, the limit
    being non-negative, there are at most maxGroups groups. *)
Theorem pattern_groups_disjoint (items : list GroupableItem) :
  let groups := groupByPatterns config localeCompare items in
  (forall g, In g groups ->
     (minGroupSize config <= Z.of_nat (length (g_items g)))%Z
     /\ forall x, In x (g_items g) ->
          In x items /\ In (g_pattern g) (getItemPatterns config (item_name x)))
  /\ (forall g1 g2 x1 x2, In g1 groups -> In g2 groups -> g1 <> g2 ->
        In x1 (g_items g1) -> In x2 (g_items g2) -> item_id x1 <> item_id x2)
  /\ ((0 <= maxGroups config)%Z ->
      (Z.of_nat (length groups) <= maxGroups config)%Z).
Proof.
  unfold groupByPatterns. destruct (_ || _); cbv zeta.
  { split; [by intros g []|]. split; [by intros g1 g2 x1 x2 []|]. simpl. lia. }
  destruct (createGroups_well_grouped items) as [Hsize Hdisj].
  assert (Hsub : forall g,
            In g (sortGroups config localeCompare
                    (filterAndLimitGroups config
                       (createGroups config (extractPatterns config items)))) ->
            In g (createGroups config (extractPatterns config items))).
  { intros g Hg. apply filterAndLimitGroups_In.
    exact (proj1 (sortGroups_In _ g) Hg). }
  split; [|split].
  - intros g Hg. by apply Hsize, Hsub.
  - intros g1 g2 x1 x2 H1 H2. apply Hdisj; by apply Hsub.
  - intros Hmax. rewrite sortGroups_length. exact (filterAndLimitGroups_length _ Hmax).
Qed.

End WithConfig.

(** The sample navigation: the deeper pattern takes its two items first,
    the shallower one groups what is left, and the item that shares no
    pattern stays in the base list. *)
Example sample_groups :
  let config := mkNavigationConfig 2 2 true "_" 10 true false Alphabetical true true in
  let items := [mkItem "1" "user_create_a"; mkItem "2" "user_create_b";
                mkItem "3" "user_delete"; mkItem "4" "user_x"; mkItem "5" "room_a"] in
  map (fun g => (g_pattern g, map item_id (g_items g)))
      (groupByPatterns config byteCompare items)
    = [("user", ["3"; "4"]); ("user_create", ["1"; "2"])]
  /\ map item_id
       (getUngroupedItems config items (groupByPatterns config byteCompare items))
     = ["5"].
Proof. vm_compute. done. Qed.

End NavigationProofs.
